(** * CalorIA: the nutrition arithmetic of [app_calorias.py]

    A shallow embedding of the calculation helpers of the Streamlit
    application and of the post-processing of the food-detection answer.

    Numbers.  Python's [int] is [Z].  Python's [float] is a rational
    ([Q], compared with [==]), read in one of two ways.  The formulas of
    the estimates, of the plan, of the account page and of the typed meals
    and progress bars of the diary are taken in exact arithmetic, every
    constant of the source (6.25, 1.375, 0.01, ...) at its decimal value.
    Where rounding decides the result (the weeks to the target and their
    chart, the quick foods of the diary, the conversion of an [int] of the
    detection) every operation is followed by the rounding to binary64 of
    [Module Float64].  [Module Binary64] replays worked examples with the
    kernel's primitive floats, which evaluate the very same expressions. *)

From Stdlib Require Import ZArith QArith Qabs Qminmax Qround Qpower Lqa Lia Ascii
  Floats Uint63.
From stdpp Require Import base decidable option list strings gmap.

Open Scope Q_scope.

(** ** Onboarding helpers (src/app_calorias.py, lines 145-165) *)

Module Onboarding.

(** The literal dictionary of [_fator_atividade]. *)
Definition fatores : gmap string Q :=
  <[ "Sedentário (pouco ou nenhum exercício)"%string := 1.2 ]>
  (<[ "Leve (1–3x/semana)"%string := 1.375 ]>
  (<[ "Moderado (3–5x/semana)"%string := 1.55 ]>
  (<[ "Alto (6–7x/semana)"%string := 1.725 ]>
  (<[ "Atleta/Extremo (2x/dia)"%string := 1.9 ]> ∅)))).

(** The five keys of the activity table. *)
Definition niveis : list string :=
  [ "Sedentário (pouco ou nenhum exercício)"; "Leve (1–3x/semana)";
    "Moderado (3–5x/semana)"; "Alto (6–7x/semana)";
    "Atleta/Extremo (2x/dia)" ]%string.

(** [{...}.get(txt, 1.2)] *)
Definition _fator_atividade (txt : string) : Q :=
  default 1.2 (fatores !! txt).

(** [s = 5 if sex == "Masculino" else -161;
    return (10*kg) + (6.25*cm) - (5*anos) + s] *)
Definition _bmr_mifflin (kg cm : Q) (anos : Z) (sex : string) : Q :=
  let s : Z := if decide (sex = "Masculino"%string) then 5%Z else (-161)%Z in
  (10 * kg) + (6.25 * cm) - inject_Z (5 * anos) + inject_Z s.

Definition _tdee (kg cm : Q) (anos : Z) (sex atividade_txt : string) : Q :=
  _bmr_mifflin kg cm anos sex * _fator_atividade atividade_txt.

(** [datetime.date]: only the three fields the helper reads. *)
Record date : Type := mk_date { year : Z; month : Z; day : Z }.

(** Python compares the pairs [(month, day)] lexicographically. *)
Definition tuple_lt (a b : Z * Z) : bool :=
  (a.1 <? b.1)%Z || ((a.1 =? b.1)%Z && (a.2 <? b.2)%Z).

(** A [bool] used as an [int] in a subtraction. *)
Definition int_of_bool (b : bool) : Z := if b then 1%Z else 0%Z.

(** [_idade_from_dob].  A [date] object is always truthy, so [not dob]
    holds exactly for the missing value ([None]); [date.today()] is the
    parameter [today]. *)
Definition _idade_from_dob (today : date) (dob : option date) : Z :=
  match dob with
  | None => 30%Z
  | Some d =>
      (year today - year d
       - int_of_bool (tuple_lt (month today, day today) (month d, day d)))%Z
  end.

(** The target of step 4 and of the plan tab:
    [kcal_alvo = tdee_val * (1 + ajuste/100.0)], with an [int] adjustment
    (a dictionary of integers in the wizard, an integer slider in the plan
    tab). *)
Definition kcal_alvo (tdee_val : Q) (ajuste_percent : Z) : Q :=
  tdee_val * (1 + inject_Z ajuste_percent / 100).

(** [ajuste = {"Emagrecer": -20, "Ganhar massa": 15, "Manutenção": 0}[goal]]:
    subscripting raises [KeyError] on any other key. *)
Definition ajustes : gmap string Z :=
  <[ "Emagrecer"%string := (-20)%Z ]>
  (<[ "Ganhar massa"%string := 15%Z ]>
  (<[ "Manutenção"%string := 0%Z ]> ∅)).

(** The figures of step 4 of [render_onboarding] (lines 233-238). *)
Record estimativas : Type := mk_estimativas {
  est_idade : Z; est_bmr : Q; est_tdee : Q; est_kcal_alvo : Q; est_agua_l : Q
}.

Definition step4 (today : date) (dob : option date)
    (weight_kg height_cm : Q) (sex atividade goal : string)
    : option estimativas :=
  let idade := _idade_from_dob today (Some (default (mk_date 1995 1 1) dob)) in
  let bmr := _bmr_mifflin weight_kg height_cm idade sex in
  let tdee_val := _tdee weight_kg height_cm idade sex atividade in
  ajuste ← ajustes !! goal;
  Some (mk_estimativas idade bmr tdee_val (kcal_alvo tdee_val ajuste)
                       (weight_kg * 35 / 1000)).

(** *** Orders used to state what the age helper computes *)

(** [(m1, d1)] comes strictly before [(m2, d2)] in the calendar year. *)
Definition precedes (a b : Z * Z) : Prop :=
  (a.1 < b.1)%Z \/ (a.1 = b.1 /\ a.2 < b.2)%Z.

(** Calendar order on dates. *)
Definition date_le (a b : date) : Prop :=
  (year a < year b)%Z
  \/ (year a = year b /\ month a < month b)%Z
  \/ (year a = year b /\ month a = month b /\ day a <= day b)%Z.

(** The [n]-th anniversary of a date. *)
Definition anniversary (d : date) (n : Z) : date :=
  mk_date (year d + n) (month d) (day d).

End Onboarding.

(** ** Python's comparison and [max] on numbers *)

Module PyNum.

(** [x < y] as a boolean. *)
Definition Qlt_bool (x y : Q) : bool := negb (Qle_bool y x).

(** [max(a, b)]: the first argument is kept unless the second is greater. *)
Definition py_max (a b : Q) : Q := if Qlt_bool a b then b else a.

End PyNum.

(** ** The plan tab (src/app_calorias.py, lines 1794-1842)

    The tab calls [kcal_to_macros_grams] and [grams_from_gkg]; neither is
    defined in any file of the repository.  Their bodies follow the
    specification (operations macrosFromPercentages and macrosFromRatios);
    everything around the two calls is the source's. *)

Module PlanTab.
Import PyNum.

(** Modelled from the spec: the error taxonomy of the calculator, which no
    source file declares.  [InvalidInput] is a failure of the call,
    [BudgetExceeded] a warning next to a result. *)
Inductive condition : Type := InvalidInput | BudgetExceeded.

(** The warning the tab appends to [avisos] (lines 1816-1818). *)
Definition aviso_carbo_zerado : string :=
  "Com as metas de proteína/gordura por kg escolhidas, as calorias alvo ficaram insuficientes para carboidratos (carbo zerado). Ajuste metas ou calorias.".

(** Modelled from the spec: the normalisation rule inside the absent
    [kcal_to_macros_grams].  The percentages are divided by their sum and
    multiplied by 100 when the sum is not 100 within the tolerance 0.01,
    the test the call site repeats at line 1806. *)
Definition normalized_pcts (p_pct c_pct f_pct : Q) : Q * Q * Q :=
  let soma := p_pct + c_pct + f_pct in
  if Qlt_bool 0.01 (Qabs (soma - 100))
  then (p_pct / soma * 100, c_pct / soma * 100, f_pct / soma * 100)
  else (p_pct, c_pct, f_pct).

(** Modelled from the spec: the body of [kcal_to_macros_grams]
    (macrosFromPercentages), called at line 1803 and defined nowhere in the
    repository.  A zero sum is the reported error [InvalidInput]; otherwise
    the percentages are normalised, grams are
    [(target_kcal * pct/100) / kcal_per_gram] with 4 kcal/g for protein and
    carbohydrate and 9 kcal/g for fat, and the normalised percentages are
    returned as the fourth component, as the call site unpacks them. *)
Definition kcal_to_macros_grams (target_kcal p_pct c_pct f_pct : Q)
    : condition + (Q * Q * Q * (Q * Q * Q)) :=
  if Qeq_bool (p_pct + c_pct + f_pct) 0 then inl InvalidInput
  else
    let '(pN, cN, fN) := normalized_pcts p_pct c_pct f_pct in
    inr ((target_kcal * pN / 100) / 4,
         (target_kcal * cN / 100) / 4,
         (target_kcal * fN / 100) / 9,
         (pN, cN, fN)).

(** Modelled from the spec: the body of [grams_from_gkg]
    (macrosFromRatios), called at line 1812 and defined nowhere in the
    repository.  The fourth component is the signed [remaining_kcal], the
    value the call site tests with [kcal_rest < 0]. *)
Definition grams_from_gkg (weight_kg protein_g_per_kg fat_g_per_kg target_kcal : Q)
    : Q * Q * Q * Q :=
  let protein_g := weight_kg * protein_g_per_kg in
  let fat_g := weight_kg * fat_g_per_kg in
  let remaining_kcal := target_kcal - (protein_g * 4 + fat_g * 9) in
  let carb_g := py_max 0 (remaining_kcal / 4) in
  (protein_g, carb_g, fat_g, remaining_kcal).

(** The radio button "Como definir?" and the inputs it enables. *)
Inductive metodo_macros : Type :=
| PorGkg (peso p_gkg f_gkg : Q)
| PorPct (p_pct c_pct f_pct : Q).

(** What the tab shows for the macros: the grams, their calorie
    equivalents (lines 1840-1842), the [st.info] notice of a normalisation
    with the sum and the normalised percentages it prints, and the list
    [avisos] of warnings. *)
Record resultado : Type := mk_resultado {
  prot_g : Q; carb_g : Q; gord_g : Q;
  kcal_p : Q; kcal_c : Q; kcal_f : Q;
  info_normalizacao : option (Q * (Q * Q * Q));
  avisos : list string
}.

(** Lines 1802-1818 and 1840-1842.  An error of [kcal_to_macros_grams] is
    not caught by the tab and propagates. *)
Definition macros_do_plano (kcal_alvo : Q) (m : metodo_macros)
    : condition + resultado :=
  match m with
  | PorPct p_pct c_pct f_pct =>
      match kcal_to_macros_grams kcal_alvo p_pct c_pct f_pct with
      | inl e => inl e
      | inr (g_p, g_c, g_f, pcts) =>
          let info :=
            if Qlt_bool 0.01 (Qabs ((p_pct + c_pct + f_pct) - 100))
            then Some (p_pct + c_pct + f_pct, pcts) else None in
          inr (mk_resultado g_p g_c g_f (g_p * 4) (g_c * 4) (g_f * 9) info [])
      end
  | PorGkg peso p_gkg f_gkg =>
      let '(prot, carb, gord, kcal_rest) :=
        grams_from_gkg peso p_gkg f_gkg kcal_alvo in
      let avisos := if Qlt_bool kcal_rest 0 then [aviso_carbo_zerado] else [] in
      inr (mk_resultado prot carb gord (prot * 4) (carb * 4) (gord * 9) None avisos)
  end.

(** The conditions a result of the tab carries for the user: the tab's
    only warning is the report of [BudgetExceeded]. *)
Definition condicoes (r : resultado) : list condition :=
  if decide (aviso_carbo_zerado ∈ avisos r) then [BudgetExceeded] else [].

End PlanTab.

(** ** Python's [float] arithmetic: rounding to binary64

    A finite [float] is a rational with at most 53 significant bits and an
    exponent of the last place of at least -1074.  An arithmetic operation
    of the interpreter is the exact operation on rationals followed by
    [round64], rounding to the nearest such number with ties to the even
    one.  Overflow to infinity is outside this model: it needs a result of
    at least 2^1024, far beyond the weights and grams of the pages
    modelled with it; the conversion of an [int] of the food detection,
    which can be that large, tests for it. *)

Module Float64.

(** [2^e] for an integer [e] of either sign. *)
Definition pow2 (e : Z) : Q := Qpower 2 e.

(** Rounding to the nearest integer, ties to the even one. *)
Definition rne (q : Q) : Z :=
  let f := Qfloor q in
  match Qcompare (q - inject_Z f) (1 # 2) with
  | Lt => f
  | Gt => (f + 1)%Z
  | Eq => if Z.even f then f else (f + 1)%Z
  end.

(** [floor (log2 q)] of a positive [q]. *)
Definition ilog2 (q : Q) : Z :=
  let k := (Z.log2 (Qnum q) - Z.log2 (Zpos (Qden q)))%Z in
  if Qle_bool (pow2 k) q then k else (k - 1)%Z.

(** The exponent of the last place of a positive [q]: 53 significant
    bits, and never below the exponent of the subnormal numbers. *)
Definition expoente (q : Q) : Z := Z.max (-1074) (ilog2 q - 52).

(** The binary64 number nearest a positive [q], as a reduced fraction. *)
Definition round_pos (q : Q) : Q :=
  let e := expoente q in Qred (inject_Z (rne (q / pow2 e)) * pow2 e).

(** The binary64 number nearest [q]. *)
Definition round64 (q : Q) : Q :=
  match Qcompare q 0 with
  | Eq => 0
  | Gt => round_pos q
  | Lt => - round_pos (- q)
  end.

(** [q] is a binary64 number: what a variable of type [float] can hold. *)
Definition representavel (q : Q) : Prop := round64 q == q.

(** An [int] operand of a mixed operation, converted to [float]. *)
Definition of_int (z : Z) : Q := round64 (inject_Z z).

End Float64.

(** ** Food detection (src/app_calorias.py, lines 434-503)

    [ai_detect_foods_from_image_openrouter] posts one request and turns the
    answer into a list of [{"food", "grams", "confidence"}] dictionaries.
    The network exchange is an input of the model; everything the function
    does with the answer is embedded.  Exceptions are [None] in the option
    monad: every exception raised here derives from [Exception], which is
    what the outer handler catches. *)

Module FoodAI.
Import PyNum Float64.

(** *** Values *)

(** A Python [float] decoded from JSON: a finite number, or one of the
    three special values [json.loads] accepts ([Infinity], [-Infinity],
    [NaN]). *)
Inductive pyfloat : Type := Fin (q : Q) | PosInf | NegInf | NaN.

(** [x < y]; every comparison with [NaN] is false. *)
Definition flt (x y : pyfloat) : bool :=
  match x, y with
  | NaN, _ | _, NaN => false
  | PosInf, _ | _, NegInf => false
  | NegInf, _ | _, PosInf => true
  | Fin a, Fin b => Qlt_bool a b
  end.

(** [max(a, b)] and [min(a, b)] of two floats, as the interpreter
    computes them: the first argument is replaced only by a strictly
    greater (resp. smaller) second one. *)
Definition fmax (a b : pyfloat) : pyfloat := if flt a b then b else a.
Definition fmin (a b : pyfloat) : pyfloat := if flt b a then b else a.

(** [x <= y] as a proposition (false when either side is [NaN]). *)
Definition fle (x y : pyfloat) : Prop :=
  match x, y with
  | NaN, _ | _, NaN => False
  | NegInf, _ | _, PosInf => True
  | PosInf, _ | _, NegInf => False
  | Fin a, Fin b => a <= b
  end.

(** What [resp.json()] and [json.loads] return. *)
#[local] Set Warnings "-register-all".
Inductive json : Type :=
| JNull
| JBool (b : bool)
| JInt (z : Z)
| JFloat (x : pyfloat)
| JStr (s : string)
| JList (l : list json)
| JDict (m : gmap string json).
#[local] Set Warnings "register-all".

(** Truth value of an object. *)
Definition truthy (v : json) : bool :=
  match v with
  | JNull => false
  | JBool b => b
  | JInt z => negb (z =? 0)%Z
  | JFloat (Fin q) => negb (Qeq_bool q 0)
  | JFloat _ => true
  | JStr s => match s with EmptyString => false | _ => true end
  | JList l => match l with [] => false | _ => true end
  | JDict m => match map_to_list m with [] => false | _ => true end
  end.

(** [a or b] *)
Definition py_or (a b : json) : json := if truthy a then a else b.

(** [v.get(k)]: only a [dict] has the method ([AttributeError]
    otherwise); a missing key gives [None]. *)
Definition dict_get (v : json) (k : string) : option json :=
  match v with
  | JDict m => Some (default JNull (m !! k))
  | _ => None
  end.

(** [v[k]] with a string key: [KeyError] on a missing key, [TypeError] on
    anything that is not a [dict]. *)
Definition subscript_key (v : json) (k : string) : option json :=
  match v with
  | JDict m => m !! k
  | _ => None
  end.

(** [v[0]]: the first element of a list or the first character of a
    string ([IndexError] when empty); a [dict] decoded from JSON has only
    string keys ([KeyError]); other values are not subscriptable. *)
Definition subscript_0 (v : json) : option json :=
  match v with
  | JList (x :: _) => Some x
  | JStr (String c _) => Some (JStr (String c EmptyString))
  | _ => None
  end.

(** [for it in v]: a list yields its elements, a string its characters,
    a [dict] its keys; other values are not iterable ([TypeError]). *)
Fixpoint chars (s : string) : list json :=
  match s with
  | EmptyString => []
  | String c s' => JStr (String c EmptyString) :: chars s'
  end.

Definition py_iter (v : json) : option (list json) :=
  match v with
  | JList l => Some l
  | JStr s => Some (chars s)
  | JDict m => Some (JStr <$> (map_to_list m).*1)
  | _ => None
  end.

(** *** Strings *)

(** A [str] is the sequence of the bytes of its UTF-8 encoding.
    [str.strip()] removes the characters for which [str.isspace()] holds.
    The ASCII ones are tab to carriage return, the four separators 28-31
    and the space. *)
Definition is_space (c : ascii) : bool :=
  let n := nat_of_ascii c in
  ((9 <=? n) && (n <=? 13) || (28 <=? n) && (n <=? 32))%nat.

(** The others take two bytes, U+0085 and U+00A0 (C2 85, C2 A0) ... *)
Definition is_space2 (a b : ascii) : bool :=
  let x := nat_of_ascii a in
  let y := nat_of_ascii b in
  ((x =? 194) && ((y =? 133) || (y =? 160)))%nat.

(** ... or three: U+1680 (E1 9A 80), U+2000 to U+200A, U+2028, U+2029 and
    U+202F (E2 80 80 to 8A, A8, A9, AF), U+205F (E2 81 9F) and U+3000
    (E3 80 80). *)
Definition is_space3 (a b c : ascii) : bool :=
  let x := nat_of_ascii a in
  let y := nat_of_ascii b in
  let z := nat_of_ascii c in
  ((x =? 225) && (y =? 154) && (z =? 128)
   || (x =? 226) && (y =? 128)
      && ((128 <=? z) && (z <=? 138) || (z =? 168) || (z =? 169) || (z =? 175))
   || (x =? 226) && (y =? 129) && (z =? 159)
   || (x =? 227) && (y =? 128) && (z =? 128))%nat.

Definition is_empty (s : string) : bool :=
  match s with EmptyString => true | _ => false end.

Fixpoint lstrip (s : string) : string :=
  match s with
  | EmptyString => EmptyString
  | String a s1 =>
      if is_space a then lstrip s1
      else
        match s1 with
        | EmptyString => s
        | String b s2 =>
            if is_space2 a b then lstrip s2
            else
              match s2 with
              | EmptyString => s
              | String c s3 => if is_space3 a b c then lstrip s3 else s
              end
        end
  end.

(** A string of whitespace only is emptied; otherwise its first byte
    stays.  No encoding of a whitespace character starts with a
    continuation byte, so a tail cut inside a character is never taken for
    whitespace. *)
Fixpoint rstrip (s : string) : string :=
  match s with
  | EmptyString => EmptyString
  | String a s' => if is_empty (lstrip s) then EmptyString else String a (rstrip s')
  end.

Definition strip (s : string) : string := rstrip (lstrip s).

(** [re.search(r"\{.*\}", s, flags=re.S)]: with [.] matching every
    character and a greedy star, the match runs from the first opening
    brace to the last closing brace after it. *)
Fixpoint from_first_brace (s : string) : option string :=
  match s with
  | EmptyString => None
  | String c s' => if Ascii.eqb c "{" then Some s else from_first_brace s'
  end.

Fixpoint upto_last_brace (s : string) : option string :=
  match s with
  | EmptyString => None
  | String c s' =>
      match upto_last_brace s' with
      | Some r => Some (String c r)
      | None => if Ascii.eqb c "}" then Some (String c EmptyString) else None
      end
  end.

Definition re_search_braces (s : string) : option string :=
  s' ← from_first_brace s; upto_last_brace s'.

(** *** The function *)

(** One dictionary of the returned list. *)
Record item : Type := mk_item {
  food : string; grams : pyfloat; confidence : pyfloat
}.

(** What [requests.post(...)], [resp.raise_for_status()] and [resp.json()]
    can do: one of the first two raises, or the body is not JSON and
    [resp.json()] raises, or the body decodes to [data]. *)
Inductive http_outcome : Type :=
| RequestFailed
| BodyNotJson
| BodyJson (data : json).

Section Detect.

(** [json.loads] on a string ([None]: it raises). *)
Variable json_loads : string -> option json.
(** [float(s)] on a string ([None]: [ValueError]). *)
Variable float_of_str : string -> option pyfloat.
(** [str(v)] on a value that is not a string. *)
Variable str_of : json -> string.

(** [str(v)] *)
Definition py_str (v : json) : string :=
  match v with JStr s => s | _ => str_of v end.

(** [float(v)]: an [int] is rounded to the nearest double, and one that
    rounds to 2^1024 or more raises [OverflowError]; [None], lists and
    dictionaries raise [TypeError]. *)
Definition py_float (v : json) : option pyfloat :=
  match v with
  | JFloat x => Some x
  | JInt z =>
      if (Z.abs z <? 2 ^ 1024 - 2 ^ 970)%Z then Some (Fin (of_int z)) else None
  | JBool b => Some (Fin (if b then 1 else 0))
  | JStr s => float_of_str s
  | JNull | JList _ | JDict _ => None
  end.

(** The body of the loop: [Some None] when the item is skipped,
    [Some (Some i)] when [i] is appended, [None] when it raises. *)
Definition item_step (it : json) : option (option item) :=
  f ← dict_get it "food";
  let food := strip (py_str (py_or f (JStr ""))) in
  g ← dict_get it "grams";
  grams ← py_float (py_or g (JInt 0));
  c ← dict_get it "confidence";
  conf ← py_float (py_or c (JInt 0));
  Some (if is_empty food then None
        else Some (mk_item food (fmax (Fin 0) grams)
                                (fmax (Fin 0) (fmin conf (Fin 1))))).

(** [for it in items: ...] with the accumulator [out]. *)
Fixpoint collect (items : list json) (out : list item) : option (list item) :=
  match items with
  | [] => Some out
  | it :: rest =>
      r ← item_step it;
      collect rest (match r with Some i => out ++ [i] | None => out end)
  end.

(** The inner [try]: [json.loads(content)], and on any exception the
    braces found by the regular expression, or [{}] when there are
    none.  On a [content] that is not a string both [json.loads] and
    [re.search] raise [TypeError]. *)
Definition parse_content (content : json) : option json :=
  match content with
  | JStr s =>
      match json_loads s with
      | Some parsed => Some parsed
      | None =>
          match re_search_braces s with
          | Some group0 => json_loads group0
          | None => Some (JDict ∅)
          end
      end
  | _ => None
  end.

(** [data["choices"][0]["message"]["content"]] *)
Definition message_content (data : json) : option json :=
  choices ← subscript_key data "choices";
  first ← subscript_0 choices;
  message ← subscript_key first "message";
  subscript_key message "content".

(** The outer [try] block. *)
Definition detect_body (resp : http_outcome) : option (list item) :=
  match resp with
  | RequestFailed | BodyNotJson => None
  | BodyJson data =>
      content ← message_content data;
      parsed ← parse_content content;
      its ← dict_get parsed "items";
      items ← py_iter (py_or its (JList []));
      collect items []
  end.

(** The whole function.  [api_key] is [st.secrets.get(...)]: missing
    ([None]) or empty, it is falsy and no request is made; [resp] is the
    outcome of the request otherwise. *)
Definition ai_detect_foods_from_image_openrouter
    (api_key : option string) (resp : http_outcome) : list item :=
  match api_key with
  | None | Some EmptyString => []
  | Some _ => default [] (detect_body resp)
  end.

(** *** What the claims say about it *)

(** An item as promised: a name, a weight that is not negative and a
    confidence in [[0, 1]]. *)
Definition item_ok (i : item) : Prop :=
  food i <> EmptyString
  /\ fle (Fin 0) (grams i)
  /\ fle (Fin 0) (confidence i) /\ fle (confidence i) (Fin 1).

(** The number the loop reads from [v], [float(v or 0)], when [v] is what
    the prompt asks for, a JSON number, or is missing or [null]: 0.0 for
    [null] and for a zero, the nearest double for an [int], the number
    itself (also [NaN] or an infinity) for a [float].  [None] for every
    other value and for an [int] beyond the doubles. *)
Definition numero (v : json) : option pyfloat :=
  match v with
  | JNull => Some (Fin 0)
  | JInt z =>
      if (Z.abs z <? 2 ^ 1024 - 2 ^ 970)%Z then Some (Fin (of_int z)) else None
  | JFloat (Fin q) => Some (Fin (if Qeq_bool q 0 then 0 else q))
  | JFloat x => Some x
  | JBool _ | JStr _ | JList _ | JDict _ => None
  end.

(** The answer carries a JSON object with an ["items"] list: the content
    of the first choice parses (directly or through its braces) to a
    dictionary whose ["items"] entry is a list. *)
Definition has_items_list (resp : http_outcome) : Prop :=
  exists data content m l,
    resp = BodyJson data
    /\ message_content data = Some content
    /\ parse_content content = Some (JDict m)
    /\ m !! "items"%string = Some (JList l).

End Detect.

End FoodAI.

(** ** Vocabulary on strings, to state what the string functions return *)

Module Texto.

(** The character [c] occurs in [s]. *)
Fixpoint ocorre (c : ascii) (s : string) : bool :=
  match s with
  | EmptyString => false
  | String a s' => Ascii.eqb a c || ocorre c s'
  end.

Definition first_char (s : string) : option ascii :=
  match s with EmptyString => None | String c _ => Some c end.

Fixpoint last_char (s : string) : option ascii :=
  match s with
  | EmptyString => None
  | String c EmptyString => Some c
  | String _ s' => last_char s'
  end.

End Texto.

(** ** The source's arithmetic in IEEE binary64

    The same expressions over the kernel's primitive floats, which are
    Python's [float].  They are used only to replay the worked examples:
    the values shown in exact arithmetic are also what the interpreter
    prints. *)

Module Binary64.

(** An [int] operand of a mixed operation, converted to [float] (exact
    below 2^53 in absolute value, which covers every use below). *)
Definition of_int (z : Z) : float :=
  if (z <? 0)%Z then (- of_uint63 (Uint63.of_Z (- z)))%float
  else of_uint63 (Uint63.of_Z z).

Definition _bmr_mifflin (kg cm : float) (anos : Z) (sex : string) : float :=
  let s : Z := if decide (sex = "Masculino"%string) then 5%Z else (-161)%Z in
  ((of_int 10 * kg) + (6.25 * cm) - of_int (5 * anos) + of_int s)%float.

Definition kcal_alvo (tdee_val : float) (ajuste_percent : Z) : float :=
  (tdee_val * (of_int 1 + of_int ajuste_percent / 100.0))%float.

(** The rational a finite float stands for, as a reduced fraction. *)
Definition to_Q (x : float) : option Q :=
  match Prim2SF x with
  | S754_zero _ => Some 0
  | S754_finite s m e =>
      let v := Qred (inject_Z (Zpos m) * Float64.pow2 e) in
      Some (if s then - v else v)
  | S754_infinity _ | S754_nan => None
  end.

(** [_semanas_para_alvo] (lines 167-178); [math.ceil] raises on an
    infinity or a [NaN]. *)
Definition _semanas_para_alvo (peso_atual peso_meta : float) (objetivo : string)
    : option Z :=
  if decide (objetivo = "Emagrecer"%string) then
    let perda_por_sem := 0.5%float in
    let diff := (peso_atual - peso_meta)%float in
    let delta := if (diff <? 0)%float then 0%float else diff in
    if (delta <=? 0)%float then Some 0%Z
    else Qceiling <$> to_Q (delta / perda_por_sem)
  else if decide (objetivo = "Ganhar massa"%string) then
    let ganho_por_sem := 0.25%float in
    let diff := (peso_meta - peso_atual)%float in
    let delta := if (diff <? 0)%float then 0%float else diff in
    if (delta <=? 0)%float then Some 0%Z
    else Qceiling <$> to_Q (delta / ganho_por_sem)
  else Some 0%Z.

(** The last point of the chart of step 4 for the goal "Emagrecer",
    [weight_kg - semanas*passo] (lines 251-252). *)
Definition ultimo_ponto (weight_kg target_weight_kg : float) (semanas : Z) : float :=
  let passo := ((weight_kg - target_weight_kg) / of_int (Z.max semanas 1))%float in
  (weight_kg - of_int semanas * passo)%float.

(** One number of a quick food of the diary, [info[k] * (grams_q / 100.0)]
    (lines 906-910). *)
Definition por_gramas (por_100g grams_q : float) : float :=
  (por_100g * (grams_q / 100))%float.

End Binary64.

(** ** The rest of the wizard (src/app_calorias.py, lines 167-178 and
    295-334) *)

Module Wizard.
Import PyNum Onboarding.

(** [_semanas_para_alvo] read in exact arithmetic: half a kilogram a week
    down, a quarter of a kilogram a week up, [math.ceil] of the quotient.
    This reading decides when the result is 0; the count itself is the
    one of [Wizard64._semanas_para_alvo] below, which rounds as the
    interpreter does. *)
Definition _semanas_para_alvo (peso_atual peso_meta : Q) (objetivo : string) : Z :=
  if decide (objetivo = "Emagrecer"%string) then
    let perda_por_sem := 0.5 in
    let delta := py_max (peso_atual - peso_meta) 0.0 in
    if Qle_bool delta 0 then 0%Z else Qceiling (delta / perda_por_sem)
  else if decide (objetivo = "Ganhar massa"%string) then
    let ganho_por_sem := 0.25 in
    let delta := py_max (peso_meta - peso_atual) 0.0 in
    if Qle_bool delta 0 then 0%Z else Qceiling (delta / ganho_por_sem)
  else 0%Z.

(** The buttons under the wizard (lines 295-334).  A button that is not
    drawn cannot be clicked: "Voltar" is drawn for [step > 1], "Próximo" for
    [step < 8] and "Concluir" otherwise; [Concluir true] is a click whose
    update of the profile succeeds, [Concluir false] one whose update
    raises. *)
Inductive clique : Type := Voltar | Proximo | Concluir (salvo : bool).

(** [st.session_state.ob_step] after a click. *)
Definition apos_clique (ob_step : Z) (c : clique) : Z :=
  match c with
  | Voltar => if (1 <? ob_step)%Z then (ob_step - 1)%Z else ob_step
  | Proximo => if (ob_step <? 8)%Z then (ob_step + 1)%Z else ob_step
  | Concluir salvo =>
      if (ob_step <? 8)%Z then ob_step else if salvo then 1%Z else ob_step
  end.

(** The wizard starts at step 1 ([if "ob_step" not in st.session_state]). *)
Definition ob_step_apos (cliques : list clique) : Z :=
  fold_left apos_clique cliques 1%Z.

End Wizard.

(** ** The weeks to the target and their chart, in binary64
    (src/app_calorias.py, lines 167-178 and 246-259) *)

Module Wizard64.
Import PyNum Float64.

(** [_semanas_para_alvo] as the interpreter computes it: the subtraction
    and the division are rounded before [math.ceil]. *)
Definition _semanas_para_alvo (peso_atual peso_meta : Q) (objetivo : string) : Z :=
  if decide (objetivo = "Emagrecer"%string) then
    let perda_por_sem := 0.5 in
    let delta := py_max (round64 (peso_atual - peso_meta)) 0.0 in
    if Qle_bool delta 0 then 0%Z else Qceiling (round64 (delta / perda_por_sem))
  else if decide (objetivo = "Ganhar massa"%string) then
    let ganho_por_sem := 0.25 in
    let delta := py_max (round64 (peso_meta - peso_atual)) 0.0 in
    if Qle_bool delta 0 then 0%Z else Qceiling (round64 (delta / ganho_por_sem))
  else 0%Z.

(** The series of the chart of step 4 (lines 246-257): [None] when
    [semanas > 0] fails and the page shows the "already at the target"
    note instead; [range(semanas+1)] is [seqZ 0 (semanas + 1)], and the
    [int]s [max(semanas,1)] and [i] are converted to [float] by the
    division and the product. *)
Definition serie_peso (weight_kg target_weight_kg : Q) (goal : string)
    : option (list Q) :=
  let semanas := _semanas_para_alvo weight_kg target_weight_kg goal in
  if (0 <? semanas)%Z then
    if decide (goal = "Emagrecer"%string) then
      let passo :=
        round64 (round64 (weight_kg - target_weight_kg) / of_int (Z.max semanas 1)) in
      Some ((fun i => round64 (weight_kg - round64 (of_int i * passo)))
              <$> seqZ 0 (semanas + 1))
    else if decide (goal = "Ganhar massa"%string) then
      let passo :=
        round64 (round64 (target_weight_kg - weight_kg) / of_int (Z.max semanas 1)) in
      Some ((fun i => round64 (weight_kg + round64 (of_int i * passo)))
              <$> seqZ 0 (semanas + 1))
    else
      Some (replicate (Z.to_nat (semanas + 1)) weight_kg)
  else None.

End Wizard64.

(** ** The plan status of the account page
    (src/pages/05_Perfil_Conta.py, lines 56-72, 99-109 and 137) *)

Module Perfil.
Import PyNum FoodAI.

(** [min(a, b)]: the first argument is kept unless the second is smaller. *)
Definition py_min (a b : Q) : Q := if Qlt_bool b a then b else a.

(** What the page shows of a subscription. *)
Record status_plano : Type := mk_status_plano {
  total : Z; passados : Z; restantes : Z; pct : Q; barra : Q
}.

(** Lines 100-109.  A [date] is its ordinal ([date.toordinal()]): the
    difference of two dates in [.days] is the difference of the ordinals
    and [min] / [max] follow their order.  [barra] is the argument of
    [st.progress]. *)
Definition status_do_plano (d_hoje d_inicio d_fim : Z) : status_plano :=
  let total := (d_fim - d_inicio)%Z in
  let passados := Z.max 0 (Z.min d_hoje d_fim - d_inicio) in
  let restantes := Z.max 0 (d_fim - Z.max d_hoje d_inicio) in
  let pct := if (0 <? total)%Z then inject_Z passados / inject_Z total else 0 in
  mk_status_plano total passados restantes pct (py_min 1.0 (py_max 0.0 pct)).

(** [x or None] on a number of the form. *)
Definition ou_none (x : Q) : option Q := if Qeq_bool x 0 then None else Some x.

(** The payload of [db_upsert_user_nutrition] (lines 59-63). *)
Definition payload_nutrition (user_id : string) (altura_cm peso_kg : option Q)
    : gmap string json :=
  let payload : gmap string json := {[ "user_id"%string := JStr user_id ]} in
  let payload :=
    match altura_cm with
    | Some a => <[ "height_cm"%string := JFloat (Fin a) ]> payload
    | None => payload
    end in
  match peso_kg with
  | Some w => <[ "weight_kg"%string := JFloat (Fin w) ]> payload
  | None => payload
  end.

(** The call of line 137:
    [db_upsert_user_nutrition(uid, altura_in or None, peso_in or None)]. *)
Definition payload_do_formulario (uid : string) (altura_in peso_in : Q)
    : gmap string json :=
  payload_nutrition uid (ou_none altura_in) (ou_none peso_in).

End Perfil.

(** ** The food diary (src/app_calorias.py, lines 882-926, 1176-1216 and
    1256-1277) *)

Module Diario.
Import PyNum Float64 FoodAI Perfil.

(** One entry of [_LOCAL_DB]: kcal (an [int]) and grams of protein,
    carbohydrate and fat per 100 g, the decimals as the source writes
    them. *)
Record por_100g : Type := mk_por_100g { d_kcal : Z; d_p : Q; d_c : Q; d_f : Q }.

Definition _LOCAL_DB : gmap string por_100g :=
  <[ "frango grelhado"%string := mk_por_100g 165 31.0 0.0 3.6 ]>
  (<[ "arroz branco"%string := mk_por_100g 130 2.7 28.0 0.3 ]>
  (<[ "arroz integral"%string := mk_por_100g 111 2.6 23.0 0.9 ]>
  (<[ "feijão cozido"%string := mk_por_100g 95 6.0 17.0 0.5 ]>
  (<[ "batata doce coz."%string := mk_por_100g 86 1.6 20.0 0.1 ]>
  (<[ "ovo cozido"%string := mk_por_100g 155 13.0 1.1 11.0 ]>
  (<[ "aveia (flocos)"%string := mk_por_100g 389 16.9 66.0 6.9 ]>
  (<[ "abacate"%string := mk_por_100g 160 2.0 9.0 15.0 ]>
  (<[ "banana prata"%string := mk_por_100g 89 1.1 23.0 0.3 ]>
  (<[ "pão francês"%string := mk_por_100g 270 9.0 57.0 3.0 ]> ∅))))))))).

(** The numbers of a row of [food_diary]. *)
Record linha : Type := mk_linha {
  l_meal_type : string; l_description : option string;
  l_qty_g : option Q; l_kcal : option Q;
  l_protein_g : option Q; l_carbs_g : option Q; l_fat_g : option Q
}.

(** "Adicionar alimento rápido" (lines 904-924), in binary64: [None] when
    [_LOCAL_DB.get(food_q)] is [None] and [info["kcal"]] raises.  A
    decimal of the table is the double nearest to it, the [int] [kcal] is
    converted by the product, and the division and the four products are
    rounded. *)
Definition alimento_rapido (food_q : string) (grams_q : Q) (meal_q : string)
    : option linha :=
  info ← _LOCAL_DB !! food_q;
  let factor := round64 (grams_q / 100.0) in
  let kcal_q := round64 (of_int (d_kcal info) * factor) in
  let p_q := round64 (round64 (d_p info) * factor) in
  let c_q := round64 (round64 (d_c info) * factor) in
  let f_q := round64 (round64 (d_f info) * factor) in
  Some (mk_linha meal_q (Some food_q) (Some grams_q) (Some kcal_q)
                 (Some p_q) (Some c_q) (Some f_q)).

(** [float(kcal) if kcal and kcal > 0 else (protein_g*4 + carbs_g*4 +
    fat_g*9)] (lines 1176-1180). *)
Definition kcal_val (kcal protein_g carbs_g fat_g : Q) : Q :=
  if negb (Qeq_bool kcal 0) && Qlt_bool 0 kcal then kcal
  else protein_g * 4 + carbs_g * 4 + fat_g * 9.

(** [description.strip() or None] *)
Definition texto_ou_none (s : string) : option string :=
  let t := strip s in if is_empty t then None else Some t.

(** The row of "Adicionar refeição" (lines 1202-1215): a number that is 0
    is stored as [None]. *)
Definition refeicao (meal_type description : string)
    (qty_g kcal protein_g carbs_g fat_g : Q) : linha :=
  mk_linha meal_type (texto_ou_none description)
           (ou_none qty_g) (ou_none (kcal_val kcal protein_g carbs_g fat_g))
           (ou_none protein_g) (ou_none carbs_g) (ou_none fat_g).


End Diario.

(** ** The recipes page (src/pages/06_Receitas.py, lines 42-44 and 70-86) *)

Module Receitas.
Import PyNum FoodAI.

(** A row of the table [recipes]: a dictionary decoded from JSON. *)
Abbreviation receita := (gmap string json).

(** [r.get(k)] *)
Definition campo (r : receita) (k : string) : json := default JNull (r !! k).

(** [x <= y] on floats; false when either side is [NaN]. *)
Definition fleb (x y : pyfloat) : bool :=
  match x, y with
  | NaN, _ | _, NaN => false
  | _, _ => negb (flt y x)
  end.

(** [(r.get("tempo_min") or 0) <= 15]: a number is compared, [True] counts
    as 1, and a string, a list or a dictionary raises [TypeError]. *)
Definition ate_15_min (r : receita) : option bool :=
  match py_or (campo r "tempo_min") (JInt 0) with
  | JInt z => Some (z <=? 15)%Z
  | JFloat x => Some (fleb x (Fin 15))
  | JBool b => Some true
  | JNull | JStr _ | JList _ | JDict _ => None
  end.

(** [[r for r in rows if (r.get("tempo_min") or 0) <= 15]] (line 72). *)
Fixpoint so_rapidas (rows : list receita) : option (list receita) :=
  match rows with
  | [] => Some []
  | r :: rest =>
      b ← ate_15_min r;
      kept ← so_rapidas rest;
      Some (if b : bool then r :: kept else kept)
  end.

(** The toggle "Até 15 min" (lines 71-72). *)
Definition filtro_tempo (only_quick : bool) (rows : list receita)
    : option (list receita) :=
  if only_quick then so_rapidas rows else Some rows.

(** Lines 42-44 and 81-86: the plan of the session (["DISCIPULO"] when the
    session has none) and the two lists of the page, the recipes shown
    open and the recipes shown locked. *)
Definition gating (plan_id : option string) (rows : list receita)
    : list receita * list receita :=
  let is_fiel := bool_decide (default "DISCIPULO"%string plan_id = "FIEL"%string) in
  if is_fiel then (rows, [])
  else (List.filter (fun r => truthy (campo r "degustacao_gratis")) rows,
        List.filter (fun r => negb (truthy (campo r "degustacao_gratis"))) rows).

End Receitas.

(** ** Image URLs from the storage (src/app_calorias.py, lines 549-613)

    The definitions of [storage_public_url] at lines 100 and 402 are
    rebound by the one at line 549 before any call; that one is embedded.
    The two requests to the storage SDK are inputs of the model. *)

Module Storage.
Import FoodAI.

(** What a call of the SDK does: it raises, or it returns an object (a
    [dict], a [str], or anything else). *)
Inductive sdk_result : Type :=
| SdkRaises
| SdkReturns (res : json).

(** [os.path.split] (posixpath): the path is cut after its last slash;
    trailing slashes are removed from the head unless it consists of
    slashes only. *)
Definition is_slash (c : ascii) : bool := Ascii.eqb c "/".

(** [(p[:i], p[i:])] for [i = p.rfind("/") + 1], when [p] has a slash. *)
Fixpoint cut_at_last_slash (p : string) : option (string * string) :=
  match p with
  | EmptyString => None
  | String c p' =>
      match cut_at_last_slash p' with
      | Some (head, tail) => Some (String c head, tail)
      | None => if is_slash c then Some (String c EmptyString, p') else None
      end
  end.

Fixpoint all_slashes (s : string) : bool :=
  match s with
  | EmptyString => true
  | String c s' => is_slash c && all_slashes s'
  end.

(** [head.rstrip("/")] *)
Fixpoint rstrip_slashes (s : string) : string :=
  match s with
  | EmptyString => EmptyString
  | String c s' =>
      let r := rstrip_slashes s' in
      if is_slash c && is_empty r then EmptyString else String c r
  end.

Definition posix_split (p : string) : string * string :=
  match cut_at_last_slash p with
  | None => (EmptyString, p)
  | Some (head, tail) =>
      (if all_slashes head then head else rstrip_slashes head, tail)
  end.

Section WithSdk.

(** [supabase.storage.from_(bucket).get_public_url(path)] *)
Variable get_public_url : string -> string -> sdk_result.
(** [supabase.storage.from_(bucket).list(folder)] *)
Variable list_folder : string -> string -> sdk_result.

(** [storage_public_url] (lines 549-563); the result [None] is [JNull]. *)
Definition storage_public_url (bucket : string) (path : option string) : json :=
  match path with
  | None | Some EmptyString => JNull
  | Some p =>
      match get_public_url bucket p with
      | SdkRaises => JNull
      | SdkReturns (JDict m) =>
          let data := py_or (default JNull (m !! "data"%string)) (JDict ∅) in
          default JNull
            (a ← dict_get data "publicUrl";
             b ← dict_get data "public_url";
             Some (py_or a b))
      | SdkReturns (JStr res) => JStr res
      | SdkReturns _ => JNull
      end
  end.

(** [storage_try_extensions] (lines 579-585). *)
Fixpoint storage_try_extensions (bucket basename : string) (exts : list string)
    : json :=
  match exts with
  | [] => JNull
  | ext :: rest =>
      let url := storage_public_url bucket (Some (basename +:+ ext)) in
      if truthy url then url else storage_try_extensions bucket basename rest
  end.

(** The elements of a set must be hashable: lists and dictionaries are not
    ([TypeError]). *)
Definition hashable (v : json) : bool :=
  match v with JList _ | JDict _ => false | _ => true end.

(** [{it.get("name") for it in items}], as the list of its elements. *)
Fixpoint names_of (items : list json) : option (list json) :=
  match items with
  | [] => Some []
  | it :: rest =>
      v ← dict_get it "name";
      if hashable v then (vs ← names_of rest; Some (v :: vs)) else None
  end.

(** [candidate in names]: a string is equal to no object but the same
    string. *)
Definition is_name (candidate : string) (v : json) : bool :=
  match v with JStr s => String.eqb s candidate | _ => false end.

(** The loop over the extensions of [storage_try_extensions_safe]. *)
Fixpoint first_listed (bucket folder name : string) (names : list json)
    (exts : list string) : json :=
  match exts with
  | [] => JNull
  | ext :: rest =>
      let candidate := name +:+ ext in
      if existsb (is_name candidate) names then
        let path := (if is_empty folder then EmptyString else folder +:+ "/")
                    +:+ candidate in
        storage_public_url bucket (Some path)
      else first_listed bucket folder name names rest
  end.

(** [storage_try_extensions_safe] (lines 599-613). *)
Definition storage_try_extensions_safe (bucket basename : string)
    (exts : list string) : json :=
  let '(folder, name) := posix_split basename in
  let name := if is_empty name then basename else name in
  match list_folder bucket folder with
  | SdkRaises => JNull
  | SdkReturns items =>
      match its ← py_iter (py_or items (JList [])); names_of its with
      | None => JNull
      | Some names => first_listed bucket folder name names exts
      end
  end.

End WithSdk.

End Storage.

(** ** An answer of the model, used to exercise the food detection *)

Module Exemplo.
Import FoodAI.

(** Three entries: a name to strip with grams below 0 and a confidence
    above 1, a blank name, and a confidence that is [NaN]. *)
Definition itens : list json :=
  [ JDict (<[ "food"%string := JStr " arroz " ]>
          (<[ "grams"%string := JInt (-3) ]>
          (<[ "confidence"%string := JFloat (Fin 1.7) ]> ∅)));
    JDict (<[ "food"%string := JStr "  " ]> ∅);
    JDict (<[ "food"%string := JStr "feijão" ]>
          (<[ "grams"%string := JFloat (Fin 120.5) ]>
          (<[ "confidence"%string := JFloat NaN ]> ∅))) ].

Definition objeto : gmap string json := <[ "items"%string := JList itens ]> ∅.

(** A [json.loads] that knows one text. *)
Definition loads (s : string) : option json :=
  if String.eqb s "{...}" then Some (JDict objeto) else None.

Definition conteudo : json := JStr "Segue: {...} fim".

Definition resposta : json :=
  JDict (<[ "choices"%string :=
    JList [ JDict (<[ "message"%string :=
      JDict (<[ "content"%string := conteudo ]> ∅) ]> ∅) ] ]> ∅).

End Exemplo.

(** * Properties *)

(** Linear arithmetic over [Q] after the divisions by the constants of the
    source are turned into products. *)
Ltac lra_div :=
  unfold Qdiv in *;
  change (/ 100) with (1 # 100) in *;
  change (/ 4) with (1 # 4) in *;
  change (/ 9) with (1 # 9) in *;
  lra.

(** ** Comparisons *)

Section PyNumFacts.
Import PyNum.

Lemma Qlt_bool_true (x y : Q) : Qlt_bool x y = true <-> x < y.
Proof.
  unfold Qlt_bool. rewrite negb_true_iff, <- not_true_iff_false, Qle_bool_iff.
  split; [apply Qnot_le_lt | apply Qlt_not_le].
Qed.

Lemma Qlt_bool_false (x y : Q) : Qlt_bool x y = false <-> y <= x.
Proof.
  unfold Qlt_bool. rewrite negb_false_iff. apply Qle_bool_iff.
Qed.

Lemma py_max_0_nonneg (x : Q) : 0 <= x -> py_max 0 x == x.
Proof.
  intros Hx. unfold py_max. destruct (Qlt_bool 0 x) eqn:E; [reflexivity|].
  apply Qlt_bool_false in E. lra.
Qed.

Lemma py_max_0_neg (x : Q) : x < 0 -> py_max 0 x = 0.
Proof.
  intros Hx. unfold py_max. destruct (Qlt_bool 0 x) eqn:E; [|reflexivity].
  apply Qlt_bool_true in E. lra.
Qed.

End PyNumFacts.

(** ** Rounding to binary64 *)

Section Float64Facts.
Import Float64.

Lemma pow2_pos e : 0 < pow2 e.
Proof. apply Qpower_0_lt. reflexivity. Qed.

Lemma pow2_add a b : pow2 (a + b) == pow2 a * pow2 b.
Proof. apply Qpower_plus. discriminate. Qed.

Lemma pow2_le a b : (a <= b)%Z -> pow2 a <= pow2 b.
Proof. intros H. apply Qpower_le_compat_l; [exact H|]. discriminate. Qed.

Lemma pow2_lt a b : (a < b)%Z -> pow2 a < pow2 b.
Proof. intros H. apply Qpower_lt_compat_l; [exact H|]. reflexivity. Qed.

Lemma pow2_lt_inv a b : pow2 a < pow2 b -> (a < b)%Z.
Proof. intros H. apply (Qpower_lt_compat_l_inv 2); [exact H|reflexivity]. Qed.

Lemma pow2_nonneg_Z n : (0 <= n)%Z -> pow2 n == inject_Z (2 ^ n).
Proof. intros H. unfold pow2. rewrite Zpower_Qpower by exact H. reflexivity. Qed.

Lemma pow2_succ a : pow2 (a + 1) == 2 * pow2 a.
Proof. rewrite pow2_add. change (pow2 1) with 2. ring. Qed.

Lemma div_mul_pow2 x e : x / pow2 e * pow2 e == x.
Proof. field. pose proof (pow2_pos e). lra. Qed.

(** *** Rounding to an integer *)

Lemma rne_compat x y : x == y -> rne x = rne y.
Proof.
  intros H. unfold rne. rewrite (Qfloor_comp _ _ H).
  assert (Qcompare (x - inject_Z (Qfloor y)) (1 # 2)
          = Qcompare (y - inject_Z (Qfloor y)) (1 # 2)) as ->.
  { apply Qcompare_comp; [rewrite H|]; reflexivity. }
  reflexivity.
Qed.

Lemma rne_cases q :
  let f := Qfloor q in
  (q - inject_Z f < 1 # 2 /\ rne q = f)
  \/ (1 # 2 < q - inject_Z f /\ rne q = (f + 1)%Z)
  \/ (q - inject_Z f == 1 # 2 /\ rne q = if Z.even f then f else (f + 1)%Z).
Proof.
  intros f. unfold rne. fold f.
  destruct (Qcompare (q - inject_Z f) (1 # 2)) eqn:E.
  - right. right. split; [apply Qeq_alt; exact E | reflexivity].
  - left. split; [apply Qlt_alt; exact E | reflexivity].
  - right. left. split; [apply Qgt_alt in E; exact E | reflexivity].
Qed.

Lemma floor_bounds q : inject_Z (Qfloor q) <= q /\ q < inject_Z (Qfloor q) + 1.
Proof.
  split; [apply Qfloor_le|].
  pose proof (Qlt_floor q) as H. rewrite inject_Z_plus in H. exact H.
Qed.

Lemma rne_bounds q : - (1 # 2) <= inject_Z (rne q) - q <= 1 # 2.
Proof.
  pose proof (floor_bounds q) as [H1 H2].
  destruct (rne_cases q) as [[H ->]|[[H ->]|[H ->]]].
  - lra.
  - rewrite inject_Z_plus. change (inject_Z 1) with 1. lra.
  - destruct (Z.even (Qfloor q)).
    + lra.
    + rewrite inject_Z_plus. change (inject_Z 1) with 1. lra.
Qed.

Lemma floor_inject z : Qfloor (inject_Z z) = z.
Proof. apply Qfloor_Z. Qed.

Lemma rne_Z z : rne (inject_Z z) = z.
Proof.
  destruct (rne_cases (inject_Z z)) as [[H ->]|[[H ->]|[H ->]]];
    rewrite floor_inject in *; try reflexivity; exfalso; lra.
Qed.

Lemma Zlt_Q a b : inject_Z a < inject_Z b -> (a < b)%Z.
Proof. intros H. rewrite Zlt_Qlt. exact H. Qed.

Lemma Zle_Q a b : inject_Z a <= inject_Z b -> (a <= b)%Z.
Proof. intros H. rewrite Zle_Qle. exact H. Qed.

Lemma rne_mono x y : x <= y -> (rne x <= rne y)%Z.
Proof.
  intros Hxy.
  pose proof (floor_bounds x) as [Hx1 Hx2].
  pose proof (floor_bounds y) as [Hy1 Hy2].
  assert (Qfloor x <= Qfloor y)%Z as Hf by (apply Qfloor_resp_le; exact Hxy).
  assert (Qfloor x < Qfloor y \/ Qfloor x = Qfloor y)%Z as [Hlt|Heq] by lia.
  - (* different floors *)
    assert (rne x <= Qfloor x + 1)%Z.
    { destruct (rne_cases x) as [[_ ->]|[[_ ->]|[_ ->]]]; try lia.
      destruct (Z.even (Qfloor x)); lia. }
    assert (Qfloor y <= rne y)%Z.
    { destruct (rne_cases y) as [[_ ->]|[[_ ->]|[_ ->]]]; try lia.
      destruct (Z.even (Qfloor y)); lia. }
    lia.
  - destruct (rne_cases x) as [[Hx ->]|[[Hx ->]|[Hx ->]]];
    destruct (rne_cases y) as [[Hy ->]|[[Hy ->]|[Hy ->]]];
      rewrite ?Heq in *; try lia; try (exfalso; lra);
      destruct (Z.even (Qfloor y)); try lia; exfalso; lra.
Qed.

Lemma rne_nonneg q : 0 <= q -> (0 <= rne q)%Z.
Proof. intros H. rewrite <- (rne_Z 0). apply rne_mono. exact H. Qed.

(** *** The binary logarithm *)

Lemma Q_as_div q : q == inject_Z (Qnum q) / inject_Z (Zpos (Qden q)).
Proof. destruct q as [n d]. cbn [Qnum Qden]. apply Qmake_Qdiv. Qed.

Lemma Qnum_pos q : 0 < q -> (0 < Qnum q)%Z.
Proof. destruct q as [n d]. unfold Qlt. cbn. lia. Qed.

Lemma ilog2_rough q :
  0 < q ->
  let k := (Z.log2 (Qnum q) - Z.log2 (Zpos (Qden q)))%Z in
  pow2 (k - 1) <= q /\ q < pow2 (k + 1).
Proof.
  intros Hq k.
  pose proof (Qnum_pos q Hq) as Hn.
  set (n := Qnum q) in *. set (d := Zpos (Qden q)) in *.
  assert (0 < d)%Z as Hd by (subst d; lia).
  pose proof (Z.log2_spec n Hn) as [Hn1 Hn2].
  pose proof (Z.log2_spec d Hd) as [Hd1 Hd2].
  pose proof (Z.log2_nonneg n) as Ha. pose proof (Z.log2_nonneg d) as Hb.
  set (a := Z.log2 n) in *. set (b := Z.log2 d) in *.
  assert (q == inject_Z n / inject_Z d) as Hqd by apply Q_as_div.
  assert (0 < inject_Z d) as Hd' by (change 0 with (inject_Z 0); rewrite <- Zlt_Qlt; exact Hd).
  assert (0 < 2 ^ a)%Z as Hpa by (apply Z.pow_pos_nonneg; lia).
  assert (0 < 2 ^ b)%Z as Hpb by (apply Z.pow_pos_nonneg; lia).
  rewrite Z.pow_succ_r in Hn2, Hd2 by lia.
  split.
  - rewrite Hqd. apply Qle_shift_div_l; [exact Hd'|].
    assert (k - 1 = a - (b + 1))%Z as -> by (subst k; lia).
    unfold pow2. rewrite Qpower_minus by discriminate.
    fold (pow2 a). fold (pow2 (b + 1)).
    rewrite (pow2_nonneg_Z a) by lia. rewrite (pow2_nonneg_Z (b + 1)) by lia.
    rewrite Z.pow_add_r by lia. change (2 ^ 1)%Z with 2%Z.
    assert (0 < inject_Z (2 ^ b * 2)) as Hp.
    { change 0 with (inject_Z 0). rewrite <- Zlt_Qlt. lia. }
    unfold Qdiv. rewrite <- Qmult_assoc, (Qmult_comm (/ _)), Qmult_assoc.
    apply Qle_shift_div_r; [exact Hp|].
    rewrite <- !inject_Z_mult. rewrite <- Zle_Qle. nia.
  - rewrite Hqd. apply Qlt_shift_div_r; [exact Hd'|].
    assert (k + 1 = (a + 1) - b)%Z as -> by (subst k; lia).
    unfold pow2. rewrite Qpower_minus by discriminate.
    fold (pow2 (a + 1)). fold (pow2 b).
    rewrite (pow2_nonneg_Z (a + 1)) by lia. rewrite (pow2_nonneg_Z b) by lia.
    rewrite Z.pow_add_r by lia. change (2 ^ 1)%Z with 2%Z.
    assert (0 < inject_Z (2 ^ b)) as Hp.
    { change 0 with (inject_Z 0). rewrite <- Zlt_Qlt. lia. }
    unfold Qdiv. rewrite <- Qmult_assoc, (Qmult_comm (/ _)), Qmult_assoc.
    apply Qlt_shift_div_l; [exact Hp|].
    rewrite <- !inject_Z_mult. rewrite <- Zlt_Qlt. nia.
Qed.

Lemma ilog2_spec q : 0 < q -> pow2 (ilog2 q) <= q /\ q < pow2 (ilog2 q + 1).
Proof.
  intros Hq. pose proof (ilog2_rough q Hq) as [H1 H2]. cbv zeta in H1, H2.
  unfold ilog2.
  set (k := (Z.log2 (Qnum q) - Z.log2 (Zpos (Qden q)))%Z) in *.
  destruct (Qle_bool (pow2 k) q) eqn:E.
  - apply Qle_bool_iff in E. split; assumption.
  - split; [exact H1|].
    assert (k - 1 + 1 = k)%Z as -> by lia.
    apply Qnot_le_lt. intros H. apply Qle_bool_iff in H. congruence.
Qed.

Lemma ilog2_unique q k : 0 < q -> pow2 k <= q -> q < pow2 (k + 1) -> ilog2 q = k.
Proof.
  intros Hq H1 H2. pose proof (ilog2_spec q Hq) as [H3 H4].
  assert (ilog2 q < k + 1)%Z.
  { apply pow2_lt_inv. eapply Qle_lt_trans; eassumption. }
  assert (k < ilog2 q + 1)%Z.
  { apply pow2_lt_inv. eapply Qle_lt_trans; eassumption. }
  lia.
Qed.

Lemma ilog2_compat x y : 0 < x -> x == y -> ilog2 x = ilog2 y.
Proof.
  intros Hx H. pose proof (ilog2_spec x Hx) as [H1 H2].
  symmetry. apply ilog2_unique; rewrite <- H; assumption.
Qed.

Lemma ilog2_mono x y : 0 < x -> x <= y -> (ilog2 x <= ilog2 y)%Z.
Proof.
  intros Hx Hxy.
  assert (0 < y) as Hy by lra.
  pose proof (ilog2_spec x Hx) as [H1 H2].
  pose proof (ilog2_spec y Hy) as [H3 H4].
  assert (ilog2 x < ilog2 y + 1)%Z; [|lia].
  apply pow2_lt_inv. lra.
Qed.

Lemma ilog2_lt x k : 0 < x -> x < pow2 k -> (ilog2 x < k)%Z.
Proof.
  intros Hx H. pose proof (ilog2_spec x Hx) as [H1 _].
  apply pow2_lt_inv. lra.
Qed.

Lemma ilog2_ge x k : pow2 k <= x -> (k <= ilog2 x)%Z.
Proof.
  intros H. pose proof (pow2_pos k).
  assert (0 < x) as Hx by lra.
  pose proof (ilog2_spec x Hx) as [_ H2].
  assert (k < ilog2 x + 1)%Z; [|lia]. apply pow2_lt_inv. lra.
Qed.

(** *** Rounding a positive number *)

Lemma expoente_ge q : (-1074 <= expoente q)%Z.
Proof. unfold expoente. lia. Qed.

Lemma expoente_mono x y : 0 < x -> x <= y -> (expoente x <= expoente y)%Z.
Proof.
  intros Hx Hxy. pose proof (ilog2_mono x y Hx Hxy). unfold expoente. lia.
Qed.

Lemma expoente_compat x y : 0 < x -> x == y -> expoente x = expoente y.
Proof. intros Hx H. unfold expoente. rewrite (ilog2_compat x y Hx H). reflexivity. Qed.

Lemma round_pos_eq x :
  round_pos x == inject_Z (rne (x / pow2 (expoente x))) * pow2 (expoente x).
Proof. unfold round_pos. apply Qred_correct. Qed.

Lemma round_pos_compat x y : 0 < x -> x == y -> round_pos x == round_pos y.
Proof.
  intros Hx H. rewrite !round_pos_eq. rewrite (expoente_compat x y Hx H).
  rewrite (rne_compat (x / pow2 (expoente y)) (y / pow2 (expoente y))).
  - reflexivity.
  - rewrite H. reflexivity.
Qed.

Lemma scaled_lt x : 0 < x -> x / pow2 (expoente x) < pow2 53.
Proof.
  intros Hx. pose proof (ilog2_spec x Hx) as [_ H2].
  pose proof (pow2_pos (expoente x)) as Hp.
  apply Qlt_shift_div_r; [exact Hp|].
  rewrite <- pow2_add.
  eapply Qlt_le_trans; [exact H2|]. apply pow2_le. unfold expoente. lia.
Qed.

Lemma scaled_ge x :
  0 < x -> (-1074 < expoente x)%Z -> pow2 52 <= x / pow2 (expoente x).
Proof.
  intros Hx He. pose proof (ilog2_spec x Hx) as [H1 _].
  pose proof (pow2_pos (expoente x)) as Hp.
  apply Qle_shift_div_l; [exact Hp|].
  rewrite <- pow2_add.
  eapply Qle_trans; [|exact H1]. apply pow2_le. unfold expoente in *. lia.
Qed.

Lemma pow2_53 : pow2 53 == inject_Z (2 ^ 53).
Proof. apply pow2_nonneg_Z. lia. Qed.

Lemma pow2_52 : pow2 52 == inject_Z (2 ^ 52).
Proof. apply pow2_nonneg_Z. lia. Qed.

Lemma mantissa_bounds x :
  0 < x -> (0 <= rne (x / pow2 (expoente x)) <= 2 ^ 53)%Z.
Proof.
  intros Hx. pose proof (pow2_pos (expoente x)) as Hp. split.
  - apply rne_nonneg. apply Qle_shift_div_l; [exact Hp|]. lra.
  - rewrite <- (rne_Z (2 ^ 53)). apply rne_mono.
    rewrite <- pow2_53. apply Qlt_le_weak. apply scaled_lt. exact Hx.
Qed.

Lemma mantissa_ge x :
  0 < x -> (-1074 < expoente x)%Z -> (2 ^ 52 <= rne (x / pow2 (expoente x)))%Z.
Proof.
  intros Hx He. rewrite <- (rne_Z (2 ^ 52)). apply rne_mono.
  rewrite <- pow2_52. apply scaled_ge; assumption.
Qed.

Lemma round_pos_nonneg x : 0 < x -> 0 <= round_pos x.
Proof.
  intros Hx. rewrite round_pos_eq. pose proof (mantissa_bounds x Hx) as [H _].
  pose proof (pow2_pos (expoente x)).
  apply Qmult_le_0_compat; [|lra].
  change 0 with (inject_Z 0). rewrite <- Zle_Qle. exact H.
Qed.

Lemma round_pos_mono x y : 0 < x -> x <= y -> round_pos x <= round_pos y.
Proof.
  intros Hx Hxy. assert (0 < y) as Hy by lra.
  pose proof (expoente_mono x y Hx Hxy) as He.
  assert (expoente x = expoente y \/ expoente x < expoente y)%Z as [Heq|Hlt] by lia.
  - rewrite !round_pos_eq. rewrite Heq.
    pose proof (pow2_pos (expoente y)) as Hp.
    apply Qmult_le_compat_r; [|lra].
    rewrite <- Zle_Qle. apply rne_mono.
    apply Qmult_le_compat_r; [exact Hxy|].
    apply Qlt_le_weak. apply Qinv_lt_0_compat. exact Hp.
  - pose proof (mantissa_bounds x Hx) as [_ Hm].
    pose proof (expoente_ge x) as Hgx.
    assert (-1074 < expoente y)%Z as Hgy by lia.
    pose proof (mantissa_ge y Hy Hgy) as Hm'.
    rewrite !round_pos_eq.
    pose proof (pow2_pos (expoente x)) as Hpx.
    pose proof (pow2_pos (expoente y)) as Hpy.
    apply Qle_trans with (inject_Z (2 ^ 53) * pow2 (expoente x)).
    { apply Qmult_le_compat_r; [|lra]. rewrite <- Zle_Qle. exact Hm. }
    apply Qle_trans with (inject_Z (2 ^ 52) * pow2 (expoente y)).
    { rewrite <- pow2_53, <- pow2_52, <- !pow2_add. apply pow2_le. lia. }
    apply Qmult_le_compat_r; [|lra]. rewrite <- Zle_Qle. exact Hm'.
Qed.

Lemma round_pos_err x :
  0 < x -> Qabs (round_pos x - x) <= pow2 (expoente x - 1).
Proof.
  intros Hx. rewrite round_pos_eq. set (e := expoente x).
  pose proof (pow2_pos e) as Hp.
  pose proof (rne_bounds (x / pow2 e)) as [H1 H2].
  assert (inject_Z (rne (x / pow2 e)) * pow2 e - x
          == (inject_Z (rne (x / pow2 e)) - x / pow2 e) * pow2 e) as ->.
  { field. lra. }
  rewrite Qabs_Qmult. rewrite (Qabs_pos (pow2 e)) by lra.
  assert (pow2 (e - 1) == (1 # 2) * pow2 e) as ->.
  { assert (e = (e - 1) + 1)%Z as Heq by lia. rewrite Heq at 2.
    rewrite pow2_succ. field. }
  apply Qmult_le_compat_r; [|lra].
  apply Qabs_Qle_condition. split; assumption.
Qed.

(** A number with at most 53 significant bits above the least exponent is
    its own rounding. *)
Lemma round_pos_fix m e :
  (0 < m < 2 ^ 53)%Z -> (-1074 <= e)%Z ->
  round_pos (inject_Z m * pow2 e) == inject_Z m * pow2 e.
Proof.
  intros Hm He. set (x := inject_Z m * pow2 e).
  pose proof (pow2_pos e) as Hp.
  assert (0 < inject_Z m) as Hm0.
  { change 0 with (inject_Z 0). rewrite <- Zlt_Qlt. lia. }
  assert (0 < x) as Hx by (unfold x; apply Qmult_lt_0_compat; assumption).
  assert (x < pow2 (53 + e)) as Hlt.
  { unfold x. rewrite pow2_add, pow2_53.
    apply Qmult_lt_compat_r; [exact Hp|]. rewrite <- Zlt_Qlt. lia. }
  pose proof (ilog2_lt x (53 + e) Hx Hlt) as Hl.
  set (E := expoente x).
  assert (E <= e)%Z as HE by (unfold E, expoente; lia).
  rewrite round_pos_eq. fold E.
  assert (x / pow2 E == inject_Z (m * 2 ^ (e - E))) as Hint.
  { unfold x. rewrite inject_Z_mult, <- pow2_nonneg_Z by lia.
    unfold pow2. rewrite Qpower_minus by discriminate. field.
    apply Qpower_not_0. discriminate. }
  rewrite (rne_compat _ _ Hint), rne_Z, <- Hint.
  apply div_mul_pow2.
Qed.

(** *** Rounding *)

Lemma round64_pos x : 0 < x -> round64 x = round_pos x.
Proof.
  intros H. unfold round64.
  assert (Qcompare x 0 = Gt) as -> by (apply Qgt_alt; exact H). reflexivity.
Qed.

Lemma round64_neg x : x < 0 -> round64 x = - round_pos (- x).
Proof.
  intros H. unfold round64.
  assert (Qcompare x 0 = Lt) as -> by (apply Qlt_alt; exact H). reflexivity.
Qed.

Lemma round64_zero x : x == 0 -> round64 x = 0.
Proof.
  intros H. unfold round64.
  assert (Qcompare x 0 = Eq) as -> by (apply Qeq_alt; exact H). reflexivity.
Qed.

Lemma Q_sign_cases x : x < 0 \/ x == 0 \/ 0 < x.
Proof.
  destruct (Q_dec x 0) as [[H|H]|H]; [left|right; right|right; left]; assumption.
Qed.

Lemma round64_compat x y : x == y -> round64 x == round64 y.
Proof.
  intros H. destruct (Q_sign_cases x) as [Hx|[Hx|Hx]].
  - rewrite (round64_neg x Hx), (round64_neg y) by lra.
    apply Qopp_comp. apply round_pos_compat; [lra|]. rewrite H. reflexivity.
  - rewrite (round64_zero x Hx), (round64_zero y) by lra. reflexivity.
  - rewrite (round64_pos x Hx), (round64_pos y) by lra.
    apply round_pos_compat; assumption.
Qed.

#[global] Instance round64_proper : Proper (Qeq ==> Qeq) round64.
Proof. intros x y H. apply round64_compat. exact H. Qed.

Lemma round64_opp x : round64 (- x) == - round64 x.
Proof.
  destruct (Q_sign_cases x) as [Hx|[Hx|Hx]].
  - rewrite (round64_neg x Hx), (round64_pos (- x)) by lra. ring.
  - rewrite (round64_zero x Hx), (round64_zero (- x)) by lra. reflexivity.
  - rewrite (round64_pos x Hx), (round64_neg (- x)) by lra.
    apply Qopp_comp. apply round_pos_compat; [lra|ring].
Qed.

Lemma round64_nonneg x : 0 <= x -> 0 <= round64 x.
Proof.
  intros H. destruct (Q_sign_cases x) as [Hx|[Hx|Hx]]; [lra| |].
  - rewrite (round64_zero x Hx). lra.
  - rewrite (round64_pos x Hx). apply round_pos_nonneg. exact Hx.
Qed.

Lemma round64_nonpos x : x <= 0 -> round64 x <= 0.
Proof.
  intros H. destruct (Q_sign_cases x) as [Hx|[Hx|Hx]]; [| |lra].
  - rewrite (round64_neg x Hx).
    assert (0 <= round_pos (- x)) by (apply round_pos_nonneg; lra). lra.
  - rewrite (round64_zero x Hx). lra.
Qed.

Lemma round64_mono x y : x <= y -> round64 x <= round64 y.
Proof.
  intros Hxy.
  destruct (Q_sign_cases x) as [Hx|[Hx|Hx]].
  - destruct (Q_sign_cases y) as [Hy|[Hy|Hy]].
    + rewrite (round64_neg x Hx), (round64_neg y Hy).
      assert (round_pos (- y) <= round_pos (- x)) by (apply round_pos_mono; lra).
      lra.
    + apply Qle_trans with 0; [apply round64_nonpos; lra|apply round64_nonneg; lra].
    + apply Qle_trans with 0; [apply round64_nonpos; lra|apply round64_nonneg; lra].
  - apply Qle_trans with 0; [apply round64_nonpos; lra|apply round64_nonneg; lra].
  - rewrite (round64_pos x Hx), (round64_pos y) by lra.
    apply round_pos_mono; assumption.
Qed.

(** The rounding error is at most half a unit in the last place. *)
Lemma round64_err x k :
  (-1021 <= k)%Z -> Qabs x < pow2 k -> Qabs (round64 x - x) <= pow2 (k - 54).
Proof.
  intros Hk Hx.
  assert (forall y, 0 < y -> y < pow2 k -> Qabs (round_pos y - y) <= pow2 (k - 54)) as Hpos.
  { intros y Hy Hlt. eapply Qle_trans; [apply round_pos_err; exact Hy|].
    apply pow2_le. pose proof (ilog2_lt y k Hy Hlt). unfold expoente. lia. }
  destruct (Q_sign_cases x) as [Hx0|[Hx0|Hx0]].
  - rewrite (round64_neg x Hx0).
    rewrite (Qabs_neg x) in Hx by lra.
    assert (- round_pos (- x) - x == - (round_pos (- x) - - x)) as -> by ring.
    rewrite Qabs_opp. apply Hpos; lra.
  - rewrite (round64_zero x Hx0).
    assert (0 - x == 0) as -> by lra. cbn [Qabs Z.abs Qnum Qden].
    apply Qlt_le_weak. apply pow2_pos.
  - rewrite (round64_pos x Hx0). rewrite (Qabs_pos x) in Hx by lra.
    apply Hpos; assumption.
Qed.

(** *** Representable numbers *)

Lemma representavel_compat x y : x == y -> representavel x -> representavel y.
Proof. unfold representavel. intros H Hx. rewrite <- H. exact Hx. Qed.

Lemma representavel_0 : representavel 0.
Proof. reflexivity. Qed.

Lemma representavel_opp x : representavel x -> representavel (- x).
Proof. unfold representavel. intros H. rewrite round64_opp, H. reflexivity. Qed.

Lemma representavel_scaled m e :
  (Z.abs m <= 2 ^ 53)%Z -> (-1074 <= e)%Z -> representavel (inject_Z m * pow2 e).
Proof.
  assert (forall m e, (0 < m <= 2 ^ 53)%Z -> (-1074 <= e)%Z ->
                      representavel (inject_Z m * pow2 e)) as Hpos.
  { clear. intros m e Hm He. unfold representavel.
    pose proof (pow2_pos e) as Hp.
    assert (0 < inject_Z m) as Hm0.
    { change 0 with (inject_Z 0). rewrite <- Zlt_Qlt. lia. }
    assert (0 < inject_Z m * pow2 e) as Hx by (apply Qmult_lt_0_compat; assumption).
    rewrite (round64_pos _ Hx).
    assert (m < 2 ^ 53 \/ m = 2 ^ 53)%Z as [Hlt| ->] by lia.
    - apply round_pos_fix; lia.
    - assert (inject_Z (2 ^ 53) * pow2 e == inject_Z (2 ^ 52) * pow2 (e + 1)) as Heq.
      { rewrite pow2_succ. change (2 ^ 53)%Z with (2 ^ 52 * 2)%Z.
        rewrite inject_Z_mult. change (inject_Z 2) with 2. ring. }
      rewrite (round_pos_compat _ _ Hx Heq), Heq.
      apply round_pos_fix; lia. }
  intros Hm He.
  assert (m < 0 \/ m = 0 \/ 0 < m)%Z as [Hn|[->|Hp]] by lia.
  - apply representavel_compat with (- (inject_Z (- m) * pow2 e)).
    { rewrite inject_Z_opp. ring. }
    apply representavel_opp. apply Hpos; lia.
  - apply representavel_compat with 0; [ring|apply representavel_0].
  - apply Hpos; lia.
Qed.

Lemma representavel_Z z : (Z.abs z <= 2 ^ 53)%Z -> representavel (inject_Z z).
Proof.
  intros H. apply representavel_compat with (inject_Z z * pow2 0).
  - change (pow2 0) with 1. ring.
  - apply representavel_scaled; lia.
Qed.

(** Every rounding is a multiple of a power of two with an integer of at
    most 53 bits. *)
Lemma round64_decomp x :
  exists m e, round64 x == inject_Z m * pow2 e
              /\ (Z.abs m <= 2 ^ 53)%Z /\ (-1074 <= e)%Z.
Proof.
  destruct (Q_sign_cases x) as [Hx|[Hx|Hx]].
  - assert (0 < - x) as Hx' by lra.
    exists (- rne (- x / pow2 (expoente (- x))))%Z, (expoente (- x)).
    pose proof (mantissa_bounds (- x) Hx'). pose proof (expoente_ge (- x)).
    split; [|split; [lia|assumption]].
    rewrite (round64_neg x Hx), round_pos_eq. rewrite inject_Z_opp. ring.
  - exists 0%Z, 0%Z. rewrite (round64_zero x Hx).
    split; [ring|]. split; lia.
  - exists (rne (x / pow2 (expoente x))), (expoente x).
    pose proof (mantissa_bounds x Hx). pose proof (expoente_ge x).
    split; [|split; [lia|assumption]].
    rewrite (round64_pos x Hx). apply round_pos_eq.
Qed.

Lemma representavel_round x : representavel (round64 x).
Proof.
  destruct (round64_decomp x) as (m & e & H & Hm & He).
  apply representavel_compat with (inject_Z m * pow2 e); [symmetry; exact H|].
  apply representavel_scaled; assumption.
Qed.

Lemma representavel_decomp x :
  representavel x ->
  exists m e, x == inject_Z m * pow2 e /\ (Z.abs m <= 2 ^ 53)%Z /\ (-1074 <= e)%Z.
Proof.
  intros Hx. destruct (round64_decomp x) as (m & e & H & Hm & He).
  exists m, e. split; [|split; assumption].
  rewrite <- H. symmetry. exact Hx.
Qed.

(** Doubling (no overflow in this model) keeps a number representable. *)
Lemma representavel_pow2_mult x k :
  (0 <= k)%Z -> representavel x -> representavel (x * pow2 k).
Proof.
  intros Hk Hx. destruct (representavel_decomp x Hx) as (m & e & H & Hm & He).
  apply representavel_compat with (inject_Z m * pow2 (e + k)).
  - rewrite H, pow2_add. ring.
  - apply representavel_scaled; lia.
Qed.

(** Representable numbers lie on the grid of the least subnormal. *)
Lemma representavel_grid x :
  representavel x -> exists k, x == inject_Z k * pow2 (-1074).
Proof.
  intros Hx. destruct (representavel_decomp x Hx) as (m & e & H & Hm & He).
  exists (m * 2 ^ (e + 1074))%Z.
  rewrite H, inject_Z_mult, <- pow2_nonneg_Z by lia.
  rewrite <- Qmult_assoc, <- pow2_add.
  assert (e + 1074 + -1074 = e)%Z as -> by lia. reflexivity.
Qed.

Lemma representavel_gap a b :
  representavel a -> representavel b -> b < a -> pow2 (-1074) <= a - b.
Proof.
  intros Ha Hb Hlt.
  destruct (representavel_grid a Ha) as [ka Hka].
  destruct (representavel_grid b Hb) as [kb Hkb].
  pose proof (pow2_pos (-1074)) as Hp.
  assert (a - b == inject_Z (ka - kb) * pow2 (-1074)) as Hd.
  { rewrite Hka, Hkb. unfold Zminus. rewrite inject_Z_plus, inject_Z_opp. ring. }
  assert (0 < inject_Z (ka - kb)) as Hk.
  { assert (0 < inject_Z (ka - kb) * pow2 (-1074)) as H0 by (rewrite <- Hd; lra).
    destruct (Qlt_le_dec 0 (inject_Z (ka - kb))) as [H|H]; [exact H|].
    exfalso.
    assert (inject_Z (ka - kb) * pow2 (-1074) <= 0 * pow2 (-1074)) as H1.
    { apply Qmult_le_compat_r; [exact H|lra]. }
    lra. }
  assert (1 <= ka - kb)%Z as Hk1.
  { change 0 with (inject_Z 0) in Hk. rewrite <- Zlt_Qlt in Hk. lia. }
  rewrite Hd.
  assert (pow2 (-1074) == 1 * pow2 (-1074)) as Hone by ring.
  rewrite Hone at 1.
  apply Qmult_le_compat_r; [|lra].
  change 1 with (inject_Z 1). rewrite <- Zle_Qle. exact Hk1.
Qed.

Lemma round64_sub_pos a b :
  representavel a -> representavel b -> b < a -> 0 < round64 (a - b).
Proof.
  intros Ha Hb Hlt. pose proof (representavel_gap a b Ha Hb Hlt) as Hg.
  pose proof (pow2_pos (-1074)) as Hp.
  apply Qlt_le_trans with (pow2 (-1074)); [exact Hp|].
  assert (representavel (pow2 (-1074))) as Hr.
  { apply representavel_compat with (inject_Z 1 * pow2 (-1074)); [ring|].
    apply representavel_scaled; lia. }
  unfold representavel in Hr.
  apply Qle_trans with (round64 (pow2 (-1074))); [rewrite Hr; apply Qle_refl|].
  apply round64_mono. exact Hg.
Qed.

End Float64Facts.

(** ** BMR, TDEE, target calories and age *)

Section OnboardingFacts.
Import Onboarding.

Lemma inject_Z_5_mult (anos : Z) : inject_Z (5 * anos) == 5 * inject_Z anos.
Proof. rewrite inject_Z_mult. reflexivity. Qed.

(** C1. For every weight, height, age and sex, [_bmr_mifflin] returns
    [10*kg + 6.25*cm - 5*anos + s], where the offset [s] is [+5] when the
    sex is ["Masculino"] and [-161] for every other string. *)
Theorem bmr_mifflin_closed_form (kg cm : Q) (anos : Z) (sex : string) :
  (sex = "Masculino"%string
     /\ _bmr_mifflin kg cm anos sex == 10 * kg + 6.25 * cm - 5 * inject_Z anos + 5)
  \/ (sex <> "Masculino"%string
     /\ _bmr_mifflin kg cm anos sex == 10 * kg + 6.25 * cm - 5 * inject_Z anos - 161).
Proof.
  unfold _bmr_mifflin.
  destruct (decide (sex = "Masculino"%string)) as [Hm|Hf]; [left|right];
    (split; [assumption|]); rewrite inject_Z_5_mult; unfold inject_Z; lra.
Qed.

(** The formula is linear in weight and in height. *)
Lemma bmr_mifflin_linear (kg cm dkg dcm : Q) (anos : Z) (sex : string) :
  _bmr_mifflin (kg + dkg) (cm + dcm) anos sex
  == _bmr_mifflin kg cm anos sex + 10 * dkg + 6.25 * dcm.
Proof. unfold _bmr_mifflin. lra. Qed.

(** Every value is the BMR of some body: the weight can be solved for. *)
Lemma bmr_mifflin_onto (bmr : Q) :
  _bmr_mifflin ((bmr - 5) / 10) 0 0 "Masculino" == bmr.
Proof.
  unfold _bmr_mifflin.
  destruct (decide ("Masculino"%string = "Masculino"%string)); [|congruence].
  change (inject_Z (5 * 0)) with 0. change (inject_Z 5) with 5. field.
Qed.

Lemma fator_atividade_default (txt : string) :
  txt ∉ niveis -> _fator_atividade txt = 1.2.
Proof.
  intros Hn. unfold _fator_atividade, fatores.
  rewrite !lookup_insert_ne, lookup_empty; [reflexivity|..];
    intros <-; apply Hn; unfold niveis; set_solver.
Qed.

(** C2. [_tdee] is the BMR times the multiplier of the activity level;
    the five levels have the multipliers 1.2, 1.375, 1.55, 1.725 and 1.9,
    and every string that is not one of the five keys gets 1.2.  Every
    value is a BMR, so this holds for every BMR. *)
Theorem tdee_fixed_multipliers :
  (forall kg cm anos sex txt,
      _tdee kg cm anos sex txt
      == _bmr_mifflin kg cm anos sex * _fator_atividade txt)
  /\ (forall bmr txt, exists kg cm anos sex,
        _bmr_mifflin kg cm anos sex == bmr
        /\ _tdee kg cm anos sex txt == bmr * _fator_atividade txt)
  /\ _fator_atividade "Sedentário (pouco ou nenhum exercício)" = 1.2
  /\ _fator_atividade "Leve (1–3x/semana)" = 1.375
  /\ _fator_atividade "Moderado (3–5x/semana)" = 1.55
  /\ _fator_atividade "Alto (6–7x/semana)" = 1.725
  /\ _fator_atividade "Atleta/Extremo (2x/dia)" = 1.9
  /\ (forall txt, txt ∉ niveis -> _fator_atividade txt = 1.2).
Proof.
  split; [intros; reflexivity|].
  split.
  { intros bmr txt. exists ((bmr - 5) / 10), 0, 0%Z, "Masculino"%string.
    pose proof (bmr_mifflin_onto bmr) as Hb. split; [exact Hb|].
    unfold _tdee. rewrite Hb. reflexivity. }
  repeat (split; [vm_compute; reflexivity|]).
  exact fator_atividade_default.
Qed.

Lemma kcal_alvo_increasing (tdee_val : Q) (a b : Z) :
  0 < tdee_val -> (a < b)%Z -> kcal_alvo tdee_val a < kcal_alvo tdee_val b.
Proof.
  intros Ht Hab. unfold kcal_alvo.
  assert (inject_Z a < inject_Z b) as Hq by (rewrite <- Zlt_Qlt; exact Hab).
  apply Qmult_lt_l; [exact Ht|]. lra_div.
Qed.

(** C3. The target is [tdee * (1 + adjustment/100)] for every integer
    adjustment, inside or outside [-40, 40]: nothing is clamped, the
    target grows strictly with the adjustment (-100 gives 0 and +60 gives
    3200 for 2000 kcal), and the two worked values are 1600 and 2300. *)
Theorem kcal_alvo_unclamped :
  (forall tdee_val ajuste,
      kcal_alvo tdee_val ajuste == tdee_val * (1 + inject_Z ajuste / 100))
  /\ (forall tdee_val a b,
        0 < tdee_val -> (a < b)%Z -> kcal_alvo tdee_val a < kcal_alvo tdee_val b)
  /\ kcal_alvo 2000 (-20) == 1600
  /\ kcal_alvo 2000 15 == 2300
  /\ kcal_alvo 2000 (-100) == 0
  /\ kcal_alvo 2000 60 == 3200.
Proof.
  split; [intros; reflexivity|].
  split; [exact kcal_alvo_increasing|].
  repeat split; vm_compute; reflexivity.
Qed.

(** The two worked values are also what binary64 gives. *)
Lemma kcal_alvo_binary64 :
  Binary64.kcal_alvo 2000 (-20) = 1600%float
  /\ Binary64.kcal_alvo 2000 15 = 2300%float.
Proof. split; vm_compute; reflexivity. Qed.

(** The wizard's step 4 uses the same expression with its default
    adjustment. *)
Lemma step4_kcal_alvo today dob w h sex atividade goal e :
  step4 today dob w h sex atividade goal = Some e ->
  exists ajuste, ajustes !! goal = Some ajuste
    /\ est_kcal_alvo e = kcal_alvo (est_tdee e) ajuste.
Proof.
  unfold step4. intros H.
  destruct (ajustes !! goal) as [ajuste|]; [|discriminate].
  exists ajuste. split; [reflexivity|].
  cbn in H. injection H as <-. reflexivity.
Qed.

(** C8 (as the code computes it). For 75 kg, 175 cm, 30 years and
    ["Masculino"] the formula gives 750 + 1093.75 - 150 + 5 = 1698.75
    kcal/day, in exact arithmetic and in binary64 alike. *)
Theorem bmr_worked_example :
  _bmr_mifflin 75 175 30 "Masculino" == 1698.75
  /\ Binary64._bmr_mifflin 75 175 30 "Masculino" = 1698.75%float.
Proof. split; vm_compute; reflexivity. Qed.

(** The value 1674.75 is not what the formula gives on that input. *)
Lemma bmr_worked_example_not_1674_75 :
  ~ _bmr_mifflin 75 175 30 "Masculino" == 1674.75.
Proof. intros H. vm_compute in H. discriminate H. Qed.

Lemma tuple_lt_precedes (a b : Z * Z) : tuple_lt a b = true <-> precedes a b.
Proof.
  unfold tuple_lt, precedes. destruct a as [m1 d1], b as [m2 d2]. cbn [fst snd].
  rewrite orb_true_iff, andb_true_iff, !Z.ltb_lt, Z.eqb_eq. reflexivity.
Qed.

Lemma idade_from_dob_cases (today d : date) :
  (precedes (month today, day today) (month d, day d)
     /\ _idade_from_dob today (Some d) = (year today - year d - 1)%Z)
  \/ (~ precedes (month today, day today) (month d, day d)
     /\ _idade_from_dob today (Some d) = (year today - year d)%Z).
Proof.
  unfold _idade_from_dob.
  destruct (tuple_lt (month today, day today) (month d, day d)) eqn:E.
  - left. split; [apply tuple_lt_precedes, E | reflexivity].
  - right. split.
    + rewrite <- tuple_lt_precedes, E. discriminate.
    + cbn [int_of_bool]. lia.
Qed.

(** The age is the number of anniversaries that have come: the [n]-th
    anniversary is not after [today] exactly for the [n] up to the age. *)
Lemma idade_from_dob_anniversaries (today d : date) (n : Z) :
  (n <= _idade_from_dob today (Some d))%Z <-> date_le (anniversary d n) today.
Proof.
  destruct (idade_from_dob_cases today d) as [[Hp ->]|[Hp ->]];
    revert Hp; unfold precedes, date_le, anniversary; cbn [fst snd year month day];
    lia.
Qed.

(** C10. [_idade_from_dob] returns 30 when the date of birth is missing;
    for a date of birth it returns [today.year - dob.year], minus 1 exactly
    when [(today.month, today.day)] precedes [(dob.month, dob.day)], which
    is the number of completed years: the anniversaries up to that number,
    and no later one, have come by [today]. *)
Theorem idade_from_dob_completed_years :
  (forall today, _idade_from_dob today None = 30%Z)
  /\ (forall today d,
        (precedes (month today, day today) (month d, day d)
           /\ _idade_from_dob today (Some d) = (year today - year d - 1)%Z)
        \/ (~ precedes (month today, day today) (month d, day d)
           /\ _idade_from_dob today (Some d) = (year today - year d)%Z))
  /\ (forall today d n,
        (n <= _idade_from_dob today (Some d))%Z
        <-> date_le (anniversary d n) today).
Proof.
  split; [reflexivity|].
  split; [exact idade_from_dob_cases | exact idade_from_dob_anniversaries].
Qed.

(** Step 4 of the wizard replaces a missing date of birth by 1 January 1995
    before the call, so the default age is not what it shows. *)
Lemma step4_idade today w h sex atividade goal e :
  step4 today None w h sex atividade goal = Some e ->
  est_idade e = _idade_from_dob today (Some (mk_date 1995 1 1)).
Proof.
  unfold step4. destruct (ajustes !! goal); [|discriminate].
  cbn. intros H. injection H as <-. reflexivity.
Qed.

End OnboardingFacts.

(** ** Macros by percentage and by g/kg *)

Section PlanTabFacts.
Import PyNum PlanTab.

Lemma normalized_pcts_far (p c f : Q) :
  0.01 < Qabs (p + c + f - 100) ->
  normalized_pcts p c f
  = (p / (p + c + f) * 100, c / (p + c + f) * 100, f / (p + c + f) * 100).
Proof.
  intros H. unfold normalized_pcts. apply Qlt_bool_true in H. rewrite H. reflexivity.
Qed.

Lemma normalized_pcts_near (p c f : Q) :
  Qabs (p + c + f - 100) <= 0.01 -> normalized_pcts p c f = (p, c, f).
Proof.
  intros H. unfold normalized_pcts. apply Qlt_bool_false in H. rewrite H. reflexivity.
Qed.

Lemma kcal_to_macros_grams_defined (kcal p c f : Q) :
  ~ p + c + f == 0 ->
  exists pN cN fN,
    normalized_pcts p c f = (pN, cN, fN)
    /\ kcal_to_macros_grams kcal p c f
       = inr ((kcal * pN / 100) / 4, (kcal * cN / 100) / 4,
              (kcal * fN / 100) / 9, (pN, cN, fN)).
Proof.
  intros Hs. unfold kcal_to_macros_grams.
  destruct (Qeq_bool (p + c + f) 0) eqn:E.
  - apply Qeq_bool_eq in E. contradiction.
  - destruct (normalized_pcts p c f) as [[pN cN] fN].
    exists pN, cN, fN. split; reflexivity.
Qed.


(** C4. With a positive sum, [kcal_to_macros_grams] normalises each
    percentage (divided by the sum, times 100) when the sum is further than
    0.01 from 100 and keeps it otherwise, returns
    [(target_kcal * pct/100) / 4] grams of protein and carbohydrate and
    [(target_kcal * pct/100) / 9] grams of fat for those percentages, and
    returns the percentages too.  For [(2000, 30, 40, 30)] this is 150 g,
    200 g and 200/3 g (66.7 to one decimal), and the tab shows no
    normalisation notice. *)
Theorem macros_from_percentages :
  (forall kcal p c f, 0 < p + c + f ->
     exists pN cN fN,
       kcal_to_macros_grams kcal p c f
       = inr ((kcal * pN / 100) / 4, (kcal * cN / 100) / 4,
              (kcal * fN / 100) / 9, (pN, cN, fN))
       /\ (0.01 < Qabs (p + c + f - 100) ->
             pN = p / (p + c + f) * 100
             /\ cN = c / (p + c + f) * 100
             /\ fN = f / (p + c + f) * 100)
       /\ (Qabs (p + c + f - 100) <= 0.01 -> pN = p /\ cN = c /\ fN = f))
  /\ (exists g_p g_c g_f r,
        kcal_to_macros_grams 2000 30 40 30 = inr (g_p, g_c, g_f, (30, 40, 30))
        /\ g_p == 150 /\ g_c == 200 /\ g_f == 200 / 3
        /\ 66.65 <= g_f < 66.75
        /\ macros_do_plano 2000 (PorPct 30 40 30) = inr r
        /\ prot_g r = g_p /\ carb_g r = g_c /\ gord_g r = g_f
        /\ info_normalizacao r = None).
Proof.
  split.
  - intros kcal p c f Hs.
    destruct (kcal_to_macros_grams_defined kcal p c f) as (pN & cN & fN & Hn & Hg);
      [lra|].
    exists pN, cN, fN. split; [exact Hg|]. split; intros Ht.
    + rewrite (normalized_pcts_far _ _ _ Ht) in Hn. injection Hn as <- <- <-. tauto.
    + rewrite (normalized_pcts_near _ _ _ Ht) in Hn. injection Hn as <- <- <-. tauto.
  - eexists _, _, _, _. split; [vm_compute; reflexivity|].
    repeat split; vm_compute; try reflexivity; discriminate.
Qed.

(** The other worked example: a sum of 90 is normalised to three thirds of
    100 and the tab shows the notice. *)
Lemma macros_from_percentages_90 :
  exists g r pN,
    kcal_to_macros_grams 2000 30 30 30 = inr (g, (pN, pN, pN))
    /\ pN == 100 / 3
    /\ macros_do_plano 2000 (PorPct 30 30 30) = inr r
    /\ info_normalizacao r = Some (90, (pN, pN, pN)).
Proof.
  eexists _, _, _. split; [vm_compute; reflexivity|].
  repeat split; vm_compute; reflexivity.
Qed.

(** C5. When the three percentages add up to zero, [kcal_to_macros_grams]
    fails with [InvalidInput] whatever the target, and no grams are
    produced; the tab does not catch the failure. *)
Theorem zero_sum_is_invalid_input (kcal p c f : Q) :
  p + c + f == 0 ->
  kcal_to_macros_grams kcal p c f = inl InvalidInput
  /\ macros_do_plano kcal (PorPct p c f) = inl InvalidInput.
Proof.
  intros Hs.
  assert (kcal_to_macros_grams kcal p c f = inl InvalidInput) as H.
  { unfold kcal_to_macros_grams. rewrite (Qeq_eq_bool _ _ Hs). reflexivity. }
  split; [exact H|]. unfold macros_do_plano. rewrite H. reflexivity.
Qed.

Lemma zero_sum_is_invalid_input_2000 :
  0 + 0 + 0 == 0
  /\ kcal_to_macros_grams 2000 0 0 0 = inl InvalidInput
  /\ macros_do_plano 2000 (PorPct 0 0 0) = inl InvalidInput.
Proof.
  split; [reflexivity|]. apply (zero_sum_is_invalid_input 2000 0 0 0). reflexivity.
Defined.

Lemma py_max_0_is_Qmax (x : Q) : py_max 0 x == Qmax 0 x.
Proof.
  destruct (Qlt_le_dec x 0) as [Hx|Hx].
  - rewrite (py_max_0_neg x Hx). symmetry. apply Q.max_l. lra.
  - rewrite (py_max_0_nonneg x Hx). symmetry. apply Q.max_r. exact Hx.
Qed.

Lemma macros_do_plano_gkg (kcal peso p_gkg f_gkg : Q) :
  let kcal_rest := kcal - (peso * p_gkg * 4 + peso * f_gkg * 9) in
  exists r,
    macros_do_plano kcal (PorGkg peso p_gkg f_gkg) = inr r
    /\ prot_g r = peso * p_gkg
    /\ carb_g r = py_max 0 (kcal_rest / 4)
    /\ gord_g r = peso * f_gkg
    /\ avisos r = (if Qlt_bool kcal_rest 0 then [aviso_carbo_zerado] else []).
Proof.
  intros kcal_rest. unfold macros_do_plano, grams_from_gkg.
  eexists. split; [reflexivity|]. cbn. tauto.
Qed.

(** C6. [grams_from_gkg] returns protein [weight * g/kg], fat
    [weight * g/kg], carbohydrate [max(0, remaining_kcal / 4)] and the
    signed [remaining_kcal = target - (protein*4 + fat*9)].  When the
    remainder is negative the carbohydrate is 0, the fourth component is
    negative (which no call within budget returns) and the tab reports it:
    its warning list holds the insufficient-calories warning, the
    [BudgetExceeded] condition; otherwise the list is empty.  For
    [(75, 2.5, 1.0, 1400)]: 187.5 g, 75 g, 0 g and the warning. *)
Theorem macros_from_ratios :
  (forall weight_kg p_gkg f_gkg target_kcal,
     let remaining_kcal :=
       target_kcal - (weight_kg * p_gkg * 4 + weight_kg * f_gkg * 9) in
     exists carb r,
       grams_from_gkg weight_kg p_gkg f_gkg target_kcal
       = (weight_kg * p_gkg, carb, weight_kg * f_gkg, remaining_kcal)
       /\ carb == Qmax 0 (remaining_kcal / 4)
       /\ macros_do_plano target_kcal (PorGkg weight_kg p_gkg f_gkg) = inr r
       /\ carb_g r = carb
       /\ (remaining_kcal < 0 ->
             carb = 0 /\ avisos r = [aviso_carbo_zerado]
             /\ condicoes r = [BudgetExceeded])
       /\ (0 <= remaining_kcal ->
             carb == remaining_kcal / 4 /\ avisos r = [] /\ condicoes r = []))
  /\ (exists r,
        grams_from_gkg 75 2.5 1.0 1400 = (187.5, 0, 75.0, -25.00)
        /\ macros_do_plano 1400 (PorGkg 75 2.5 1.0) = inr r
        /\ prot_g r == 187.5 /\ gord_g r == 75 /\ carb_g r == 0
        /\ kcal_p r == 750 /\ kcal_f r == 675
        /\ condicoes r = [BudgetExceeded]).
Proof.
  split.
  - intros w pg fg kcal rem.
    destruct (macros_do_plano_gkg kcal w pg fg) as (r & Hr & _ & Hc & _ & Ha).
    fold rem in Hc, Ha.
    exists (py_max 0 (rem / 4)), r.
    split; [reflexivity|]. split; [apply py_max_0_is_Qmax|].
    split; [exact Hr|]. split; [exact Hc|]. split; intros Hrem.
    + assert (Qlt_bool rem 0 = true) as Hb by (apply Qlt_bool_true; exact Hrem).
      rewrite Hb in Ha. unfold condicoes. rewrite Ha.
      split; [apply py_max_0_neg; lra_div|]. split; [reflexivity|].
      destruct (decide (aviso_carbo_zerado ∈ [aviso_carbo_zerado])) as [_|Hn];
        [reflexivity | exfalso; apply Hn; set_solver].
    + assert (Qlt_bool rem 0 = false) as Hb by (apply Qlt_bool_false; exact Hrem).
      rewrite Hb in Ha. unfold condicoes. rewrite Ha.
      split; [apply py_max_0_nonneg; lra_div|]. split; [reflexivity|].
      destruct (decide (aviso_carbo_zerado ∈ [])) as [Hin|_];
        [exfalso; set_solver | reflexivity].
  - eexists. split; [vm_compute; reflexivity|].
    split; [vm_compute; reflexivity|].
    repeat split; vm_compute; reflexivity.
Qed.

(** The calorie equivalents of a percentage plan add up to the target
    scaled by the sum of the percentages the grams were computed from. *)
Lemma macros_do_plano_pct (kcal p c f : Q) :
  ~ p + c + f == 0 ->
  exists r pN cN fN,
    macros_do_plano kcal (PorPct p c f) = inr r
    /\ normalized_pcts p c f = (pN, cN, fN)
    /\ kcal_p r + kcal_c r + kcal_f r == kcal * (pN + cN + fN) / 100.
Proof.
  intros Hs.
  destruct (kcal_to_macros_grams_defined kcal p c f Hs) as (pN & cN & fN & Hn & Hg).
  unfold macros_do_plano. rewrite Hg.
  eexists _, pN, cN, fN. split; [reflexivity|]. split; [exact Hn|].
  cbn [kcal_p kcal_c kcal_f]. field.
Qed.


(** A sum within the tolerance is used as it is. *)
Lemma percentage_sum_within_tolerance (kcal p c f : Q) (r : resultado) :
  ~ p + c + f == 0 ->
  macros_do_plano kcal (PorPct p c f) = inr r ->
  Qabs (p + c + f - 100) <= 0.01 ->
  kcal_p r + kcal_c r + kcal_f r == kcal * (p + c + f) / 100.
Proof.
  intros Hs Hr Hnear.
  destruct (macros_do_plano_pct kcal p c f Hs) as (r' & pN & cN & fN & Hr' & Hn & Hsum).
  rewrite Hr in Hr'. injection Hr' as <-.
  rewrite (normalized_pcts_near _ _ _ Hnear) in Hn. injection Hn as <- <- <-.
  exact Hsum.
Qed.




End PlanTabFacts.

(** ** Food detection *)

Section FoodAIFacts.
Import PyNum FoodAI.

Lemma flt_fle (x y : pyfloat) : flt x y = true -> fle x y.
Proof.
  destruct x, y; cbn; try discriminate; try exact (fun _ => I).
  intros H. apply Qlt_bool_true in H. apply Qlt_le_weak, H.
Qed.

(** [max(0.0, grams)] is never negative, also for [NaN] and infinities. *)
Lemma fmax_0_nonneg (g : pyfloat) : fle (Fin 0) (fmax (Fin 0) g).
Proof.
  unfold fmax. destruct (flt (Fin 0) g) eqn:E.
  - apply flt_fle, E.
  - cbn. apply Qle_refl.
Qed.

(** [max(0.0, min(conf, 1.0))] lies in [[0, 1]], also for [NaN] and
    infinities. *)
Lemma clamp_unit_interval (conf : pyfloat) :
  fle (fmax (Fin 0) (fmin conf (Fin 1))) (Fin 1).
Proof.
  unfold fmax, fmin. destruct conf as [q| | |]; cbn.
  - destruct (Qlt_bool 1 q) eqn:E1; cbn.
    + apply Qle_refl.
    + destruct (Qlt_bool 0 q) eqn:E0; cbn.
      * apply Qlt_bool_false, E1.
      * discriminate.
  - apply Qle_refl.
  - discriminate.
  - discriminate.
Qed.

Section WithEnvironment.
Variable json_loads : string -> option json.
Variable float_of_str : string -> option pyfloat.
Variable str_of : json -> string.

Lemma item_step_ok (it : json) (i : item) :
  item_step float_of_str str_of it = Some (Some i) -> item_ok i.
Proof.
  unfold item_step. intros H.
  destruct (dict_get it "food") as [f|]; [|discriminate]; cbn in H.
  destruct (dict_get it "grams") as [g|]; [|discriminate]; cbn in H.
  destruct (py_float float_of_str (py_or g (JInt 0))) as [gr|]; [|discriminate];
    cbn in H.
  destruct (dict_get it "confidence") as [c|]; [|discriminate]; cbn in H.
  destruct (py_float float_of_str (py_or c (JInt 0))) as [cf|]; [|discriminate];
    cbn in H.
  destruct (strip (py_str str_of (py_or f (JStr "")))) as [|a s] eqn:Ef;
    cbn in H; [discriminate|].
  injection H as <-. unfold item_ok. cbn [food grams confidence].
  split; [discriminate|]. split; [apply fmax_0_nonneg|].
  split; [apply fmax_0_nonneg | apply clamp_unit_interval].
Qed.

Lemma collect_ok (items : list json) :
  forall out res,
    Forall item_ok out ->
    collect float_of_str str_of items out = Some res ->
    Forall item_ok res.
Proof.
  induction items as [|it rest IH]; intros out res Hout H; cbn in H.
  - injection H as <-. exact Hout.
  - destruct (item_step float_of_str str_of it) as [[i|]|] eqn:Es; cbn in H.
    + apply (IH (out ++ [i]) res); [|exact H].
      apply Forall_app. split; [exact Hout|].
      constructor; [exact (item_step_ok it i Es) | constructor].
    + apply (IH _ _ Hout H).
    + discriminate.
Qed.

(** An element that is not a dictionary makes the loop raise. *)
Lemma collect_raises_on_str (s : string) (rest : list json) (out : list item) :
  collect float_of_str str_of (JStr s :: rest) out = None.
Proof. reflexivity. Qed.

Lemma detect_body_ok (resp : http_outcome) (res : list item) :
  detect_body json_loads float_of_str str_of resp = Some res -> Forall item_ok res.
Proof.
  destruct resp as [| |data]; cbn; try discriminate.
  destruct (message_content data) as [content|]; [|discriminate]; cbn.
  destruct (parse_content json_loads content) as [parsed|]; [|discriminate]; cbn.
  destruct (dict_get parsed "items") as [its|]; [|discriminate]; cbn.
  destruct (py_iter (py_or its (JList []))) as [items|]; [|discriminate]; cbn.
  apply collect_ok. constructor.
Qed.

(** Iterating over a truthy value that is not a list either raises at once
    or raises in the first turn of the loop. *)
Lemma iter_non_list_raises (v : json) :
  (forall l, v <> JList l) ->
  truthy v = true ->
  (items ← py_iter v; collect float_of_str str_of items []) = None.
Proof.
  intros Hl Ht. destruct v as [|b|z|x|s|l|m]; cbn in *; try reflexivity.
  - destruct s as [|a s]; [discriminate|]. reflexivity.
  - exfalso. apply (Hl l). reflexivity.
  - destruct (map_to_list m) as [|[k v] kvs]; [discriminate|]. reflexivity.
Qed.

Lemma ai_detect_items_ok (api_key : option string) (resp : http_outcome) :
  Forall item_ok
    (ai_detect_foods_from_image_openrouter json_loads float_of_str str_of api_key resp).
Proof.
  unfold ai_detect_foods_from_image_openrouter.
  destruct api_key as [[|a k]|]; try constructor.
  destruct (detect_body json_loads float_of_str str_of resp) as [res|] eqn:E; cbn.
  - exact (detect_body_ok resp res E).
  - constructor.
Qed.

Lemma ai_detect_without_items_list (api_key : option string) (resp : http_outcome) :
  ~ has_items_list json_loads resp ->
  ai_detect_foods_from_image_openrouter json_loads float_of_str str_of api_key resp = [].
Proof.
  intros Hno. unfold ai_detect_foods_from_image_openrouter.
  destruct api_key as [[|a k]|]; try reflexivity.
  destruct resp as [| |data]; try reflexivity. cbn [detect_body].
  destruct (message_content data) as [content|] eqn:Ec; [|reflexivity]. cbn.
  destruct (parse_content json_loads content) as [parsed|] eqn:Ep; [|reflexivity]. cbn.
  destruct parsed as [|b|z|x|s|l|m]; try reflexivity. cbn.
  destruct (m !! "items"%string) as [v|] eqn:Em; [|reflexivity]. cbn.
  unfold py_or. destruct (truthy v) eqn:Et; [|reflexivity].
  rewrite iter_non_list_raises; [reflexivity| |exact Et].
  intros l ->. apply Hno. exists data, content, m, l. repeat split; assumption.
Qed.

(** C9. Every item of the list returned by
    [ai_detect_foods_from_image_openrouter] has a non-empty name, grams
    that are not negative and a confidence in [[0, 1]]; and the list is
    empty, with nothing raised, when the API key is missing or empty, when
    the request fails, when the body is not JSON, and whenever the answer
    does not carry a JSON object with an ["items"] list. *)
Theorem ai_detect_items_well_formed :
  let detect :=
    ai_detect_foods_from_image_openrouter json_loads float_of_str str_of in
  (forall api_key resp, Forall item_ok (detect api_key resp))
  /\ (forall resp, detect None resp = [] /\ detect (Some EmptyString) resp = [])
  /\ (forall api_key, detect api_key RequestFailed = [])
  /\ (forall api_key, detect api_key BodyNotJson = [])
  /\ (forall api_key resp, ~ has_items_list json_loads resp -> detect api_key resp = []).
Proof.
  intros detect. subst detect.
  split; [exact ai_detect_items_ok|].
  split; [intros resp; split; reflexivity|].
  split; [intros [[|a k]|]; reflexivity|].
  split; [intros [[|a k]|]; reflexivity|].
  exact ai_detect_without_items_list.
Qed.

End WithEnvironment.

(** An answer whose text wraps the JSON object: the braces are extracted,
    the name is stripped, negative grams become 0 and a confidence above 1
    becomes 1; the item with a blank name is dropped. *)
Lemma ai_detect_example :
  let loads (s : string) : option json :=
    if String.eqb s "{...}"
    then Some (JDict (<[ "items"%string :=
           JList [ JDict (<[ "food"%string := JStr " arroz " ]>
                         (<[ "grams"%string := JInt (-3) ]>
                         (<[ "confidence"%string := JFloat (Fin 1.7) ]> ∅)));
                   JDict (<[ "food"%string := JStr "  " ]> ∅);
                   JDict (<[ "food"%string := JStr "feijão" ]>
                         (<[ "grams"%string := JFloat (Fin 120.5) ]>
                         (<[ "confidence"%string := JFloat NaN ]> ∅))) ] ]> ∅))
    else None in
  let data :=
    JDict (<[ "choices"%string :=
      JList [ JDict (<[ "message"%string :=
        JDict (<[ "content"%string := JStr "Segue: {...} fim" ]> ∅) ]> ∅) ] ]> ∅) in
  ai_detect_foods_from_image_openrouter loads (fun _ => None) (fun _ => EmptyString)
    (Some "chave"%string) (BodyJson data)
  = [ mk_item "arroz" (Fin 0) (Fin 1); mk_item "feijão" (Fin 120.5) (Fin 0) ].
Proof. vm_compute. reflexivity. Qed.

End FoodAIFacts.

(** ** More on the wizard: weeks to the target, the chart, the steps *)

Section WizardFacts.
Import PyNum Onboarding Wizard.

(** [math.ceil] of a positive quotient by the weekly rate: the least number
    of weeks that covers the difference. *)
Lemma ceiling_of_rate (delta rate : Q) :
  0 < delta -> 0 < rate ->
  (1 <= Qceiling (delta / rate))%Z
  /\ inject_Z (Qceiling (delta / rate) - 1) * rate < delta
  /\ delta <= inject_Z (Qceiling (delta / rate)) * rate.
Proof.
  intros Hd Hr.
  pose proof (Qle_ceiling (delta / rate)) as Hup.
  pose proof (Qceiling_lt (delta / rate)) as Hlo.
  assert (0 < delta / rate) as Hq by (apply Qlt_shift_div_l; lra).
  split; [|split].
  - assert (0 < inject_Z (Qceiling (delta / rate))) as H0 by lra.
    change 0 with (inject_Z 0) in H0. rewrite <- Zlt_Qlt in H0. lia.
  - apply (Qmult_lt_r _ _ rate Hr) in Hlo.
    assert (delta / rate * rate == delta) as Hc by (field; lra).
    rewrite Hc in Hlo. exact Hlo.
  - apply (Qmult_le_r _ _ rate Hr) in Hup.
    assert (delta / rate * rate == delta) as Hc by (field; lra).
    rewrite Hc in Hup. exact Hup.
Qed.

Lemma semanas_emagrecer (atual meta : Q) :
  _semanas_para_alvo atual meta "Emagrecer"
  = if Qle_bool (atual - meta) 0 then 0%Z else Qceiling ((atual - meta) / 0.5).
Proof.
  unfold _semanas_para_alvo.
  destruct (decide ("Emagrecer"%string = "Emagrecer"%string)); [|congruence].
  cbv zeta. unfold py_max.
  destruct (Qlt_bool (atual - meta) 0.0) eqn:E.
  - apply Qlt_bool_true in E.
    assert (Qle_bool (atual - meta) 0 = true) as -> by (apply Qle_bool_iff; lra).
    reflexivity.
  - reflexivity.
Qed.

Lemma semanas_ganhar (atual meta : Q) :
  _semanas_para_alvo atual meta "Ganhar massa"
  = if Qle_bool (meta - atual) 0 then 0%Z else Qceiling ((meta - atual) / 0.25).
Proof.
  unfold _semanas_para_alvo.
  destruct (decide ("Ganhar massa"%string = "Emagrecer"%string)); [discriminate|].
  destruct (decide ("Ganhar massa"%string = "Ganhar massa"%string)); [|congruence].
  cbv zeta. unfold py_max.
  destruct (Qlt_bool (meta - atual) 0.0) eqn:E.
  - apply Qlt_bool_true in E.
    assert (Qle_bool (meta - atual) 0 = true) as -> by (apply Qle_bool_iff; lra).
    reflexivity.
  - reflexivity.
Qed.

Lemma semanas_outro_objetivo (atual meta : Q) (objetivo : string) :
  objetivo <> "Emagrecer"%string -> objetivo <> "Ganhar massa"%string ->
  _semanas_para_alvo atual meta objetivo = 0%Z.
Proof.
  intros H1 H2. unfold _semanas_para_alvo.
  destruct (decide (objetivo = "Emagrecer"%string)); [contradiction|].
  destruct (decide (objetivo = "Ganhar massa"%string)); [contradiction|].
  reflexivity.
Qed.

Lemma semanas_nonneg (atual meta : Q) (objetivo : string) :
  (0 <= _semanas_para_alvo atual meta objetivo)%Z.
Proof.
  destruct (decide (objetivo = "Emagrecer"%string)) as [->|H1].
  - rewrite semanas_emagrecer.
    destruct (Qle_bool (atual - meta) 0) eqn:E; [lia|].
    apply not_true_iff_false in E. rewrite Qle_bool_iff in E.
    destruct (ceiling_of_rate (atual - meta) 0.5) as [Hn _]; [lra|lra|lia].
  - destruct (decide (objetivo = "Ganhar massa"%string)) as [->|H2].
    + rewrite semanas_ganhar.
      destruct (Qle_bool (meta - atual) 0) eqn:E; [lia|].
      apply not_true_iff_false in E. rewrite Qle_bool_iff in E.
      destruct (ceiling_of_rate (meta - atual) 0.25) as [Hn _]; [lra|lra|lia].
    + rewrite semanas_outro_objetivo by assumption. lia.
Qed.

(** X2. [_semanas_para_alvo] is never negative, and it is 0 exactly when
    there is nothing to do in the direction of the goal: the weight is at
    or below the target when losing, at or above it when gaining, or the
    goal is any other string. *)
Theorem semanas_para_alvo_zero (atual meta : Q) (objetivo : string) :
  (0 <= _semanas_para_alvo atual meta objetivo)%Z
  /\ (_semanas_para_alvo atual meta objetivo = 0%Z
      <-> (objetivo = "Emagrecer"%string /\ atual <= meta)
          \/ (objetivo = "Ganhar massa"%string /\ meta <= atual)
          \/ (objetivo <> "Emagrecer"%string /\ objetivo <> "Ganhar massa"%string)).
Proof.
  split; [apply semanas_nonneg|].
  destruct (decide (objetivo = "Emagrecer"%string)) as [->|H1].
  - rewrite semanas_emagrecer.
    destruct (Qle_bool (atual - meta) 0) eqn:E.
    + apply Qle_bool_iff in E. split; [intros _; left; split; [reflexivity|lra]|reflexivity].
    + apply not_true_iff_false in E. rewrite Qle_bool_iff in E.
      destruct (ceiling_of_rate (atual - meta) 0.5) as [Hn _]; [lra|lra|].
      split; [lia|]. intros [[_ H]|[[H _]|[H _]]]; [lra|discriminate|congruence].
  - destruct (decide (objetivo = "Ganhar massa"%string)) as [->|H2].
    + rewrite semanas_ganhar.
      destruct (Qle_bool (meta - atual) 0) eqn:E.
      * apply Qle_bool_iff in E.
        split; [intros _; right; left; split; [reflexivity|lra]|reflexivity].
      * apply not_true_iff_false in E. rewrite Qle_bool_iff in E.
        destruct (ceiling_of_rate (meta - atual) 0.25) as [Hn _]; [lra|lra|].
        split; [lia|]. intros [[H _]|[[_ H]|[_ H]]]; [discriminate|lra|congruence].
    + rewrite semanas_outro_objetivo by assumption.
      split; [intros _; right; right; split; assumption|reflexivity].
Qed.

(** The points [f 0, ..., f n] of a chart over [range(n+1)]. *)
Lemma fmap_range_ends (f : Z -> Q) (n : Z) :
  (0 <= n)%Z ->
  let l := f <$> seqZ 0 (n + 1) in
  length l = S (Z.to_nat n) /\ head l = Some (f 0%Z) /\ last l = Some (f n).
Proof.
  intros Hn l. subst l.
  assert (length (f <$> seqZ 0 (n + 1)) = S (Z.to_nat n)) as Hlen.
  { rewrite length_fmap, length_seqZ. lia. }
  split; [exact Hlen|]. split.
  - rewrite head_lookup, list_lookup_fmap, lookup_seqZ_lt by lia. reflexivity.
  - rewrite last_lookup, Hlen, list_lookup_fmap. cbn [pred].
    rewrite lookup_seqZ_lt by lia. cbn. do 2 f_equal. lia.
Qed.

Lemma apos_clique_bounds (ob_step : Z) (c : clique) :
  (1 <= ob_step <= 8)%Z -> (1 <= apos_clique ob_step c <= 8)%Z.
Proof.
  intros H. destruct c as [| |[|]]; cbn;
    repeat match goal with
           | |- context [(?a <? ?b)%Z] => destruct (Z.ltb_spec a b)
           end; lia.
Qed.

Lemma fold_cliques_bounds (cliques : list clique) :
  forall ob_step,
    (1 <= ob_step <= 8)%Z ->
    (1 <= fold_left apos_clique cliques ob_step <= 8)%Z.
Proof.
  induction cliques as [|c cs IH]; intros ob_step H; cbn; [exact H|].
  apply IH, apos_clique_bounds, H.
Qed.

(** X9. Whatever buttons are clicked, the wizard's step stays between 1
    and 8; every step in that range is reached by clicking "Próximo";
    "Voltar" undoes "Próximo" below step 8, and a successful "Concluir" at
    step 8 brings the wizard back to step 1. *)
Theorem wizard_step_in_range :
  (forall cliques, (1 <= ob_step_apos cliques <= 8)%Z)
  /\ (forall n, (n < 8)%nat -> ob_step_apos (replicate n Proximo) = (1 + Z.of_nat n)%Z)
  /\ (forall ob_step, (1 <= ob_step < 8)%Z ->
        apos_clique (apos_clique ob_step Proximo) Voltar = ob_step)
  /\ apos_clique 8 (Concluir true) = 1%Z
  /\ apos_clique 8 (Concluir false) = 8%Z.
Proof.
  split; [intros cliques; apply fold_cliques_bounds; lia|].
  split.
  { intros n Hn. unfold ob_step_apos.
    do 8 (destruct n as [|n]; [reflexivity|]). lia. }
  split; [|split; reflexivity].
  intros ob_step H. unfold apos_clique.
  destruct (Z.ltb_spec ob_step 8); [|lia].
  destruct (Z.ltb_spec 1 (ob_step + 1)); lia.
Qed.

End WizardFacts.

(** ** The weeks to the target and their chart, as the interpreter
    computes them *)

Section Wizard64Facts.
Import PyNum Float64 Wizard64.

(** A positive double is an integer of at most 53 bits times the power of
    two of its last place. *)
Lemma representavel_canon x :
  0 < x -> representavel x ->
  exists m, x == inject_Z m * pow2 (expoente x) /\ (0 <= m <= 2 ^ 53)%Z.
Proof.
  intros Hx Hr. exists (rne (x / pow2 (expoente x))).
  split; [|apply mantissa_bounds; exact Hx].
  unfold representavel in Hr. rewrite (round64_pos x Hx), round_pos_eq in Hr.
  symmetry. exact Hr.
Qed.

(** Sterbenz: the difference of two doubles within a factor of two of
    each other is a double, so their subtraction is exact. *)
Lemma sterbenz a b :
  representavel a -> representavel b -> 0 < b -> b <= a -> a <= 2 * b ->
  representavel (a - b).
Proof.
  intros Ha Hb Hb0 Hba Hab.
  assert (0 < a) as Ha0 by lra.
  destruct (representavel_canon a Ha0 Ha) as (ma & Hma & Hma').
  destruct (representavel_canon b Hb0 Hb) as (mb & Hmb & Hmb').
  pose proof (expoente_mono b a Hb0 Hba) as He.
  pose proof (expoente_ge b) as Hge.
  set (Ea := expoente a) in *. set (Eb := expoente b) in *.
  pose proof (pow2_pos Eb) as Hp.
  set (M := (ma * 2 ^ (Ea - Eb) - mb)%Z).
  assert (a - b == inject_Z M * pow2 Eb) as Hd.
  { unfold M, Zminus. rewrite inject_Z_plus, inject_Z_opp, inject_Z_mult.
    fold (Ea - Eb)%Z.
    rewrite <- pow2_nonneg_Z by lia.
    rewrite Hma at 1. rewrite Hmb at 1.
    assert (pow2 Ea == pow2 (Ea - Eb) * pow2 Eb) as ->.
    { rewrite <- pow2_add. assert (Ea - Eb + Eb = Ea)%Z as -> by lia. reflexivity. }
    ring. }
  assert (0 <= M <= mb)%Z as HM.
  { split.
    - apply Zle_Q. apply (Qmult_le_r _ _ (pow2 Eb) Hp).
      rewrite <- Hd. change (inject_Z 0) with 0. lra.
    - apply Zle_Q. apply (Qmult_le_r _ _ (pow2 Eb) Hp).
      rewrite <- Hd, <- Hmb. lra. }
  apply representavel_compat with (inject_Z M * pow2 Eb); [symmetry; exact Hd|].
  apply representavel_scaled; lia.
Qed.

Lemma representavel_512 : representavel 512.
Proof. apply (representavel_Z 512). lia. Qed.

Lemma pow2_m45_small : 0 < pow2 (-45) /\ pow2 (-45) <= 1 # 1000000.
Proof. split; [apply pow2_pos|]. vm_compute. discriminate. Qed.

(** The weeks from a positive difference [x] below 512 at the weekly rate
    [2^-j]. *)
Lemma semanas_core (x : Q) (j : Z) :
  (j = 1 \/ j = 2)%Z -> 0 < x -> x < 512 -> 0 < round64 x ->
  let n := Qceiling (round64 (round64 x / pow2 (- j))) in
  (1 <= n <= 2049)%Z
  /\ inject_Z (n - 1) * pow2 (- j) < x
  /\ round64 x <= inject_Z n * pow2 (- j)
  /\ inject_Z (n - 1) * pow2 (- j) < round64 x
  /\ x <= inject_Z n * pow2 (- j) + pow2 (-45)
  /\ (representavel x -> x <= inject_Z n * pow2 (- j)).
Proof.
  intros Hj Hx Hx512 Hd n.
  set (d := round64 x) in *.
  assert (representavel d) as Hrd by apply representavel_round.
  assert (d <= 512) as Hd512.
  { pose proof representavel_512 as H. unfold representavel in H.
    apply Qle_trans with (round64 512); [|rewrite H; apply Qle_refl].
    apply round64_mono. lra. }
  assert (Qabs (d - x) <= pow2 (-45)) as Herr.
  { apply (round64_err x 9); [lia|]. rewrite Qabs_pos by lra.
    change (pow2 9) with 512. exact Hx512. }
  apply Qabs_Qle_condition in Herr. destruct Herr as [He1 He2].
  assert (round64 (d / pow2 (- j)) == d * pow2 j) as Hq.
  { assert (d / pow2 (- j) == d * pow2 j) as ->.
    { unfold pow2. rewrite Qpower_opp. field. apply Qpower_not_0. discriminate. }
    apply representavel_pow2_mult; [lia|exact Hrd]. }
  assert (n = Qceiling (d * pow2 j)) as Hn.
  { subst n. apply Qceiling_comp. exact Hq. }
  pose proof (Qle_ceiling (d * pow2 j)) as Hup.
  pose proof (Qceiling_lt (d * pow2 j)) as Hlo.
  rewrite <- Hn in Hup, Hlo.
  assert (inject_Z (n - 1) == inject_Z n - 1) as Hm1.
  { unfold Zminus. rewrite inject_Z_plus, inject_Z_opp. reflexivity. }
  assert (pow2 j == 2 /\ pow2 (- j) == 1 # 2 \/ pow2 j == 4 /\ pow2 (- j) == 1 # 4)
    as Hpj.
  { destruct Hj as [-> | ->]; [left|right]; split; reflexivity. }
  assert (0 < inject_Z n) as Hn0 by (destruct Hpj as [[H1 H2]|[H1 H2]]; rewrite H1 in *; lra).
  assert (1 <= n)%Z as Hn1.
  { change 0 with (inject_Z 0) in Hn0. rewrite <- Zlt_Qlt in Hn0. lia. }
  assert (inject_Z n < inject_Z 2050) as Hn2.
  { change (inject_Z 2050) with 2050.
    destruct Hpj as [[H1 H2]|[H1 H2]]; rewrite H1 in *; lra. }
  rewrite <- Zlt_Qlt in Hn2.
  assert (inject_Z (n - 1) * pow2 (- j) < d) as Hlod.
  { destruct Hpj as [[H1 H2]|[H1 H2]]; rewrite H1 in *; rewrite H2; lra. }
  assert (d <= inject_Z n * pow2 (- j)) as Hupd.
  { destruct Hpj as [[H1 H2]|[H1 H2]]; rewrite H1 in *; rewrite H2; lra. }
  split; [lia|]. split; [|split; [exact Hupd|split; [exact Hlod|split]]].
  - apply Qnot_le_lt. intros Hc.
    assert (representavel (inject_Z (n - 1) * pow2 (- j))) as Hr.
    { apply representavel_scaled; lia. }
    unfold representavel in Hr.
    assert (d <= inject_Z (n - 1) * pow2 (- j)) as Hc'.
    { apply Qle_trans with (round64 (inject_Z (n - 1) * pow2 (- j)));
        [apply round64_mono; exact Hc | rewrite Hr; apply Qle_refl]. }
    lra.
  - lra.
  - intros Hr. unfold representavel in Hr. fold d in Hr. lra.
Qed.

Lemma semanas64_emagrecer (atual meta : Q) :
  _semanas_para_alvo atual meta "Emagrecer"
  = if Qle_bool (round64 (atual - meta)) 0 then 0%Z
    else Qceiling (round64 (round64 (atual - meta) / 0.5)).
Proof.
  unfold _semanas_para_alvo.
  destruct (decide ("Emagrecer"%string = "Emagrecer"%string)); [|congruence].
  cbv zeta. unfold py_max.
  destruct (Qlt_bool (round64 (atual - meta)) 0.0) eqn:E.
  - apply Qlt_bool_true in E.
    assert (Qle_bool (round64 (atual - meta)) 0 = true) as ->
      by (apply Qle_bool_iff; lra).
    reflexivity.
  - reflexivity.
Qed.

Lemma semanas64_ganhar (atual meta : Q) :
  _semanas_para_alvo atual meta "Ganhar massa"
  = if Qle_bool (round64 (meta - atual)) 0 then 0%Z
    else Qceiling (round64 (round64 (meta - atual) / 0.25)).
Proof.
  unfold _semanas_para_alvo.
  destruct (decide ("Ganhar massa"%string = "Emagrecer"%string)); [discriminate|].
  destruct (decide ("Ganhar massa"%string = "Ganhar massa"%string)); [|congruence].
  cbv zeta. unfold py_max.
  destruct (Qlt_bool (round64 (meta - atual)) 0.0) eqn:E.
  - apply Qlt_bool_true in E.
    assert (Qle_bool (round64 (meta - atual)) 0 = true) as ->
      by (apply Qle_bool_iff; lra).
    reflexivity.
  - reflexivity.
Qed.

Lemma semanas64_outro_objetivo (atual meta : Q) (objetivo : string) :
  objetivo <> "Emagrecer"%string -> objetivo <> "Ganhar massa"%string ->
  _semanas_para_alvo atual meta objetivo = 0%Z.
Proof.
  intros H1 H2. unfold _semanas_para_alvo.
  destruct (decide (objetivo = "Emagrecer"%string)); [contradiction|].
  destruct (decide (objetivo = "Ganhar massa"%string)); [contradiction|].
  reflexivity.
Qed.

(** The count for a positive difference, with the rate as the source
    writes it. *)
Lemma semanas64_positive (maior menor rate : Q) (j : Z) :
  (j = 1 \/ j = 2)%Z -> rate == pow2 (- j) ->
  representavel maior -> representavel menor ->
  30 <= menor -> menor < maior -> maior <= 300 ->
  let d := round64 (maior - menor) in
  let n := Qceiling (round64 (d / rate)) in
  Qle_bool d 0 = false
  /\ (1 <= n <= 2049)%Z
  /\ (inject_Z (n - 1) * rate < d /\ d <= inject_Z n * rate)
  /\ inject_Z (n - 1) * rate < maior - menor
  /\ maior - menor <= inject_Z n * rate + pow2 (-45)
  /\ (maior <= 2 * menor -> maior - menor <= inject_Z n * rate).
Proof.
  intros Hj Hrate Ha Hb H30 Hlt H300 d n.
  pose proof (round64_sub_pos maior menor Ha Hb Hlt) as Hd. fold d in Hd.
  assert (n = Qceiling (round64 (d / pow2 (- j)))) as Hn.
  { subst n. apply Qceiling_comp. apply round64_compat. rewrite Hrate. reflexivity. }
  destruct (semanas_core (maior - menor) j Hj) as (H1 & H2 & H3 & H4 & H5 & H6);
    [lra|lra|exact Hd|].
  cbv zeta in H1, H2, H3, H4, H5, H6. fold d in H1, H2, H3, H4, H5, H6.
  rewrite <- Hn in H1, H2, H3, H4, H5, H6.
  split.
  { apply not_true_iff_false. rewrite Qle_bool_iff. lra. }
  split; [exact H1|]. rewrite Hrate.
  split; [split; [exact H4|exact H3]|].
  split; [exact H2|]. split; [exact H5|].
  intros Hhalf. apply H6. apply sterbenz; try assumption; lra.
Qed.

(** X1. For two weights of the form (doubles from 30 to 300 kg) with
    weight to lose, the [_semanas_para_alvo] of the interpreter is at least
    1 and is the least number of weeks that covers, at half a kilogram a
    week, the double nearest the difference of the weights.  For the
    difference itself: one week fewer never covers it, and the count
    covers it exactly when the target is at least half the current weight
    (the subtraction is then exact) and up to 2^-45 kg, the rounding of
    the subtraction, otherwise.  The same holds with weight to gain at a
    quarter of a kilogram a week. *)
Theorem semanas_para_alvo_least_weeks :
  (forall atual meta,
     representavel atual -> representavel meta ->
     30 <= meta -> meta < atual -> atual <= 300 ->
     let n := _semanas_para_alvo atual meta "Emagrecer" in
     (1 <= n)%Z
     /\ (inject_Z (n - 1) * 0.5 < round64 (atual - meta)
         /\ round64 (atual - meta) <= inject_Z n * 0.5)
     /\ inject_Z (n - 1) * 0.5 < atual - meta
     /\ atual - meta <= inject_Z n * 0.5 + pow2 (-45)
     /\ (atual <= 2 * meta -> atual - meta <= inject_Z n * 0.5))
  /\ (forall atual meta,
     representavel atual -> representavel meta ->
     30 <= atual -> atual < meta -> meta <= 300 ->
     let n := _semanas_para_alvo atual meta "Ganhar massa" in
     (1 <= n)%Z
     /\ (inject_Z (n - 1) * 0.25 < round64 (meta - atual)
         /\ round64 (meta - atual) <= inject_Z n * 0.25)
     /\ inject_Z (n - 1) * 0.25 < meta - atual
     /\ meta - atual <= inject_Z n * 0.25 + pow2 (-45)
     /\ (meta <= 2 * atual -> meta - atual <= inject_Z n * 0.25)).
Proof.
  split; intros atual meta Ha Hm H30 Hlt H300 n; subst n.
  - rewrite semanas64_emagrecer.
    destruct (semanas64_positive atual meta 0.5 1) as (-> & H1 & H2 & H3 & H4 & H5);
      try assumption; [left; reflexivity|reflexivity|].
    split; [lia|]. split; [exact H2|]. split; [exact H3|]. split; [exact H4|exact H5].
  - rewrite semanas64_ganhar.
    destruct (semanas64_positive meta atual 0.25 2) as (-> & H1 & H2 & H3 & H4 & H5);
      try assumption; [right; reflexivity|reflexivity|].
    split; [lia|]. split; [exact H2|]. split; [exact H3|]. split; [exact H4|exact H5].
Qed.

Lemma semanas_para_alvo_least_weeks_example :
  representavel (round64 32.2) /\ representavel (round64 30.2)
  /\ 30 <= round64 30.2 /\ round64 30.2 < round64 32.2 /\ round64 32.2 <= 300
  /\ let n := _semanas_para_alvo (round64 32.2) (round64 30.2) "Emagrecer" in
     (1 <= n)%Z
     /\ (inject_Z (n - 1) * 0.5 < round64 (round64 32.2 - round64 30.2)
         /\ round64 (round64 32.2 - round64 30.2) <= inject_Z n * 0.5)
     /\ inject_Z (n - 1) * 0.5 < round64 32.2 - round64 30.2
     /\ round64 32.2 - round64 30.2 <= inject_Z n * 0.5 + pow2 (-45)
     /\ (round64 32.2 <= 2 * round64 30.2 ->
         round64 32.2 - round64 30.2 <= inject_Z n * 0.5).
Proof.
  assert (representavel (round64 32.2)) as H1 by apply representavel_round.
  assert (representavel (round64 30.2)) as H2 by apply representavel_round.
  assert (30 <= round64 30.2) as H3 by (vm_compute; discriminate).
  assert (round64 30.2 < round64 32.2) as H4 by (vm_compute; reflexivity).
  assert (round64 32.2 <= 300) as H5 by (vm_compute; discriminate).
  split; [exact H1|]. split; [exact H2|]. split; [exact H3|]. split; [exact H4|].
  split; [exact H5|].
  exact (proj1 semanas_para_alvo_least_weeks (round64 32.2) (round64 30.2)
           H1 H2 H3 H4 H5).
Defined.

(** *** The chart *)

Lemma of_int_exact (z : Z) : (Z.abs z <= 2 ^ 53)%Z -> of_int z == inject_Z z.
Proof. intros H. apply representavel_Z. exact H. Qed.

Lemma of_int_mono (a b : Z) : (a <= b)%Z -> of_int a <= of_int b.
Proof. intros H. apply round64_mono. rewrite <- Zle_Qle. exact H. Qed.

Lemma of_int_nonneg (a : Z) : (0 <= a)%Z -> 0 <= of_int a.
Proof.
  intros H. apply round64_nonneg. change 0 with (inject_Z 0).
  rewrite <- Zle_Qle. exact H.
Qed.

(** [n] steps of the rounded [n]-th part of the rounded difference come
    back to the difference, up to the rounding of four operations. *)
Lemma passos_de_volta (x : Q) (n : Z) :
  0 < x -> x <= 270 -> (1 <= n <= 2049)%Z ->
  let passo := round64 (round64 x / of_int n) in
  let s := round64 (of_int n * passo) in
  0 <= passo /\ Qabs (s - x) <= 2051 * pow2 (-45).
Proof.
  intros Hx Hx270 Hn passo s.
  destruct pow2_m45_small as [Hu0 Hu1]. set (u := pow2 (-45)) in *.
  assert (of_int n == inject_Z n) as HN by (apply of_int_exact; lia).
  assert (1 <= inject_Z n <= 2049) as HNb.
  { change 1 with (inject_Z 1). change 2049 with (inject_Z 2049).
    rewrite <- !Zle_Qle. exact Hn. }
  set (N := inject_Z n) in *.
  set (d := round64 x) in *.
  assert (Qabs (d - x) <= u) as E1.
  { apply (round64_err x 9); [lia|]. rewrite Qabs_pos by lra.
    change (pow2 9) with 512. lra. }
  apply Qabs_Qle_condition in E1. destruct E1 as [E1a E1b].
  assert (0 <= d) as Hd0 by (apply round64_nonneg; lra).
  assert (0 <= d / N /\ d / N <= d) as [Hq0 Hq1].
  { split.
    - apply Qle_shift_div_l; lra.
    - apply Qle_shift_div_r; [lra|].
      assert (d * 1 <= d * N) as H; [|lra].
      rewrite !(Qmult_comm d). apply Qmult_le_compat_r; lra. }
  assert (passo == round64 (d / N)) as Hpasso.
  { subst passo. apply round64_compat. rewrite HN. reflexivity. }
  assert (Qabs (round64 (d / N) - d / N) <= u) as E2.
  { apply (round64_err (d / N) 9); [lia|]. rewrite Qabs_pos by lra.
    change (pow2 9) with 512. lra. }
  rewrite <- Hpasso in E2.
  apply Qabs_Qle_condition in E2. destruct E2 as [E2a E2b].
  assert (0 <= passo) as Hp0.
  { rewrite Hpasso. apply round64_nonneg. exact Hq0. }
  split; [exact Hp0|].
  set (e2 := passo - d / N) in *.
  assert (N * passo == d + N * e2) as HP.
  { unfold e2. field. lra. }
  assert (- (N * u) <= N * e2 /\ N * e2 <= N * u) as [E3a E3b].
  { split.
    - assert (N * - u <= N * e2) as H; [|lra].
      rewrite !(Qmult_comm N). apply Qmult_le_compat_r; lra.
    - rewrite !(Qmult_comm N). apply Qmult_le_compat_r; lra. }
  assert (N * u <= 2049 * u) as HNu.
  { apply Qmult_le_compat_r; lra. }
  assert (s == round64 (N * passo)) as Hs.
  { subst s. apply round64_compat. rewrite HN. reflexivity. }
  assert (0 <= N * passo) as HP0 by (apply Qmult_le_0_compat; lra).
  assert (Qabs (round64 (N * passo) - N * passo) <= u) as E4.
  { apply (round64_err (N * passo) 9); [lia|]. rewrite Qabs_pos by exact HP0.
    change (pow2 9) with 512. lra. }
  rewrite <- Hs in E4.
  apply Qabs_Qle_condition in E4. destruct E4 as [E4a E4b].
  apply Qabs_Qle_condition. split; lra.
Qed.

Lemma fmap_range_step (f : Z -> Q) (n : Z) (i : nat) (x y : Q) :
  (f <$> seqZ 0 n) !! i = Some x -> (f <$> seqZ 0 n) !! S i = Some y ->
  x = f (Z.of_nat i) /\ y = f (Z.of_nat i + 1)%Z.
Proof.
  rewrite !list_lookup_fmap. intros Hx Hy.
  destruct (seqZ 0 n !! i) as [a|] eqn:Ea; [|discriminate].
  destruct (seqZ 0 n !! S i) as [b|] eqn:Eb; [|discriminate].
  apply lookup_seqZ in Ea, Eb. destruct Ea as [-> _]. destruct Eb as [-> _].
  cbn in Hx, Hy. injection Hx as <-. injection Hy as <-.
  split; f_equal; lia.
Qed.

Lemma erro_final : 2052 * pow2 (-45) <= 1 # 10000000000.
Proof. vm_compute. discriminate. Qed.

Lemma round64_near (v t e : Q) :
  0 <= e -> e <= 1 -> 30 <= t <= 300 -> Qabs (v - t) <= e ->
  Qabs (round64 v - t) <= e + pow2 (-45).
Proof.
  intros He0 He1 Ht Hv. apply Qabs_Qle_condition in Hv. destruct Hv as [Hv1 Hv2].
  assert (Qabs (round64 v - v) <= pow2 (-45)) as E.
  { apply (round64_err v 9); [lia|]. rewrite Qabs_pos by lra.
    change (pow2 9) with 512. lra. }
  apply Qabs_Qle_condition in E. destruct E as [E1 E2].
  apply Qabs_Qle_condition. split; lra.
Qed.

(** X3. For two weights of the form, the chart of step 4 is drawn exactly
    when [_semanas_para_alvo] is positive, which needs the goal
    ["Emagrecer"] with a target below the weight or ["Ganhar massa"] with a
    target above it.  Its series then has one point per week plus one,
    each of them a double, starts at the current weight, moves in the
    direction of the goal at every step, and ends within 10^-10 kg of the
    target weight. *)
Theorem serie_peso_chart (weight_kg target_weight_kg : Q) (goal : string) :
  representavel weight_kg -> representavel target_weight_kg ->
  30 <= weight_kg <= 300 -> 30 <= target_weight_kg <= 300 ->
  let semanas := _semanas_para_alvo weight_kg target_weight_kg goal in
  match serie_peso weight_kg target_weight_kg goal with
  | None => semanas = 0%Z
  | Some serie =>
      (0 < semanas)%Z
      /\ (goal = "Emagrecer"%string /\ target_weight_kg < weight_kg
          \/ goal = "Ganhar massa"%string /\ weight_kg < target_weight_kg)
      /\ length serie = S (Z.to_nat semanas)
      /\ Forall representavel serie
      /\ (exists primeiro, head serie = Some primeiro /\ primeiro == weight_kg)
      /\ (exists ultimo,
            last serie = Some ultimo
            /\ Qabs (ultimo - target_weight_kg) <= 1 # 10000000000)
      /\ (forall i x y,
            serie !! i = Some x -> serie !! S i = Some y ->
            if decide (goal = "Emagrecer"%string) then y <= x else x <= y)
  end.
Proof.
  intros Hw Ht Hwr Htr semanas. subst semanas. unfold serie_peso.
  destruct pow2_m45_small as [Hu0 Hu1]. pose proof erro_final as Hfin.
  destruct (decide (goal = "Emagrecer"%string)) as [->|H1].
  - rewrite semanas64_emagrecer.
    destruct (Qlt_le_dec target_weight_kg weight_kg) as [Hlt|Hge].
    + destruct (semanas64_positive weight_kg target_weight_kg 0.5 1)
        as (-> & Hn & _); try assumption; try lra; [left; reflexivity|reflexivity|].
      set (n := Qceiling (round64 (round64 (weight_kg - target_weight_kg) / 0.5))) in *.
      assert ((0 <? n)%Z = true) as -> by (apply Z.ltb_lt; lia).
      replace (Z.max n 1) with n by lia.
      destruct (passos_de_volta (weight_kg - target_weight_kg) n) as [Hp0 Hs];
        [lra|lra|exact Hn|].
      cbv zeta in Hp0, Hs.
      set (passo := round64 (round64 (weight_kg - target_weight_kg) / of_int n)) in *.
      set (f := fun i => round64 (weight_kg - round64 (of_int i * passo))).
      destruct (fmap_range_ends f n ltac:(lia)) as (Hl & Hh & Hlast).
      split; [lia|]. split; [left; split; [reflexivity|exact Hlt]|].
      split; [exact Hl|].
      split; [apply Forall_fmap, Forall_forall; intros i _; apply representavel_round|].
      split; [|split].
      * exists (f 0%Z). split; [exact Hh|]. unfold f.
        assert (of_int 0 * passo == 0) as -> by (change (of_int 0) with 0; ring).
        change (round64 0) with 0.
        assert (weight_kg - 0 == weight_kg) as -> by ring. exact Hw.
      * exists (f n). split; [exact Hlast|]. unfold f.
        eapply Qle_trans; [|exact Hfin].
        eapply Qle_trans; [apply (round64_near _ _ (2051 * pow2 (-45)))|]; try lra.
        apply Qabs_Qle_condition in Hs. destruct Hs as [Hs1 Hs2].
        apply Qabs_Qle_condition. split; lra.
      * intros i x y Hx Hy.
        destruct (fmap_range_step f (n + 1) i x y Hx Hy) as [-> ->]. unfold f.
        apply round64_mono.
        assert (round64 (of_int (Z.of_nat i) * passo)
                <= round64 (of_int (Z.of_nat i + 1) * passo)) as Hm; [|lra].
        apply round64_mono. apply Qmult_le_compat_r; [|exact Hp0].
        apply of_int_mono. lia.
    + assert (Qle_bool (round64 (weight_kg - target_weight_kg)) 0 = true) as ->.
      { apply Qle_bool_iff. apply round64_nonpos. lra. }
      reflexivity.
  - destruct (decide (goal = "Ganhar massa"%string)) as [->|H2].
    + rewrite semanas64_ganhar.
      destruct (Qlt_le_dec weight_kg target_weight_kg) as [Hlt|Hge].
      * destruct (semanas64_positive target_weight_kg weight_kg 0.25 2)
          as (-> & Hn & _); try assumption; try lra; [right; reflexivity|reflexivity|].
        set (n := Qceiling (round64 (round64 (target_weight_kg - weight_kg) / 0.25))) in *.
        assert ((0 <? n)%Z = true) as -> by (apply Z.ltb_lt; lia).
        replace (Z.max n 1) with n by lia.
        destruct (passos_de_volta (target_weight_kg - weight_kg) n) as [Hp0 Hs];
          [lra|lra|exact Hn|].
        cbv zeta in Hp0, Hs.
        set (passo := round64 (round64 (target_weight_kg - weight_kg) / of_int n)) in *.
        set (f := fun i => round64 (weight_kg + round64 (of_int i * passo))).
        destruct (fmap_range_ends f n ltac:(lia)) as (Hl & Hh & Hlast).
        split; [lia|]. split; [right; split; [reflexivity|exact Hlt]|].
        split; [exact Hl|].
        split; [apply Forall_fmap, Forall_forall; intros i _; apply representavel_round|].
        split; [|split].
        -- exists (f 0%Z). split; [exact Hh|]. unfold f.
           assert (of_int 0 * passo == 0) as -> by (change (of_int 0) with 0; ring).
           change (round64 0) with 0.
           assert (weight_kg + 0 == weight_kg) as -> by ring. exact Hw.
        -- exists (f n). split; [exact Hlast|]. unfold f.
           eapply Qle_trans; [|exact Hfin].
           eapply Qle_trans; [apply (round64_near _ _ (2051 * pow2 (-45)))|]; try lra.
           apply Qabs_Qle_condition in Hs. destruct Hs as [Hs1 Hs2].
           apply Qabs_Qle_condition. split; lra.
        -- intros i x y Hx Hy.
           destruct (fmap_range_step f (n + 1) i x y Hx Hy) as [-> ->]. unfold f.
           apply round64_mono.
           assert (round64 (of_int (Z.of_nat i) * passo)
                   <= round64 (of_int (Z.of_nat i + 1) * passo)) as Hm; [|lra].
           apply round64_mono. apply Qmult_le_compat_r; [|exact Hp0].
           apply of_int_mono. lia.
      * assert (Qle_bool (round64 (target_weight_kg - weight_kg)) 0 = true) as ->.
        { apply Qle_bool_iff. apply round64_nonpos. lra. }
        reflexivity.
    + rewrite semanas64_outro_objetivo by assumption. reflexivity.
Qed.

Lemma serie_peso_chart_example :
  representavel 80 /\ representavel 75.5
  /\ 30 <= 80 <= 300 /\ 30 <= 75.5 <= 300
  /\ let semanas := _semanas_para_alvo 80 75.5 "Emagrecer" in
     match serie_peso 80 75.5 "Emagrecer" with
     | None => semanas = 0%Z
     | Some serie =>
         (0 < semanas)%Z
         /\ ("Emagrecer"%string = "Emagrecer"%string /\ 75.5 < 80
             \/ "Emagrecer"%string = "Ganhar massa"%string /\ 80 < 75.5)
         /\ length serie = S (Z.to_nat semanas)
         /\ Forall representavel serie
         /\ (exists primeiro, head serie = Some primeiro /\ primeiro == 80)
         /\ (exists ultimo,
               last serie = Some ultimo
               /\ Qabs (ultimo - 75.5) <= 1 # 10000000000)
         /\ (forall i x y,
               serie !! i = Some x -> serie !! S i = Some y ->
               if decide ("Emagrecer"%string = "Emagrecer"%string)
               then y <= x else x <= y)
     end.
Proof.
  assert (representavel 80) as H1 by (vm_compute; reflexivity).
  assert (representavel 75.5) as H2 by (vm_compute; reflexivity).
  assert (30 <= 80 <= 300) as H3 by lra.
  assert (30 <= 75.5 <= 300) as H4 by lra.
  split; [exact H1|]. split; [exact H2|]. split; [exact H3|]. split; [exact H4|].
  exact (serie_peso_chart 80 75.5 "Emagrecer" H1 H2 H3 H4).
Defined.

(** The weights 32.2 and 30.2 of the form are the doubles nearest to these
    decimals, which lie a little more than 2 kg apart: the interpreter
    counts 5 weeks where the decimals give 4; from 64.4 to 63.9 it counts
    2.  From 71.4 to 31.8 the chart has 81 points and ends one unit in the
    last place below the target.  The kernel's floats agree. *)
#[local] Set Warnings "-inexact-float".
Lemma semanas_para_alvo_one_decimal :
  _semanas_para_alvo (round64 32.2) (round64 30.2) "Emagrecer" = 5%Z
  /\ _semanas_para_alvo (round64 64.4) (round64 63.9) "Emagrecer" = 2%Z
  /\ Wizard._semanas_para_alvo 32.2 30.2 "Emagrecer" = 4%Z
  /\ Binary64.to_Q 32.2 = Some (round64 32.2)
  /\ Binary64.to_Q 30.2 = Some (round64 30.2)
  /\ Binary64._semanas_para_alvo 32.2 30.2 "Emagrecer" = Some 5%Z
  /\ Binary64._semanas_para_alvo 64.4 63.9 "Emagrecer" = Some 2%Z
  /\ exists serie ultimo,
       serie_peso (round64 71.4) (round64 31.8) "Emagrecer" = Some serie
       /\ length serie = 81%nat
       /\ last serie = Some ultimo
       /\ ultimo == round64 31.8 - pow2 (-48)
       /\ Binary64.to_Q (Binary64.ultimo_ponto 71.4 31.8 80) = Some ultimo.
Proof.
  split; [vm_compute; reflexivity|]. split; [vm_compute; reflexivity|].
  split; [vm_compute; reflexivity|]. split; [vm_compute; reflexivity|].
  split; [vm_compute; reflexivity|]. split; [vm_compute; reflexivity|].
  split; [vm_compute; reflexivity|].
  eexists _, _. split; [vm_compute; reflexivity|].
  split; [reflexivity|]. split; [reflexivity|].
  split; vm_compute; reflexivity.
Qed.
#[local] Set Warnings "inexact-float".

(** The two readings of [_semanas_para_alvo] agree on when there is
    nothing to do: for doubles, the count of the interpreter is never
    negative and is 0 exactly when the count in exact arithmetic is. *)
Lemma semanas_agree_on_zero (atual meta : Q) (objetivo : string) :
  representavel atual -> representavel meta ->
  (0 <= _semanas_para_alvo atual meta objetivo)%Z
  /\ (_semanas_para_alvo atual meta objetivo = 0%Z
      <-> Wizard._semanas_para_alvo atual meta objetivo = 0%Z).
Proof.
  intros Ha Hm.
  assert (forall maior menor rate,
            representavel maior -> representavel menor -> menor < maior ->
            0 < rate -> rate <= 1 ->
            (1 <= Qceiling (round64 (round64 (maior - menor) / rate)))%Z) as Hpos.
  { intros maior menor rate Hr1 Hr2 Hlt Hrate0 Hrate1.
    pose proof (round64_sub_pos maior menor Hr1 Hr2 Hlt) as Hd.
    pose proof (representavel_round (maior - menor)) as Hrd.
    set (d := round64 (maior - menor)) in *.
    assert (pow2 (-1074) <= d) as Hd'.
    { assert (pow2 (-1074) <= d - 0) as H; [|lra].
      apply representavel_gap; [exact Hrd|apply representavel_0|exact Hd]. }
    assert (d <= d / rate) as Hq.
    { apply Qle_shift_div_l; [exact Hrate0|].
      assert (d * rate <= d * 1) as H; [|lra].
      rewrite !(Qmult_comm d). apply Qmult_le_compat_r; lra. }
    assert (representavel (pow2 (-1074))) as Hr.
    { apply representavel_compat with (inject_Z 1 * pow2 (-1074)); [ring|].
      apply representavel_scaled; lia. }
    unfold representavel in Hr. pose proof (pow2_pos (-1074)) as Hp.
    assert (pow2 (-1074) <= round64 (d / rate)) as Hr'.
    { apply Qle_trans with (round64 (pow2 (-1074))); [rewrite Hr; apply Qle_refl|].
      apply round64_mono. lra. }
    pose proof (Qle_ceiling (round64 (d / rate))) as Hc.
    assert (0 < inject_Z (Qceiling (round64 (d / rate)))) as H0 by lra.
    change 0 with (inject_Z 0) in H0. rewrite <- Zlt_Qlt in H0. lia. }
  destruct (decide (objetivo = "Emagrecer"%string)) as [->|H1].
  - rewrite semanas64_emagrecer, semanas_emagrecer.
    destruct (Qlt_le_dec meta atual) as [Hlt|Hge].
    + pose proof (round64_sub_pos atual meta Ha Hm Hlt) as Hd.
      assert (Qle_bool (round64 (atual - meta)) 0 = false) as ->.
      { apply not_true_iff_false. rewrite Qle_bool_iff. lra. }
      assert (Qle_bool (atual - meta) 0 = false) as ->.
      { apply not_true_iff_false. rewrite Qle_bool_iff. lra. }
      pose proof (Hpos atual meta 0.5 Ha Hm Hlt ltac:(lra) ltac:(lra)) as Hn.
      destruct (ceiling_of_rate (atual - meta) 0.5) as [Hn' _]; [lra|lra|].
      split; [lia|]. split; lia.
    + assert (Qle_bool (round64 (atual - meta)) 0 = true) as ->.
      { apply Qle_bool_iff. apply round64_nonpos. lra. }
      assert (Qle_bool (atual - meta) 0 = true) as -> by (apply Qle_bool_iff; lra).
      split; [lia|tauto].
  - destruct (decide (objetivo = "Ganhar massa"%string)) as [->|H2].
    + rewrite semanas64_ganhar, semanas_ganhar.
      destruct (Qlt_le_dec atual meta) as [Hlt|Hge].
      * pose proof (round64_sub_pos meta atual Hm Ha Hlt) as Hd.
        assert (Qle_bool (round64 (meta - atual)) 0 = false) as ->.
        { apply not_true_iff_false. rewrite Qle_bool_iff. lra. }
        assert (Qle_bool (meta - atual) 0 = false) as ->.
        { apply not_true_iff_false. rewrite Qle_bool_iff. lra. }
        pose proof (Hpos meta atual 0.25 Hm Ha Hlt ltac:(lra) ltac:(lra)) as Hn.
        destruct (ceiling_of_rate (meta - atual) 0.25) as [Hn' _]; [lra|lra|].
        split; [lia|]. split; lia.
      * assert (Qle_bool (round64 (meta - atual)) 0 = true) as ->.
        { apply Qle_bool_iff. apply round64_nonpos. lra. }
        assert (Qle_bool (meta - atual) 0 = true) as -> by (apply Qle_bool_iff; lra).
        split; [lia|tauto].
    + rewrite semanas64_outro_objetivo, semanas_outro_objetivo by assumption.
      split; [lia|tauto].
Qed.

End Wizard64Facts.

(** ** More on the estimates of the wizard *)

Section EstimateFacts.
Import PyNum Onboarding.

Lemma ajustes_lookup (goal : string) :
  ajustes !! goal
  = if decide (goal = "Emagrecer"%string) then Some (-20)%Z
    else if decide (goal = "Ganhar massa"%string) then Some 15%Z
    else if decide (goal = "Manutenção"%string) then Some 0%Z
    else None.
Proof.
  unfold ajustes. repeat case_decide; simplify_map_eq; reflexivity.
Qed.

Lemma step4_fields today dob w h sex atividade goal ajuste :
  ajustes !! goal = Some ajuste ->
  step4 today dob w h sex atividade goal
  = let idade := _idade_from_dob today (Some (default (mk_date 1995 1 1) dob)) in
    Some (mk_estimativas idade (_bmr_mifflin w h idade sex)
            (_tdee w h idade sex atividade)
            (kcal_alvo (_tdee w h idade sex atividade) ajuste)
            (w * 35 / 1000)).
Proof. intros H. unfold step4. rewrite H. reflexivity. Qed.

(** X4. Step 4 of the wizard computes its estimates exactly for the three
    goals of its dictionary; for any other goal the subscript raises
    [KeyError] and nothing is shown. *)
Theorem step4_goal_keys today dob w h sex atividade goal :
  step4 today dob w h sex atividade goal = None
  <-> goal ∉ ["Emagrecer"; "Ganhar massa"; "Manutenção"]%string.
Proof.
  unfold step4. rewrite ajustes_lookup, !not_elem_of_cons.
  repeat case_decide; subst; cbn; split;
    try discriminate; try reflexivity; try tauto.
  intros _. repeat split; try assumption. apply not_elem_of_nil.
Qed.

(** X5. With a positive TDEE the wizard's initial target is 80% of the TDEE
    (below it) for "Emagrecer", 115% (above it) for "Ganhar massa", and the
    TDEE itself for "Manutenção". *)
Theorem step4_target_direction today dob w h sex atividade goal e :
  step4 today dob w h sex atividade goal = Some e ->
  0 < est_tdee e ->
  (goal = "Emagrecer"%string ->
     est_kcal_alvo e == 0.8 * est_tdee e /\ est_kcal_alvo e < est_tdee e)
  /\ (goal = "Ganhar massa"%string ->
     est_kcal_alvo e == 1.15 * est_tdee e /\ est_tdee e < est_kcal_alvo e)
  /\ (goal = "Manutenção"%string -> est_kcal_alvo e == est_tdee e).
Proof.
  intros He Ht.
  destruct (ajustes !! goal) as [ajuste|] eqn:Ea.
  2:{ unfold step4 in He. rewrite Ea in He. discriminate. }
  rewrite (step4_fields _ _ _ _ _ _ _ _ Ea) in He. cbv zeta in He.
  injection He as <-. cbn [est_kcal_alvo est_tdee] in *.
  set (t := _tdee _ _ _ _ _) in *. clearbody t.
  rewrite ajustes_lookup in Ea.
  split; [|split]; intros ->; cbn in Ea; injection Ea as <-;
    unfold kcal_alvo, inject_Z; [split| split|]; lra_div.
Qed.

Lemma step4_target_direction_example :
  exists e,
    step4 (mk_date 2025 6 1) (Some (mk_date 1990 6 2)) 80 180
          "Masculino" "Moderado (3–5x/semana)" "Emagrecer" = Some e
    /\ 0 < est_tdee e
    /\ (("Emagrecer"%string = "Emagrecer"%string ->
          est_kcal_alvo e == 0.8 * est_tdee e /\ est_kcal_alvo e < est_tdee e)
        /\ ("Emagrecer"%string = "Ganhar massa"%string ->
          est_kcal_alvo e == 1.15 * est_tdee e /\ est_tdee e < est_kcal_alvo e)
        /\ ("Emagrecer"%string = "Manutenção"%string ->
          est_kcal_alvo e == est_tdee e)).
Proof.
  eexists. split; [vm_compute; reflexivity|]. split; [vm_compute; reflexivity|].
  apply (step4_target_direction (mk_date 2025 6 1) (Some (mk_date 1990 6 2)) 80 180
           "Masculino" "Moderado (3–5x/semana)" "Emagrecer");
    vm_compute; reflexivity.
Defined.

Lemma fator_atividade_range (txt : string) :
  1.2 <= _fator_atividade txt <= 1.9.
Proof.
  destruct (decide (txt ∈ niveis)) as [Hin|Hout].
  - unfold niveis in Hin. rewrite !elem_of_cons in Hin.
    destruct Hin as [->|[->|[->|[->|[->|Hnil]]]]];
      [..|apply elem_of_nil in Hnil; contradiction];
      split; vm_compute; discriminate.
  - rewrite (fator_atividade_default txt Hout). split; vm_compute; discriminate.
Qed.

(** X6. Every activity text, listed or not, gets a multiplier between 1.2
    and 1.9, so a TDEE computed from a BMR that is not negative lies
    between 1.2 and 1.9 times that BMR. *)
Theorem tdee_between_bounds :
  (forall txt, 1.2 <= _fator_atividade txt <= 1.9)
  /\ (forall kg cm anos sex txt,
        0 <= _bmr_mifflin kg cm anos sex ->
        1.2 * _bmr_mifflin kg cm anos sex <= _tdee kg cm anos sex txt
        /\ _tdee kg cm anos sex txt <= 1.9 * _bmr_mifflin kg cm anos sex).
Proof.
  split; [exact fator_atividade_range|].
  intros kg cm anos sex txt Hb. unfold _tdee.
  destruct (fator_atividade_range txt) as [Hlo Hhi].
  set (b := _bmr_mifflin kg cm anos sex) in *.
  set (f := _fator_atividade txt) in *.
  split.
  - rewrite (Qmult_comm 1.2 b).
    apply Qmult_le_compat_nonneg; split; lra.
  - rewrite (Qmult_comm 1.9 b).
    apply Qmult_le_compat_nonneg; split; lra.
Qed.

(** X7. For the weights and heights the forms accept (30 to 300 kg, 120 to
    230 cm) and an age from 0 to 100 years, the BMR lies between 389 and
    4442.5 kcal/day whatever the sex: it is positive, so the TDEE and the
    targets derived from it are positive too. *)
Theorem bmr_bounds_in_form_ranges (kg cm : Q) (anos : Z) (sex : string) :
  30 <= kg <= 300 -> 120 <= cm <= 230 -> (0 <= anos <= 100)%Z ->
  389 <= _bmr_mifflin kg cm anos sex <= 4442.5.
Proof.
  intros Hk Hc Ha.
  assert (0 <= inject_Z anos <= 100) as Hq.
  { change 0 with (inject_Z 0). change 100 with (inject_Z 100).
    rewrite <- !Zle_Qle. exact Ha. }
  unfold _bmr_mifflin. rewrite inject_Z_5_mult.
  set (a := inject_Z anos) in *. clearbody a.
  destruct (decide (sex = "Masculino"%string)); unfold inject_Z; lra.
Qed.

Lemma bmr_bounds_in_form_ranges_example :
  (30 <= 75 <= 300) /\ (120 <= 175 <= 230) /\ (0 <= 30 <= 100)%Z
  /\ 389 <= _bmr_mifflin 75 175 30 "Feminino" <= 4442.5.
Proof.
  assert (30 <= 75 <= 300) as H1 by (split; vm_compute; discriminate).
  assert (120 <= 175 <= 230) as H2 by (split; vm_compute; discriminate).
  assert (0 <= 30 <= 100)%Z as H3 by lia.
  split; [exact H1|]. split; [exact H2|]. split; [exact H3|].
  exact (bmr_bounds_in_form_ranges 75 175 30 "Feminino" H1 H2 H3).
Defined.

(** X8. The age is not negative exactly when the date of birth is not after
    today, and on the [n]-th anniversary of the date of birth it is [n]. *)
Theorem idade_from_dob_birthdays :
  (forall today d, (0 <= _idade_from_dob today (Some d))%Z <-> date_le d today)
  /\ (forall d n, _idade_from_dob (anniversary d n) (Some d) = n).
Proof.
  split.
  - intros today d.
    destruct (idade_from_dob_cases today d) as [[Hp ->]|[Hp ->]];
      revert Hp; unfold precedes, date_le; cbn [fst snd]; lia.
  - intros d n.
    destruct (idade_from_dob_cases (anniversary d n) d) as [[Hp ->]|[Hp ->]];
      revert Hp; unfold precedes, anniversary; cbn [fst snd year month day]; lia.
Qed.

End EstimateFacts.

(** ** The account page: plan status and nutrition payload *)

Section PerfilFacts.
Import PyNum FoodAI Perfil.

Lemma py_min_1_py_max_0 (x : Q) :
  0 <= py_min 1.0 (py_max 0.0 x) <= 1
  /\ (0 <= x <= 1 -> py_min 1.0 (py_max 0.0 x) == x).
Proof.
  unfold py_min, py_max.
  destruct (Qlt_bool 0.0 x) eqn:E0.
  - apply Qlt_bool_true in E0.
    destruct (Qlt_bool x 1.0) eqn:E1.
    + apply Qlt_bool_true in E1. split; [lra|intros _; reflexivity].
    + apply Qlt_bool_false in E1. split; [lra|intros H; lra].
  - apply Qlt_bool_false in E0.
    assert (Qlt_bool 0.0 1.0 = true) as -> by reflexivity.
    split; [lra|intros H; lra].
Qed.



(** X11. The value handed to the progress bar of the plan is always
    between 0 and 1, and the days left are never negative, also for dates
    out of order; inside the period the bar shows the share of the days
    gone. *)
Theorem plan_progress_bar :
  (forall d_hoje d_inicio d_fim,
     let st := status_do_plano d_hoje d_inicio d_fim in
     0 <= barra st <= 1 /\ (0 <= restantes st)%Z /\ (0 <= passados st)%Z)
  /\ (forall d_hoje d_inicio d_fim,
        (d_inicio <= d_hoje <= d_fim)%Z -> (d_inicio < d_fim)%Z ->
        barra (status_do_plano d_hoje d_inicio d_fim)
        == inject_Z (d_hoje - d_inicio) / inject_Z (d_fim - d_inicio))
  /\ (forall d_hoje d_inicio d_fim,
        (d_fim <= d_inicio)%Z ->
        barra (status_do_plano d_hoje d_inicio d_fim) == 0).
Proof.
  split; [|split].
  - intros d_hoje d_inicio d_fim st. subst st.
    cbn [status_do_plano barra restantes passados].
    split; [apply py_min_1_py_max_0|lia].
  - intros d_hoje d_inicio d_fim H1 H2.
    cbn [status_do_plano barra].
    assert ((0 <? d_fim - d_inicio)%Z = true) as -> by (apply Z.ltb_lt; lia).
    replace (Z.max 0 (Z.min d_hoje d_fim - d_inicio)) with (d_hoje - d_inicio)%Z
      by lia.
    apply py_min_1_py_max_0.
    assert (0 < inject_Z (d_fim - d_inicio)) as Hpos.
    { change 0 with (inject_Z 0). rewrite <- Zlt_Qlt. lia. }
    split.
    + apply Qle_shift_div_l; [exact Hpos|].
      rewrite Qmult_0_l. change 0 with (inject_Z 0). rewrite <- Zle_Qle. lia.
    + apply Qle_shift_div_r; [exact Hpos|].
      rewrite Qmult_1_l. rewrite <- Zle_Qle. lia.
  - intros d_hoje d_inicio d_fim H. cbn [status_do_plano barra].
    assert ((0 <? d_fim - d_inicio)%Z = false) as -> by (apply Z.ltb_ge; lia).
    reflexivity.
Qed.

(** X12. The payload the account form sends for the nutrition table always
    carries the user id, carries a height or a weight exactly when the
    typed number is not 0, with that number, and carries no other key: a
    field left at 0 never overwrites a stored value. *)
Theorem nutrition_payload_keys (uid : string) (altura_in peso_in : Q) :
  let payload := payload_do_formulario uid altura_in peso_in in
  payload !! "user_id"%string = Some (JStr uid)
  /\ (payload !! "height_cm"%string
      = if Qeq_bool altura_in 0 then None else Some (JFloat (Fin altura_in)))
  /\ (payload !! "weight_kg"%string
      = if Qeq_bool peso_in 0 then None else Some (JFloat (Fin peso_in)))
  /\ (forall k, k ∉ ["user_id"; "height_cm"; "weight_kg"]%string ->
        payload !! k = None).
Proof.
  intros payload. subst payload.
  unfold payload_do_formulario, payload_nutrition, ou_none.
  destruct (Qeq_bool altura_in 0), (Qeq_bool peso_in 0);
    (split; [|split; [|split]]); try (simplify_map_eq; reflexivity);
    intros k Hk; rewrite !not_elem_of_cons in Hk;
    destruct Hk as (? & ? & ? & _); simplify_map_eq; reflexivity.
Qed.

End PerfilFacts.

(** ** The food diary: rows, totals and progress *)

Section DiarioFacts.
Import PyNum Float64 FoodAI Perfil Diario.

Lemma ou_none_Some (x y : Q) : ou_none x = Some y -> y = x /\ ~ x == 0.
Proof.
  unfold ou_none. destruct (Qeq_bool x 0) eqn:E; [discriminate|].
  intros H. injection H as <-. split; [reflexivity|apply Qeq_bool_neq, E].
Qed.

Lemma ou_none_None (x : Q) : ou_none x = None -> x == 0.
Proof.
  unfold ou_none. destruct (Qeq_bool x 0) eqn:E; [|discriminate].
  intros _. apply Qeq_bool_eq, E.
Qed.

Lemma kcal_val_cases (kcal p c f : Q) :
  (0 < kcal /\ kcal_val kcal p c f = kcal)
  \/ (kcal <= 0 /\ kcal_val kcal p c f = p * 4 + c * 4 + f * 9).
Proof.
  unfold kcal_val. destruct (Qlt_bool 0 kcal) eqn:E.
  - apply Qlt_bool_true in E. left. split; [exact E|].
    destruct (Qeq_bool kcal 0) eqn:E0; [|reflexivity].
    apply Qeq_bool_eq in E0. lra.
  - apply Qlt_bool_false in E. right. split; [exact E|].
    rewrite andb_false_r. reflexivity.
Qed.

(** X13. For amounts that are not negative, the row of a typed meal stores
    calories that are positive or stores none: the typed calories when they
    are positive, otherwise 4 kcal per gram of protein and of carbohydrate
    and 9 per gram of fat; it stores none only when calories and the three
    macros are all 0. *)
Theorem refeicao_kcal (meal_type description : string)
    (qty_g kcal protein_g carbs_g fat_g : Q) :
  0 <= kcal -> 0 <= protein_g -> 0 <= carbs_g -> 0 <= fat_g ->
  match l_kcal (refeicao meal_type description qty_g kcal protein_g carbs_g fat_g) with
  | Some k =>
      0 < k
      /\ (0 < kcal -> k = kcal)
      /\ (kcal == 0 -> k = protein_g * 4 + carbs_g * 4 + fat_g * 9)
  | None => kcal == 0 /\ protein_g == 0 /\ carbs_g == 0 /\ fat_g == 0
  end.
Proof.
  intros Hk Hp Hc Hf. cbn [refeicao l_kcal].
  destruct (ou_none (kcal_val kcal protein_g carbs_g fat_g)) as [k|] eqn:E.
  - apply ou_none_Some in E. destruct E as [-> Hne].
    destruct (kcal_val_cases kcal protein_g carbs_g fat_g) as [[H He]|[H He]];
      rewrite He in *.
    + split; [exact H|]. split; [reflexivity|]. intros H0. exfalso. lra.
    + split; [|split; [intros H0; exfalso; lra|reflexivity]].
      destruct (Qlt_le_dec 0 (protein_g * 4 + carbs_g * 4 + fat_g * 9)) as [Hpos|Hle];
        [exact Hpos|].
      exfalso. apply Hne. lra.
  - apply ou_none_None in E.
    destruct (kcal_val_cases kcal protein_g carbs_g fat_g) as [[H He]|[H He]];
      rewrite He in E; lra.
Qed.

Lemma refeicao_kcal_example :
  0 <= 0 /\ 0 <= 30 /\ 0 <= 50 /\ 0 <= 10
  /\ match l_kcal (refeicao "Almoço" " frango e arroz " 300 0 30 50 10) with
     | Some k =>
         0 < k /\ (0 < 0 -> k = 0) /\ (0 == 0 -> k = 30 * 4 + 50 * 4 + 10 * 9)
     | None => 0 == 0 /\ 30 == 0 /\ 50 == 0 /\ 10 == 0
     end.
Proof.
  assert (0 <= 0) as H0 by apply Qle_refl.
  assert (0 <= 30) as H1 by (vm_compute; discriminate).
  assert (0 <= 50) as H2 by (vm_compute; discriminate).
  assert (0 <= 10) as H3 by (vm_compute; discriminate).
  split; [exact H0|]. split; [exact H1|]. split; [exact H2|]. split; [exact H3|].
  exact (refeicao_kcal "Almoço" " frango e arroz " 300 0 30 50 10 H0 H1 H2 H3).
Defined.


(** The ten names of the local table. *)
Lemma local_db_names (food_q : string) :
  is_Some (_LOCAL_DB !! food_q)
  <-> food_q ∈ [ "frango grelhado"; "arroz branco"; "arroz integral";
                 "feijão cozido"; "batata doce coz."; "ovo cozido";
                 "aveia (flocos)"; "abacate"; "banana prata";
                 "pão francês" ]%string.
Proof.
  unfold _LOCAL_DB. rewrite !elem_of_cons.
  rewrite !lookup_insert_is_Some, lookup_empty, is_Some_alt.
  pose proof (elem_of_nil food_q). intuition congruence.
Qed.

(** The numbers of the table lie between 0 and 400. *)
Lemma local_db_range (food_q : string) (info : por_100g) :
  _LOCAL_DB !! food_q = Some info ->
  0 <= inject_Z (d_kcal info) <= 400
  /\ 0 <= d_p info <= 400 /\ 0 <= d_c info <= 400 /\ 0 <= d_f info <= 400.
Proof.
  unfold _LOCAL_DB. rewrite !lookup_insert_Some, lookup_empty. intros H.
  repeat (destruct H as [[_ <-]|[_ H]];
          [cbn [d_kcal d_p d_c d_f]; repeat split; vm_compute; discriminate|]).
  discriminate.
Qed.

Lemma Qabs_mult_bound (a b A B : Q) :
  Qabs a <= A -> Qabs b <= B -> Qabs (a * b) <= A * B.
Proof.
  intros Ha Hb. rewrite Qabs_Qmult.
  apply Qmult_le_compat_nonneg; split; try assumption; apply Qabs_nonneg.
Qed.

Lemma erro_escala :
  pow2 (-38) + 401 * pow2 (-47) + pow2 (-45) * 100 <= 1 # 100000000000.
Proof. vm_compute. discriminate. Qed.

(** A number of the table times the rounded hundredth of the grams: it is
    not negative and it is the exact proportion up to the rounding of the
    literal, of the division and of the product. *)
Lemma escala (v g : Q) :
  0 <= v <= 400 -> 0 <= g <= 10000 ->
  let x := round64 (round64 v * round64 (g / 100.0)) in
  0 <= x /\ Qabs (x - v * g / 100) <= 1 # 100000000000.
Proof.
  intros Hv Hg x. pose proof erro_escala as Hfin.
  assert (0 < pow2 (-45) /\ pow2 (-45) <= 1 # 1000) as [Hu0 Hu1]
    by (split; [apply pow2_pos | vm_compute; discriminate]).
  assert (0 < pow2 (-47) /\ pow2 (-47) <= 1 # 1000) as [Hw0 Hw1]
    by (split; [apply pow2_pos | vm_compute; discriminate]).
  set (f := g / 100.0).
  assert (f == g * (1 # 100)) as Hfg by (unfold f; field).
  assert (0 <= f /\ f <= 100) as [Hf0 Hf1] by (split; lra).
  set (V := round64 v) in *. set (F := round64 f) in *.
  assert (Qabs (V - v) <= pow2 (-45)) as E1.
  { apply (round64_err v 9); [lia|]. rewrite Qabs_pos by lra.
    change (pow2 9) with 512. lra. }
  assert (Qabs (F - f) <= pow2 (-47)) as E2.
  { apply (round64_err f 7); [lia|]. rewrite Qabs_pos by lra.
    change (pow2 7) with 128. lra. }
  assert (0 <= V) as HV0 by (apply round64_nonneg; lra).
  assert (0 <= F) as HF0 by (apply round64_nonneg; lra).
  assert (V <= 401 /\ F <= 101) as [HV1 HF1].
  { apply Qabs_Qle_condition in E1, E2. split; lra. }
  assert (0 <= V * F) as HP0 by (apply Qmult_le_0_compat; assumption).
  assert (V * F <= 401 * 101) as HP1.
  { apply Qmult_le_compat_nonneg; split; assumption. }
  assert (Qabs (x - V * F) <= pow2 (-38)) as E3.
  { apply (round64_err (V * F) 16); [lia|]. rewrite Qabs_pos by exact HP0.
    change (pow2 16) with 65536. lra. }
  assert (Qabs (V * (F - f)) <= 401 * pow2 (-47)) as E4.
  { apply Qabs_mult_bound; [rewrite Qabs_pos by exact HV0; exact HV1 | exact E2]. }
  assert (Qabs ((V - v) * f) <= pow2 (-45) * 100) as E5.
  { apply Qabs_mult_bound; [exact E1 | rewrite Qabs_pos by exact Hf0; exact Hf1]. }
  split; [apply round64_nonneg; exact HP0|].
  assert (x - v * g / 100 == (x - V * F) + V * (F - f) + (V - v) * f) as ->.
  { unfold f. field. }
  apply Qabs_Qle_condition in E3, E4, E5.
  apply Qabs_Qle_condition. split; lra.
Qed.

Lemma escala_mono (v g1 g2 : Q) :
  0 <= v -> g1 <= g2 ->
  round64 (round64 v * round64 (g1 / 100.0))
  <= round64 (round64 v * round64 (g2 / 100.0)).
Proof.
  intros Hv Hg. apply round64_mono.
  rewrite !(Qmult_comm (round64 v)).
  apply Qmult_le_compat_r; [|apply round64_nonneg; exact Hv].
  apply round64_mono. apply Qmult_le_compat_r; [exact Hg|]. vm_compute. discriminate.
Qed.

(** X15. A quick food is added exactly for the ten names of the local
    table (any other name raises).  For up to 10 kg of a food, each number
    of the row (calories, protein, carbohydrate, fat) is a double, is not
    negative and is the number of the table times grams/100 up to 10^-11,
    the rounding of the interpreter; and more grams of a food never give a
    smaller number. *)
Theorem alimento_rapido_portions :
  (forall food_q grams_q meal_q,
     is_Some (alimento_rapido food_q grams_q meal_q)
     <-> food_q ∈ [ "frango grelhado"; "arroz branco"; "arroz integral";
                    "feijão cozido"; "batata doce coz."; "ovo cozido";
                    "aveia (flocos)"; "abacate"; "banana prata";
                    "pão francês" ]%string)
  /\ (forall food_q info grams_q meal_q,
        _LOCAL_DB !! food_q = Some info -> 0 <= grams_q <= 10000 ->
        exists k p c f,
          alimento_rapido food_q grams_q meal_q
          = Some (mk_linha meal_q (Some food_q) (Some grams_q) (Some k)
                           (Some p) (Some c) (Some f))
          /\ Forall representavel [k; p; c; f]
          /\ 0 <= k /\ 0 <= p /\ 0 <= c /\ 0 <= f
          /\ Qabs (k - inject_Z (d_kcal info) * grams_q / 100) <= 1 # 100000000000
          /\ Qabs (p - d_p info * grams_q / 100) <= 1 # 100000000000
          /\ Qabs (c - d_c info * grams_q / 100) <= 1 # 100000000000
          /\ Qabs (f - d_f info * grams_q / 100) <= 1 # 100000000000)
  /\ (forall food_q g1 g2 meal_q l1 l2,
        alimento_rapido food_q g1 meal_q = Some l1 ->
        alimento_rapido food_q g2 meal_q = Some l2 ->
        g1 <= g2 ->
        forall col, col ∈ [l_kcal; l_protein_g; l_carbs_g; l_fat_g] ->
          exists v1 v2, col l1 = Some v1 /\ col l2 = Some v2 /\ v1 <= v2).
Proof.
  split; [|split].
  - intros food_q grams_q meal_q. rewrite <- local_db_names.
    unfold alimento_rapido.
    destruct (_LOCAL_DB !! food_q); cbn; split; intros [x Hx]; eauto; discriminate.
  - intros food_q info grams_q meal_q Hinfo Hg. unfold alimento_rapido.
    rewrite Hinfo. cbn [mbind option_bind].
    destruct (local_db_range food_q info Hinfo) as (Hk & Hp & Hc & Hf).
    destruct (escala (inject_Z (d_kcal info)) grams_q Hk Hg) as [Hk0 Hk1].
    destruct (escala (d_p info) grams_q Hp Hg) as [Hp0 Hp1].
    destruct (escala (d_c info) grams_q Hc Hg) as [Hc0 Hc1].
    destruct (escala (d_f info) grams_q Hf Hg) as [Hf0 Hf1].
    eexists _, _, _, _. split; [reflexivity|].
    split; [repeat constructor; apply representavel_round|].
    repeat split; assumption.
  - intros food_q g1 g2 meal_q l1 l2. unfold alimento_rapido.
    destruct (_LOCAL_DB !! food_q) as [info|] eqn:Hinfo; [|discriminate].
    cbn [mbind option_bind]. intros H1 H2 Hg. injection H1 as <-. injection H2 as <-.
    destruct (local_db_range food_q info Hinfo) as (Hk & Hp & Hc & Hf).
    intros col Hcol. rewrite !elem_of_cons in Hcol.
    destruct Hcol as [->|[->|[->|[->|Hnil]]]];
      [..|apply elem_of_nil in Hnil; contradiction];
      eexists _, _; (split; [reflexivity|]); (split; [reflexivity|]);
      apply escala_mono; tauto.
Qed.

Lemma alimento_rapido_portions_example :
  _LOCAL_DB !! "frango grelhado"%string = Some (mk_por_100g 165 31.0 0.0 3.6)
  /\ 0 <= 35 <= 10000
  /\ exists k p c f,
       alimento_rapido "frango grelhado" 35 "Almoço"
       = Some (mk_linha "Almoço" (Some "frango grelhado"%string) (Some 35) (Some k)
                        (Some p) (Some c) (Some f))
       /\ Forall representavel [k; p; c; f]
       /\ 0 <= k /\ 0 <= p /\ 0 <= c /\ 0 <= f
       /\ Qabs (k - inject_Z 165 * 35 / 100) <= 1 # 100000000000
       /\ Qabs (p - 31.0 * 35 / 100) <= 1 # 100000000000
       /\ Qabs (c - 0.0 * 35 / 100) <= 1 # 100000000000
       /\ Qabs (f - 3.6 * 35 / 100) <= 1 # 100000000000.
Proof.
  assert (_LOCAL_DB !! "frango grelhado"%string = Some (mk_por_100g 165 31.0 0.0 3.6))
    as H1 by (vm_compute; reflexivity).
  assert (0 <= 35 <= 10000) as H2 by lra.
  split; [exact H1|]. split; [exact H2|].
  exact (proj1 (proj2 alimento_rapido_portions) "frango grelhado"%string
           (mk_por_100g 165 31.0 0.0 3.6) 35 "Almoço"%string H1 H2).
Defined.

(** The rounding shows: 5 g and 30 g of grilled chicken add up to 57.75
    kcal, 35 g in one row to the double just below it. *)
Lemma alimento_rapido_not_additive :
  exists l5 l30 l35 k5 k30 k35,
    alimento_rapido "frango grelhado" 5 "Almoço" = Some l5
    /\ alimento_rapido "frango grelhado" 30 "Almoço" = Some l30
    /\ alimento_rapido "frango grelhado" 35 "Almoço" = Some l35
    /\ l_kcal l5 = Some k5 /\ l_kcal l30 = Some k30 /\ l_kcal l35 = Some k35
    /\ round64 (k5 + k30) == 57.75
    /\ k35 == 57.75 - pow2 (-47)
    /\ Binary64.to_Q (Binary64.por_gramas 165 5 + Binary64.por_gramas 165 30)
       = Some (round64 (k5 + k30))
    /\ Binary64.to_Q (Binary64.por_gramas 165 35) = Some k35.
Proof.
  eexists _, _, _, _, _, _.
  split; [vm_compute; reflexivity|]. split; [vm_compute; reflexivity|].
  split; [vm_compute; reflexivity|]. split; [reflexivity|].
  split; [reflexivity|]. split; [reflexivity|].
  split; [vm_compute; reflexivity|]. split; [vm_compute; reflexivity|].
  split; vm_compute; reflexivity.
Qed.

End DiarioFacts.

(** ** The recipes page: plan gating and the time filter *)

Section ReceitasFacts.
Import PyNum FoodAI Receitas.

Lemma filter_split_perm {A : Type} (f : A -> bool) (l : list A) :
  List.filter f l ++ List.filter (fun x => negb (f x)) l ≡ₚ l.
Proof.
  induction l as [|a l IH]; cbn; [reflexivity|].
  destruct (f a); cbn.
  - constructor. exact IH.
  - rewrite <- Permutation_middle. constructor. exact IH.
Qed.

Lemma filter_sublist {A : Type} (f : A -> bool) (l : list A) :
  List.filter f l `sublist_of` l.
Proof.
  induction l as [|a l IH]; cbn; [constructor|].
  destruct (f a); [apply sublist_skip | apply sublist_cons]; exact IH.
Qed.

(** X16. The recipes page shows every recipe of its list exactly once,
    open or locked, in the order of the list.  With the plan ["FIEL"]
    all are open; with any other plan, or none in the session, the open
    ones are exactly those whose [degustacao_gratis] is truthy, so a
    recipe that is not a free sample is never shown open. *)
Theorem gating_partition (plan_id : option string) (rows : list receita) :
  let visiveis := (gating plan_id rows).1 in
  let bloqueadas := (gating plan_id rows).2 in
  visiveis ++ bloqueadas ≡ₚ rows
  /\ visiveis `sublist_of` rows /\ bloqueadas `sublist_of` rows
  /\ (plan_id = Some "FIEL"%string -> visiveis = rows /\ bloqueadas = [])
  /\ (plan_id <> Some "FIEL"%string ->
      forall r,
        (r ∈ visiveis <-> r ∈ rows /\ truthy (campo r "degustacao_gratis") = true)
        /\ (r ∈ bloqueadas
            <-> r ∈ rows /\ truthy (campo r "degustacao_gratis") = false)).
Proof.
  intros visiveis bloqueadas. subst visiveis bloqueadas. unfold gating.
  destruct (bool_decide (default "DISCIPULO"%string plan_id = "FIEL"%string)) eqn:E.
  - apply bool_decide_eq_true in E. cbn [fst snd].
    rewrite app_nil_r. split; [reflexivity|]. split; [reflexivity|].
    split; [apply sublist_nil_l|]. split; [intros _; split; reflexivity|].
    intros Hne. exfalso. apply Hne.
    destruct plan_id as [p|]; cbn in E; [congruence|discriminate].
  - apply bool_decide_eq_false in E. cbn [fst snd].
    split; [apply filter_split_perm|]. split; [apply filter_sublist|].
    split; [apply filter_sublist|]. split.
    + intros ->. exfalso. apply E. reflexivity.
    + intros _ r. rewrite !list_elem_of_In, !filter_In, negb_true_iff. tauto.
Qed.

Lemma so_rapidas_spec (rows : list receita) :
  forall kept,
    so_rapidas rows = Some kept ->
    kept `sublist_of` rows
    /\ Forall (fun r => is_Some (ate_15_min r)) rows
    /\ forall r, r ∈ kept <-> r ∈ rows /\ ate_15_min r = Some true.
Proof.
  induction rows as [|r0 rows IH]; intros kept H; cbn in H.
  - injection H as <-. split; [constructor|]. split; [constructor|].
    intros r. rewrite elem_of_nil. tauto.
  - destruct (ate_15_min r0) as [b|] eqn:Eb; [|discriminate]. cbn in H.
    destruct (so_rapidas rows) as [kept'|] eqn:Ek; [|discriminate]. cbn in H.
    injection H as <-. destruct (IH kept' eq_refl) as (Hs & Hf & Hin).
    split; [destruct b; [apply sublist_skip|apply sublist_cons]; exact Hs|].
    split; [constructor; [rewrite Eb; eauto|exact Hf]|].
    intros r. destruct b; rewrite ?elem_of_cons, Hin, ?elem_of_cons.
    + split; [intros [->|[? ?]]; eauto|intros [[->|?] ?]; eauto].
    + split; [intros [? ?]; eauto|].
      intros [[->|?] ?]; [congruence|eauto].
Qed.

Lemma so_rapidas_raises (rows : list receita) :
  so_rapidas rows = None <-> Exists (fun r => ate_15_min r = None) rows.
Proof.
  induction rows as [|r0 rows IH]; cbn.
  - split; [discriminate|]. intros H. inversion H.
  - rewrite Exists_cons. destruct (ate_15_min r0) as [b|] eqn:Eb; cbn.
    + destruct (so_rapidas rows) as [kept|] eqn:Ek; cbn.
      * split; [discriminate|]. intros [H|H]; [discriminate|].
        apply IH in H. discriminate.
      * split; [intros _; right; apply IH; reflexivity|reflexivity].
    + split; [intros _; left; reflexivity|reflexivity].
Qed.

(** The rows the comparison keeps and the rows on which it raises, by the
    value of [tempo_min]. *)
Lemma ate_15_min_cases (r : receita) :
  (ate_15_min r = Some true
   <-> match campo r "tempo_min" with
       | JNull | JBool _ => True
       | JInt z => (z <= 15)%Z
       | JFloat (Fin q) => q <= 15
       | JFloat NegInf => True
       | JFloat PosInf | JFloat NaN => False
       | JStr s => s = EmptyString
       | JList l => l = []
       | JDict m => m = ∅
       end)
  /\ (ate_15_min r = None
      <-> match campo r "tempo_min" with
          | JStr s => s <> EmptyString
          | JList l => l <> []
          | JDict m => m <> ∅
          | _ => False
          end).
Proof.
  unfold ate_15_min, py_or.
  destruct (campo r "tempo_min") as [|b|z|x|s|l|m]; cbn [truthy].
  - split; [tauto|]. split; [discriminate|tauto].
  - destruct b; (split; [tauto|]); split; (discriminate || tauto).
  - destruct (Z.eqb_spec z 0) as [->|Hz]; cbn [negb].
    + split; [split; [lia|reflexivity]|]. split; [discriminate|tauto].
    + split; [|split; [discriminate|tauto]].
      split; [intros H; injection H as H; apply Z.leb_le, H|].
      intros H. f_equal. apply Z.leb_le, H.
  - destruct x as [q| | |]; cbn [negb].
    + destruct (Qeq_bool q 0) eqn:E; cbn [negb].
      * apply Qeq_bool_iff in E.
        split; [split; [lra|reflexivity]|]. split; [discriminate|tauto].
      * split; [|split; [discriminate|tauto]].
        cbn [fleb flt].
        split.
        -- intros H. injection H as H. apply negb_true_iff in H.
           apply Qlt_bool_false in H. exact H.
        -- intros H. f_equal. apply negb_true_iff. apply Qlt_bool_false. exact H.
    + split; [split; [discriminate|tauto]|]. split; [discriminate|tauto].
    + split; [tauto|]. split; [discriminate|tauto].
    + split; [split; [discriminate|tauto]|]. split; [discriminate|tauto].
  - destruct s as [|a s].
    + split; [tauto|]. split; [discriminate|congruence].
    + split; [split; discriminate|]. split; [discriminate|reflexivity].
  - destruct l as [|a l].
    + split; [tauto|]. split; [discriminate|congruence].
    + split; [split; discriminate|]. split; [discriminate|reflexivity].
  - destruct (map_to_list m) as [|kv kvs] eqn:E.
    + apply map_to_list_empty_iff in E. subst m.
      split; [tauto|]. split; [discriminate|congruence].
    + assert (m <> ∅) as Hne.
      { intros ->. rewrite map_to_list_empty in E. discriminate. }
      split; [split; [discriminate|contradiction]|]. split; [intros _; exact Hne|reflexivity].
Qed.

(** X17. With "Até 15 min" on, the page keeps, in their order, exactly the
    recipes whose [tempo_min] is a number of at most 15 (an [int], a
    [float], [True] or [False]) or is falsy: missing, [null], an empty
    string, list or dictionary, which count as 0.  A [NaN] or an infinite
    time above is dropped.  The filter raises exactly when one row has a
    time that is a non-empty string, list or dictionary.  With the toggle
    off the rows are unchanged. *)
Theorem filtro_tempo_keeps_quick :
  let rapida (r : receita) : Prop :=
    match campo r "tempo_min" with
    | JNull | JBool _ => True
    | JInt z => (z <= 15)%Z
    | JFloat (Fin q) => q <= 15
    | JFloat NegInf => True
    | JFloat PosInf | JFloat NaN => False
    | JStr s => s = EmptyString
    | JList l => l = []
    | JDict m => m = ∅
    end in
  let invalida (r : receita) : Prop :=
    match campo r "tempo_min" with
    | JStr s => s <> EmptyString
    | JList l => l <> []
    | JDict m => m <> ∅
    | _ => False
    end in
  (forall rows, filtro_tempo false rows = Some rows)
  /\ (forall rows kept,
        filtro_tempo true rows = Some kept ->
        kept `sublist_of` rows
        /\ forall r, r ∈ kept <-> r ∈ rows /\ rapida r)
  /\ (forall rows, filtro_tempo true rows = None <-> Exists invalida rows).
Proof.
  intros rapida invalida.
  split; [reflexivity|].
  split.
  - intros rows kept H. destruct (so_rapidas_spec rows kept H) as (Hs & _ & Hin).
    split; [exact Hs|]. intros r. rewrite Hin. unfold rapida.
    rewrite (proj1 (ate_15_min_cases r)). reflexivity.
  - intros rows. cbn [filtro_tempo]. rewrite so_rapidas_raises.
    unfold invalida. split; intros H; eapply Exists_impl; try exact H;
      intros r Hr; apply (proj2 (ate_15_min_cases r)); exact Hr.
Qed.

End ReceitasFacts.

(** ** Image URLs from the storage *)

Section StorageFacts.
Import FoodAI Texto Storage.

Lemma append_assoc (a b c : string) : (a +:+ b) +:+ c = a +:+ (b +:+ c).
Proof.
  induction a as [|x a IH]; [reflexivity|].
  change (String x ((a +:+ b) +:+ c) = String x (a +:+ b +:+ c)).
  rewrite IH. reflexivity.
Qed.

Lemma cut_without_slash (s : string) :
  ocorre "/" s = false -> cut_at_last_slash s = None.
Proof.
  induction s as [|c s IH]; cbn [ocorre cut_at_last_slash]; [reflexivity|].
  intros H. apply orb_false_iff in H. destruct H as [Hc Hs].
  rewrite (IH Hs). unfold is_slash. rewrite Hc. reflexivity.
Qed.

Lemma cut_folder_name (folder name : string) :
  ocorre "/" name = false ->
  cut_at_last_slash (folder +:+ "/" +:+ name) = Some (folder +:+ "/", name).
Proof.
  intros Hn. induction folder as [|c folder IH].
  - change (cut_at_last_slash (String "/" name) = Some ("/"%string, name)).
    cbn [cut_at_last_slash]. rewrite (cut_without_slash name Hn). reflexivity.
  - change (cut_at_last_slash (String c (folder +:+ "/" +:+ name))
            = Some (String c (folder +:+ "/"), name)).
    cbn [cut_at_last_slash]. rewrite IH. reflexivity.
Qed.

Lemma folder_slash_not_all_slashes (folder : string) (c : ascii) :
  last_char folder = Some c -> is_slash c = false ->
  all_slashes (folder +:+ "/") = false
  /\ rstrip_slashes (folder +:+ "/") = folder.
Proof.
  revert c. induction folder as [|a folder IH]; intros c Hl Hc; [discriminate|].
  destruct folder as [|b folder].
  - cbn in Hl. injection Hl as ->. split.
    + change (all_slashes (String c "/") = false).
      cbn [all_slashes]. rewrite Hc. reflexivity.
    + change (rstrip_slashes (String c "/") = String c "").
      cbn [rstrip_slashes]. rewrite Hc. reflexivity.
  - change (last_char (String a (String b folder)))
      with (last_char (String b folder)) in Hl.
    destruct (IH c Hl Hc) as [Ha Hr].
    change (String a (String b folder) +:+ "/")
      with (String a (String b folder +:+ "/")).
    cbn [all_slashes rstrip_slashes]. rewrite Ha, Hr. cbn [is_empty].
    rewrite !andb_false_r. split; reflexivity.
Qed.

(** [os.path.split] undoes the join of a folder and a name: for a folder
    that does not end in a slash and a name without slashes. *)
Lemma posix_split_join (folder name : string) (c : ascii) :
  last_char folder = Some c -> is_slash c = false ->
  ocorre "/" name = false ->
  posix_split (folder +:+ "/" +:+ name) = (folder, name).
Proof.
  intros Hl Hc Hn. unfold posix_split. rewrite (cut_folder_name folder name Hn).
  destruct (folder_slash_not_all_slashes folder c Hl Hc) as [-> ->]. reflexivity.
Qed.

Lemma posix_split_plain (name : string) :
  ocorre "/" name = false -> posix_split name = (EmptyString, name).
Proof. intros Hn. unfold posix_split. rewrite (cut_without_slash name Hn). reflexivity. Qed.

Section WithSdk.
Variable get_public_url : string -> string -> sdk_result.
Variable list_folder : string -> string -> sdk_result.

#[local] Abbreviation public_url := (storage_public_url get_public_url).

(** X18. [storage_try_extensions] asks for the extensions in their order
    and returns the URL of the first one that has a truthy URL; it returns
    [None] exactly when no extension has one. *)
Theorem storage_try_extensions_first (bucket basename : string) :
  (forall exts,
     storage_try_extensions get_public_url bucket basename exts = JNull
     <-> Forall (fun ext => truthy (public_url bucket (Some (basename +:+ ext))) = false)
                exts)
  /\ (forall before ext after,
        Forall (fun e => truthy (public_url bucket (Some (basename +:+ e))) = false)
               before ->
        truthy (public_url bucket (Some (basename +:+ ext))) = true ->
        storage_try_extensions get_public_url bucket basename (before ++ ext :: after)
        = public_url bucket (Some (basename +:+ ext))).
Proof.
  split.
  - induction exts as [|ext exts IH]; cbn [storage_try_extensions].
    + split; [constructor|reflexivity].
    + rewrite Forall_cons.
      destruct (truthy (public_url bucket (Some (basename +:+ ext)))) eqn:E.
      * split; [|intros [H _]; discriminate].
        intros H. rewrite H in E. cbn in E. discriminate.
      * rewrite IH. tauto.
  - intros before ext after Hb He.
    induction before as [|e before IH]; cbn [app storage_try_extensions].
    + rewrite He. reflexivity.
    + apply Forall_cons in Hb. destruct Hb as [H1 H2]. rewrite H1. exact (IH H2).
Qed.

(** X19. [storage_public_url] never makes a URL up: its result is [None],
    or the string the SDK returned, or the [publicUrl] or [public_url]
    entry of the [data] dictionary the SDK returned; and it is [None] for a
    missing or empty path and when the SDK raises. *)
Theorem storage_public_url_provenance (bucket : string) (path : option string) :
  let url := storage_public_url get_public_url bucket path in
  (url = JNull
   \/ exists p res,
        path = Some p /\ get_public_url bucket p = SdkReturns res
        /\ (res = url /\ (exists s, url = JStr s)
            \/ exists m data k,
                 res = JDict m /\ m !! "data"%string = Some (JDict data)
                 /\ k ∈ ["publicUrl"; "public_url"]%string
                 /\ data !! k = Some url))
  /\ (path = None \/ path = Some EmptyString -> url = JNull)
  /\ (forall p, path = Some p -> get_public_url bucket p = SdkRaises -> url = JNull).
Proof.
  intros url. subst url. split; [|split].
  - unfold storage_public_url.
    destruct path as [[|c p]|]; [left; reflexivity| |left; reflexivity].
    destruct (get_public_url bucket (String c p)) as [|res] eqn:Eg;
      [left; reflexivity|].
    destruct res as [|b|z|x|s|l|m]; try (left; reflexivity).
    + right. exists (String c p), (JStr s). split; [reflexivity|].
      split; [exact Eg|]. left. split; [reflexivity|]. exists s. reflexivity.
    + destruct (m !! "data"%string) as [d|] eqn:Ed; cbn [from_option id];
        [|left; reflexivity].
      unfold py_or. destruct (truthy d) eqn:Etd; [|left; reflexivity].
      destruct d as [| | | | | |data]; try (left; reflexivity).
      cbn [dict_get mbind option_bind from_option id].
      destruct (data !! "publicUrl"%string) as [a|] eqn:Ea; cbn [from_option id].
      * destruct (truthy a) eqn:Eta.
        -- right. exists (String c p), (JDict m). split; [reflexivity|].
           split; [exact Eg|]. right. exists m, data, "publicUrl"%string.
           split; [reflexivity|]. split; [exact Ed|].
           split; [set_solver|exact Ea].
        -- destruct (data !! "public_url"%string) as [b|] eqn:Eb; cbn [from_option id];
             [|left; reflexivity].
           right. exists (String c p), (JDict m). split; [reflexivity|].
           split; [exact Eg|]. right. exists m, data, "public_url"%string.
           split; [reflexivity|]. split; [exact Ed|].
           split; [set_solver|exact Eb].
      * change (truthy JNull) with false. cbn iota.
        destruct (data !! "public_url"%string) as [b|] eqn:Eb; cbn [from_option id];
          [|left; reflexivity].
        right. exists (String c p), (JDict m). split; [reflexivity|].
        split; [exact Eg|]. right. exists m, data, "public_url"%string.
        split; [reflexivity|]. split; [exact Ed|].
        split; [set_solver|exact Eb].
  - intros [->| ->]; reflexivity.
  - intros p -> Hr. unfold storage_public_url. rewrite Hr.
    destruct p; reflexivity.
Qed.

End WithSdk.

Section SafeFacts.
Variable get_public_url : string -> string -> sdk_result.
Variable list_folder : string -> string -> sdk_result.

#[local] Abbreviation public_url' := (storage_public_url get_public_url).
#[local] Abbreviation safe := (storage_try_extensions_safe get_public_url list_folder).

Lemma existsb_is_name (candidate : string) (names : list json) :
  existsb (is_name candidate) names = true <-> JStr candidate ∈ names.
Proof.
  rewrite existsb_exists. split.
  - intros (v & Hin & Hv). destruct v; try discriminate.
    apply String.eqb_eq in Hv. subst. apply list_elem_of_In, Hin.
  - intros Hin. exists (JStr candidate). split; [apply list_elem_of_In, Hin|].
    apply String.eqb_refl.
Qed.

Lemma first_listed_found (bucket folder name : string) (names : list json)
    (before : list string) (ext : string) (after : list string) :
  Forall (fun e => JStr (name +:+ e) ∉ names) before ->
  JStr (name +:+ ext) ∈ names ->
  first_listed get_public_url bucket folder name names (before ++ ext :: after)
  = public_url' bucket
      (Some ((if is_empty folder then EmptyString else folder +:+ "/")
             +:+ name +:+ ext)).
Proof.
  intros Hb He. induction before as [|e before IH]; cbn [app first_listed].
  - apply existsb_is_name in He. rewrite He. reflexivity.
  - apply Forall_cons in Hb. destruct Hb as [H1 H2].
    destruct (existsb (is_name (name +:+ e)) names) eqn:E.
    + apply existsb_is_name in E. contradiction.
    + exact (IH H2).
Qed.

Lemma first_listed_none (bucket folder name : string) (names : list json)
    (exts : list string) :
  Forall (fun e => JStr (name +:+ e) ∉ names) exts ->
  first_listed get_public_url bucket folder name names exts = JNull.
Proof.
  induction exts as [|e exts IH]; intros H; cbn [first_listed]; [reflexivity|].
  apply Forall_cons in H. destruct H as [H1 H2].
  destruct (existsb (is_name (name +:+ e)) names) eqn:E.
  - apply existsb_is_name in E. contradiction.
  - exact (IH H2).
Qed.

Lemma safe_unfold (bucket basename folder name : string) (items : list json)
    (names : list json) (exts : list string) :
  posix_split basename = (folder, name) -> name <> EmptyString ->
  list_folder bucket folder = SdkReturns (JList items) ->
  names_of items = Some names ->
  safe bucket basename exts
  = first_listed get_public_url bucket folder name names exts.
Proof.
  intros Hs Hn Hl Hnames. unfold storage_try_extensions_safe.
  rewrite Hs, Hl.
  assert (py_iter (py_or (JList items) (JList [])) = Some items) as ->.
  { unfold py_or. destruct items; reflexivity. }
  cbn [mbind option_bind]. rewrite Hnames.
  destruct name; [contradiction|reflexivity].
Qed.

(** X20. For a base name in a subfolder, ["folder/name"],
    [storage_try_extensions_safe] lists that folder and returns what
    [storage_public_url] gives for ["folder/name" + ext], [ext] being the
    first extension for which [name + ext] is among the listed names; for a
    base name without a slash it lists the root and the path is
    [name + ext]; when no extension is listed the result is [None]. *)
Theorem storage_try_extensions_safe_path :
  (forall bucket folder name c items names before ext after,
     last_char folder = Some c -> is_slash c = false ->
     ocorre "/" name = false -> name <> EmptyString ->
     list_folder bucket folder = SdkReturns (JList items) ->
     names_of items = Some names ->
     Forall (fun e => JStr (name +:+ e) ∉ names) before ->
     JStr (name +:+ ext) ∈ names ->
     safe bucket (folder +:+ "/" +:+ name) (before ++ ext :: after)
     = public_url' bucket (Some (folder +:+ "/" +:+ name +:+ ext)))
  /\ (forall bucket name items names before ext after,
        ocorre "/" name = false -> name <> EmptyString ->
        list_folder bucket EmptyString = SdkReturns (JList items) ->
        names_of items = Some names ->
        Forall (fun e => JStr (name +:+ e) ∉ names) before ->
        JStr (name +:+ ext) ∈ names ->
        safe bucket name (before ++ ext :: after)
        = public_url' bucket (Some (name +:+ ext)))
  /\ (forall bucket basename folder name items names exts,
        posix_split basename = (folder, name) -> name <> EmptyString ->
        list_folder bucket folder = SdkReturns (JList items) ->
        names_of items = Some names ->
        Forall (fun e => JStr (name +:+ e) ∉ names) exts ->
        safe bucket basename exts = JNull).
Proof.
  split; [|split].
  - intros bucket folder name c items names before ext after Hl Hc Hn Hne Hlist
      Hnames Hb He.
    rewrite (safe_unfold bucket _ folder name items names _
               (posix_split_join folder name c Hl Hc Hn) Hne Hlist Hnames).
    rewrite (first_listed_found bucket folder name names before ext after Hb He).
    destruct folder as [|a folder]; [discriminate|]. cbn [is_empty].
    rewrite append_assoc. reflexivity.
  - intros bucket name items names before ext after Hn Hne Hlist Hnames Hb He.
    rewrite (safe_unfold bucket _ EmptyString name items names _
               (posix_split_plain name Hn) Hne Hlist Hnames).
    rewrite (first_listed_found bucket EmptyString name names before ext after Hb He).
    reflexivity.
  - intros bucket basename folder name items names exts Hs Hne Hlist Hnames Hall.
    rewrite (safe_unfold bucket basename folder name items names exts
               Hs Hne Hlist Hnames).
    apply first_listed_none, Hall.
Qed.

Lemma names_of_non_dict (items : list json) :
  Exists (fun it => forall m, it <> JDict m) items -> names_of items = None.
Proof.
  induction items as [|it items IH]; intros H; [inversion H|].
  apply Exists_cons in H. cbn [names_of].
  destruct (dict_get it "name") as [v|] eqn:Ev; [|reflexivity].
  cbn [mbind option_bind]. destruct H as [H|H].
  - destruct it; try discriminate. exfalso. eapply H. reflexivity.
  - rewrite (IH H). destruct (hashable v); reflexivity.
Qed.

(** X21. [storage_try_extensions_safe] returns [None] when the listing
    raises, when it is empty or [None], and when one of its entries is not
    a dictionary. *)
Theorem storage_try_extensions_safe_failures (bucket basename : string)
    (exts : list string) :
  let folder := (posix_split basename).1 in
  (list_folder bucket folder = SdkRaises -> safe bucket basename exts = JNull)
  /\ (forall items,
        list_folder bucket folder = SdkReturns items ->
        truthy items = false -> safe bucket basename exts = JNull)
  /\ (forall items,
        list_folder bucket folder = SdkReturns (JList items) ->
        Exists (fun it => forall m, it <> JDict m) items ->
        safe bucket basename exts = JNull).
Proof.
  intros folder. subst folder. unfold storage_try_extensions_safe.
  destruct (posix_split basename) as [folder name]. cbn [fst].
  split; [|split].
  - intros ->. reflexivity.
  - intros items -> Hf. unfold py_or. rewrite Hf. cbn.
    induction exts as [|e exts IH]; [reflexivity|exact IH].
  - intros items -> Hex.
    assert (py_iter (py_or (JList items) (JList [])) = Some items) as ->.
    { unfold py_or. destruct items; reflexivity. }
    cbn [mbind option_bind]. rewrite (names_of_non_dict items Hex). reflexivity.
Qed.

End SafeFacts.

End StorageFacts.

(** ** More on the food detection: the regular expression, the names, the
    loop *)

Section FoodAIMore.
Import PyNum FoodAI Texto.

Lemma ocorre_app (c : ascii) (x y : string) :
  ocorre c (x +:+ y) = ocorre c x || ocorre c y.
Proof.
  induction x as [|a x IH]; [reflexivity|].
  change (ocorre c (String a (x +:+ y)) = (Ascii.eqb a c || ocorre c x) || ocorre c y).
  cbn [ocorre]. rewrite IH, orb_assoc. reflexivity.
Qed.

Lemma from_first_brace_Some (s s' : string) :
  from_first_brace s = Some s' ->
  exists pre rest,
    s = pre +:+ s' /\ s' = String "{" rest /\ ocorre "{" pre = false.
Proof.
  revert s'. induction s as [|a s IH]; intros s' H; cbn [from_first_brace] in H;
    [discriminate|].
  destruct (Ascii.eqb a "{") eqn:E.
  - injection H as <-. apply Ascii.eqb_eq in E. subst a.
    exists EmptyString, s. repeat split; reflexivity.
  - destruct (IH s' H) as (pre & rest & -> & -> & Hp).
    exists (String a pre), rest. repeat split. cbn [ocorre]. rewrite E, Hp. reflexivity.
Qed.

Lemma from_first_brace_found (pre rest : string) :
  ocorre "}" rest = true ->
  exists s', from_first_brace (pre +:+ String "{" rest) = Some s'
             /\ ocorre "}" s' = true.
Proof.
  intros Hr. induction pre as [|a pre IH].
  - exists (String "{" rest). split; [reflexivity|].
    cbn [ocorre]. rewrite Hr. apply orb_true_r.
  - change (String a pre +:+ String "{" rest)
      with (String a (pre +:+ String "{" rest)).
    cbn [from_first_brace]. destruct (Ascii.eqb a "{") eqn:E.
    + eexists. split; [reflexivity|]. cbn [ocorre].
      rewrite ocorre_app. cbn [ocorre]. rewrite Hr, !orb_true_r. reflexivity.
    + exact IH.
Qed.

Lemma upto_last_brace_None (s : string) :
  upto_last_brace s = None <-> ocorre "}" s = false.
Proof.
  induction s as [|a s IH]; cbn [upto_last_brace ocorre]; [tauto|].
  destruct (upto_last_brace s) as [r|].
  - split; [discriminate|]. intros H. apply orb_false_iff in H.
    destruct H as [_ H]. apply IH in H. discriminate.
  - assert (ocorre "}" s = false) as -> by (apply IH; reflexivity).
    rewrite orb_false_r. destruct (Ascii.eqb a "}"); split; congruence.
Qed.

Lemma upto_last_brace_Some (s r : string) :
  upto_last_brace s = Some r ->
  exists pos, s = r +:+ pos /\ ocorre "}" pos = false /\ last_char r = Some "}"%char.
Proof.
  revert r. induction s as [|a s IH]; intros r H; cbn [upto_last_brace] in H;
    [discriminate|].
  destruct (upto_last_brace s) as [r'|] eqn:Er.
  - injection H as <-. destruct (IH r' eq_refl) as (pos & -> & Hp & Hl).
    exists pos. split; [reflexivity|]. split; [exact Hp|].
    destruct r' as [|b r']; [discriminate|]. exact Hl.
  - destruct (Ascii.eqb a "}") eqn:E; [|discriminate].
    injection H as <-. apply Ascii.eqb_eq in E. subst a.
    exists s. split; [reflexivity|]. split; [|reflexivity].
    apply upto_last_brace_None, Er.
Qed.

Lemma last_char_snoc (r : string) (c : ascii) :
  last_char r = Some c -> exists init, r = init +:+ String c EmptyString.
Proof.
  induction r as [|a r IH]; [discriminate|]. intros H.
  destruct r as [|b r].
  - injection H as ->. exists EmptyString. reflexivity.
  - change (last_char (String a (String b r))) with (last_char (String b r)) in H.
    destruct (IH H) as (init & Hi). exists (String a init).
    change (String a init +:+ String c "") with (String a (init +:+ String c "")).
    rewrite <- Hi. reflexivity.
Qed.

(** X24. When [json.loads] fails on the answer, the regular expression
    picks the text from the first opening brace to the last closing brace
    after it: the match starts with an opening and ends with a closing
    brace, no opening brace comes before it and no closing brace after it;
    there is no match exactly when no opening brace is followed by a
    closing one. *)
Theorem re_search_braces_match (s : string) :
  (forall g, re_search_braces s = Some g ->
     exists pre mid pos,
       s = pre +:+ g +:+ pos
       /\ g = String "{" (mid +:+ "}")
       /\ ocorre "{" pre = false /\ ocorre "}" pos = false)
  /\ (re_search_braces s = None
      <-> forall pre rest, s = pre +:+ String "{" rest -> ocorre "}" rest = false).
Proof.
  assert (forall g, re_search_braces s = Some g ->
            exists pre mid pos,
              s = pre +:+ g +:+ pos
              /\ g = String "{" (mid +:+ "}")
              /\ ocorre "{" pre = false /\ ocorre "}" pos = false) as Hsome.
  { intros g H. unfold re_search_braces in H.
    destruct (from_first_brace s) as [s'|] eqn:Ef; [|discriminate].
    cbn [mbind option_bind] in H.
    destruct (from_first_brace_Some s s' Ef) as (pre & rest & -> & -> & Hpre).
    destruct (upto_last_brace_Some _ g H) as (pos & Hs & Hpos & Hlast).
    destruct g as [|a g]; [discriminate|].
    injection Hs as <- Hrest.
    destruct g as [|b g]; [discriminate|].
    change (last_char (String "{" (String b g))) with (last_char (String b g)) in Hlast.
    destruct (last_char_snoc _ _ Hlast) as (mid & Hmid).
    exists pre, mid, pos. rewrite Hmid.
    split; [|split; [reflexivity|split; assumption]].
    f_equal. change (String "{" (mid +:+ "}") +:+ pos)
      with (String "{" ((mid +:+ "}") +:+ pos)).
    f_equal. rewrite Hrest, Hmid. reflexivity. }
  split; [exact Hsome|]. split.
  - intros Hnone pre rest -> .
    destruct (ocorre "}" rest) eqn:Er; [|reflexivity].
    destruct (from_first_brace_found pre rest Er) as (s' & Hf & Hs').
    unfold re_search_braces in Hnone. rewrite Hf in Hnone.
    cbn [mbind option_bind] in Hnone.
    apply upto_last_brace_None in Hnone. congruence.
  - intros Hall. destruct (re_search_braces s) as [g|] eqn:Eg; [|reflexivity].
    destruct (Hsome g eq_refl) as (pre & mid & pos & Hs & Hg & _ & _).
    assert (ocorre "}" ((mid +:+ "}") +:+ pos) = false) as Hc.
    { apply (Hall pre). rewrite Hs, Hg. reflexivity. }
    rewrite !ocorre_app in Hc. cbn in Hc. rewrite orb_true_r in Hc. discriminate.
Qed.

End FoodAIMore.

Section FoodAILoop.
Import PyNum FoodAI Texto.

Lemma lstrip_first_aux (n : nat) :
  forall s c, (String.length s <= n)%nat ->
    first_char (lstrip s) = Some c -> is_space c = false.
Proof.
  induction n as [|n IH]; intros s c Hlen.
  - destruct s; [discriminate|cbn in Hlen; lia].
  - destruct s as [|a s1]; [discriminate|]. cbn [String.length] in Hlen.
    cbn [lstrip]. destruct (is_space a) eqn:Ea.
    { apply IH. lia. }
    destruct s1 as [|b s2].
    { cbn. intros H. injection H as <-. exact Ea. }
    cbn [String.length] in Hlen.
    destruct (is_space2 a b).
    { apply IH. lia. }
    destruct s2 as [|d s3].
    { cbn. intros H. injection H as <-. exact Ea. }
    cbn [String.length] in Hlen.
    destruct (is_space3 a b d).
    { apply IH. lia. }
    cbn. intros H. injection H as <-. exact Ea.
Qed.

Lemma lstrip_first (s : string) (c : ascii) :
  first_char (lstrip s) = Some c -> is_space c = false.
Proof. apply (lstrip_first_aux (String.length s)). lia. Qed.

Lemma rstrip_cons (a : ascii) (s : string) :
  rstrip (String a s)
  = if is_empty (lstrip (String a s)) then EmptyString else String a (rstrip s).
Proof. reflexivity. Qed.

Lemma rstrip_first (s : string) (c : ascii) :
  first_char (rstrip s) = Some c -> first_char s = Some c.
Proof.
  destruct s as [|a s]; [discriminate|]. rewrite rstrip_cons.
  destruct (is_empty (lstrip (String a s))); [discriminate|].
  intros H. exact H.
Qed.

(** [rstrip] empties only what [lstrip] empties. *)
Lemma rstrip_empty (s : string) : rstrip s = EmptyString -> lstrip s = EmptyString.
Proof.
  destruct s as [|a s]; [reflexivity|]. rewrite rstrip_cons.
  destruct (lstrip (String a s)) eqn:E; [reflexivity|]. cbn. discriminate.
Qed.

Lemma rstrip_last (s : string) (c : ascii) :
  last_char (rstrip s) = Some c -> is_space c = false.
Proof.
  induction s as [|a s IH]; [discriminate|]. rewrite rstrip_cons.
  destruct (is_empty (lstrip (String a s))) eqn:E; [discriminate|].
  destruct (rstrip s) as [|b r] eqn:Er.
  - cbn [last_char]. intros H. injection H as <-.
    apply rstrip_empty in Er.
    destruct (is_space a) eqn:Ea; [|reflexivity].
    cbn [lstrip] in E. rewrite Ea, Er in E. discriminate.
  - change (last_char (String a (String b r))) with (last_char (String b r)).
    exact IH.
Qed.

(** What [str.strip()] returns neither starts nor ends with one of the
    characters it removes. *)
Lemma strip_trimmed (s : string) :
  (forall c, first_char (strip s) = Some c -> is_space c = false)
  /\ (forall c, last_char (strip s) = Some c -> is_space c = false).
Proof.
  unfold strip. split; intros c H.
  - apply (lstrip_first s), rstrip_first, H.
  - apply (rstrip_last (lstrip s)), H.
Qed.

Section WithEnvironment.
Variable json_loads : string -> option json.
Variable float_of_str : string -> option pyfloat.
Variable str_of : json -> string.

#[local] Abbreviation passo := (item_step float_of_str str_of).
#[local] Abbreviation detect :=
  (ai_detect_foods_from_image_openrouter json_loads float_of_str str_of).

(** The loop is a traversal: it raises when one turn raises, and otherwise
    appends the items of the turns that append one. *)
Lemma collect_mapM (items : list json) :
  forall out,
    collect float_of_str str_of items out
    = rs ← mapM passo items; Some (out ++ omap id rs).
Proof.
  induction items as [|it items IH]; intros out; cbn [collect mapM].
  - cbn. rewrite app_nil_r. reflexivity.
  - destruct (passo it) as [r|] eqn:Er; cbn [mbind option_bind]; [|reflexivity].
    rewrite IH. destruct (mapM passo items) as [rs|]; cbn; [|reflexivity].
    destruct r as [i|]; cbn; [rewrite <- app_assoc|]; reflexivity.
Qed.

Lemma detect_with_items (k : string) (c : ascii) (data content : json)
    (m : gmap string json) (l : list json) :
  message_content data = Some content ->
  parse_content json_loads content = Some (JDict m) ->
  m !! "items"%string = Some (JList l) ->
  detect (Some (String c k)) (BodyJson data)
  = match mapM passo l with Some rs => omap id rs | None => [] end.
Proof.
  intros Hc Hp Hm. unfold ai_detect_foods_from_image_openrouter, detect_body.
  rewrite Hc. cbn [mbind option_bind]. rewrite Hp. cbn [mbind option_bind dict_get].
  rewrite Hm. cbn [from_option id].
  assert (py_iter (py_or (JList l) (JList [])) = Some l) as ->.
  { unfold py_or. destruct l; reflexivity. }
  cbn [mbind option_bind]. rewrite collect_mapM.
  destruct (mapM passo l); reflexivity.
Qed.

Lemma length_omap_id {A : Type} (rs : list (option A)) :
  (length (omap id rs) <= length rs)%nat.
Proof.
  induction rs as [|[a|] rs IH]; cbn; lia.
Qed.

Lemma omap_id_fmap {A B : Type} (f : A -> option B) (l : list A) :
  omap id (f <$> l) = omap f l.
Proof.
  induction l as [|a l IH]; cbn; [reflexivity|].
  rewrite IH. reflexivity.
Qed.

(** [float(v or 0)] on a JSON number, on [null] and on a missing key. *)
Lemma numero_py_float (v : json) (x : pyfloat) :
  numero v = Some x -> py_float float_of_str (py_or v (JInt 0)) = Some x.
Proof.
  unfold py_or. destruct v as [|b|z|y|s|l|m]; cbn [numero truthy]; try discriminate.
  - intros H. injection H as <-. reflexivity.
  - destruct (Z.eqb_spec z 0) as [->|Hz]; cbn [negb py_float]; intros H; exact H.
  - destruct y as [q| | |]; cbn [negb py_float]; try (intros H; exact H).
    destruct (Qeq_bool q 0); cbn [negb py_float]; intros H; injection H as <-;
      reflexivity.
Qed.

(** The values on which [float(v or 0)] raises: a non-empty list or
    dictionary, an [int] beyond the doubles, a non-empty string that
    [float()] rejects. *)
Lemma py_float_raises (v : json) :
  match v with
  | JList l => l <> []
  | JDict m => m <> ∅
  | JInt z => (2 ^ 1024 - 2 ^ 970 <= Z.abs z)%Z
  | JStr s => s <> EmptyString /\ float_of_str s = None
  | _ => False
  end ->
  py_float float_of_str (py_or v (JInt 0)) = None.
Proof.
  unfold py_or. destruct v as [|b|z|y|s|l|m]; cbn [truthy]; try contradiction.
  - intros Hz.
    assert (z <> 0)%Z as Hz0 by (intros ->; cbn in Hz; lia).
    apply Z.eqb_neq in Hz0. rewrite Hz0. cbn [negb py_float].
    destruct (Z.ltb_spec (Z.abs z) (2 ^ 1024 - 2 ^ 970)); [lia|reflexivity].
  - intros [Hs Hf]. destruct s as [|a s]; [contradiction|]. exact Hf.
  - intros Hl. destruct l as [|a l]; [contradiction|]. reflexivity.
  - intros Hm. destruct (map_to_list m) as [|kv kvs] eqn:E.
    + apply map_to_list_empty_iff in E. contradiction.
    + reflexivity.
Qed.

(** One turn of the loop on a dictionary with readable numbers. *)
Lemma item_step_dict (d : gmap string json) (g cf : pyfloat) :
  numero (default JNull (d !! "grams"%string)) = Some g ->
  numero (default JNull (d !! "confidence"%string)) = Some cf ->
  passo (JDict d)
  = Some (let nome := strip (py_str str_of (py_or (default JNull (d !! "food"%string))
                                                 (JStr ""))) in
          if is_empty nome then None
          else Some (mk_item nome (fmax (Fin 0) g)
                             (fmax (Fin 0) (fmin cf (Fin 1))))).
Proof.
  intros Hg Hc. unfold item_step. cbn [dict_get mbind option_bind].
  rewrite (numero_py_float _ _ Hg). cbn [mbind option_bind].
  rewrite (numero_py_float _ _ Hc). reflexivity.
Qed.

(** One turn of the loop raises on an entry that is not a dictionary and
    on one whose grams or confidence [float()] rejects. *)
Lemma item_step_raises (it : json) :
  (forall d, it <> JDict d)
  \/ (exists d key,
        it = JDict d /\ key ∈ ["grams"; "confidence"]%string
        /\ match default JNull (d !! key) with
           | JList l => l <> []
           | JDict m => m <> ∅
           | JInt z => (2 ^ 1024 - 2 ^ 970 <= Z.abs z)%Z
           | JStr s => s <> EmptyString /\ float_of_str s = None
           | _ => False
           end) ->
  passo it = None.
Proof.
  intros [Hnd|(d & key & -> & Hkey & Hbad)].
  - destruct it as [|b|z|y|s|l|m]; try reflexivity.
    exfalso. apply (Hnd m). reflexivity.
  - apply py_float_raises in Hbad.
    unfold item_step. cbn [dict_get mbind option_bind].
    rewrite !elem_of_cons in Hkey. destruct Hkey as [->|[->|Hnil]].
    + rewrite Hbad. reflexivity.
    + destruct (py_float float_of_str
                  (py_or (default JNull (d !! "grams"%string)) (JInt 0)));
        [|reflexivity].
      cbn [mbind option_bind]. rewrite Hbad. reflexivity.
    + apply elem_of_nil in Hnil. contradiction.
Qed.

(** X22. When the answer carries an ["items"] list, the result is all or
    nothing.  If one entry is not a dictionary, or has grams or a
    confidence that is a non-empty list or dictionary, an [int] beyond the
    doubles or a non-empty string that [float()] rejects, the result is
    empty: the entries before it are lost too.  If every entry is a
    dictionary whose grams and confidence are JSON numbers, [null] or
    missing, the result is, in the order of the list, one item for each
    entry whose stripped name is not empty, with that name, the grams
    raised to 0 if negative and the confidence clamped to [[0, 1]]; an
    entry with a blank name is skipped.  The result is never longer than
    the list. *)
Theorem ai_detect_all_or_nothing (k : string) (c : ascii) (data content : json)
    (m : gmap string json) (l : list json) :
  message_content data = Some content ->
  parse_content json_loads content = Some (JDict m) ->
  m !! "items"%string = Some (JList l) ->
  let result := detect (Some (String c k)) (BodyJson data) in
  (Exists (fun it =>
             (forall d, it <> JDict d)
             \/ (exists d key,
                   it = JDict d /\ key ∈ ["grams"; "confidence"]%string
                   /\ match default JNull (d !! key) with
                      | JList l => l <> []
                      | JDict m => m <> ∅
                      | JInt z => (2 ^ 1024 - 2 ^ 970 <= Z.abs z)%Z
                      | JStr s => s <> EmptyString /\ float_of_str s = None
                      | _ => False
                      end)) l ->
   result = [])
  /\ (forall entries : list (gmap string json * pyfloat * pyfloat),
        Forall2 (fun it '(d, g, cf) =>
                   it = JDict d
                   /\ numero (default JNull (d !! "grams"%string)) = Some g
                   /\ numero (default JNull (d !! "confidence"%string)) = Some cf)
                l entries ->
        result
        = omap (fun '(d, g, cf) =>
                  let nome :=
                    strip (py_str str_of (py_or (default JNull (d !! "food"%string))
                                                (JStr ""))) in
                  if is_empty nome then None
                  else Some (mk_item nome (fmax (Fin 0) g)
                                     (fmax (Fin 0) (fmin cf (Fin 1)))))
               entries)
  /\ (length result <= length l)%nat.
Proof.
  intros Hc Hp Hm result. subst result.
  rewrite (detect_with_items k c data content m l Hc Hp Hm).
  split; [|split].
  - intros Hex.
    assert (Exists (fun it => passo it = None) l) as Hex'.
    { eapply Exists_impl; [exact Hex|]. intros it Hit. apply item_step_raises, Hit. }
    apply mapM_None_2 in Hex'. rewrite Hex'. reflexivity.
  - intros entries Hall.
    set (f := fun '(d, g, cf) =>
                let nome :=
                  strip (py_str str_of (py_or (default JNull (d !! "food"%string))
                                              (JStr ""))) in
                if is_empty nome then None
                else Some (mk_item nome (fmax (Fin 0) g)
                                   (fmax (Fin 0) (fmin cf (Fin 1))))).
    assert (mapM passo l = Some (f <$> entries)) as ->.
    { apply mapM_Some_2. apply Forall2_fmap_r.
      eapply Forall2_impl; [exact Hall|].
      intros it [[d g] cf] (-> & Hg & Hcf). cbn beta iota.
      apply (item_step_dict d g cf Hg Hcf). }
    apply omap_id_fmap.
  - destruct (mapM passo l) as [rs|] eqn:E; [|cbn; lia].
    apply mapM_Some_1, Forall2_length in E. rewrite E. apply length_omap_id.
Qed.

Lemma collect_from_steps (items : list json) :
  forall out res,
    collect float_of_str str_of items out = Some res ->
    forall i, i ∈ res -> i ∈ out \/ exists it, it ∈ items /\ passo it = Some (Some i).
Proof.
  induction items as [|it items IH]; intros out res H i Hi; cbn [collect] in H.
  - injection H as <-. left. exact Hi.
  - destruct (passo it) as [r|] eqn:Er; [|discriminate].
    cbn [mbind option_bind] in H.
    destruct (IH _ _ H i Hi) as [Hin|(it' & Hin & Hs)].
    + destruct r as [i'|]; [|left; exact Hin].
      apply elem_of_app in Hin. destruct Hin as [Hin|Hin]; [left; exact Hin|].
      apply list_elem_of_singleton in Hin. subst i'.
      right. exists it. split; [left|exact Er].
    + right. exists it'. split; [right; exact Hin|exact Hs].
Qed.

Lemma detect_from_steps (api_key : option string) (resp : http_outcome) (i : item) :
  i ∈ detect api_key resp -> exists it, passo it = Some (Some i).
Proof.
  unfold ai_detect_foods_from_image_openrouter.
  destruct api_key as [[|a k]|]; try (intros H; apply elem_of_nil in H; contradiction).
  destruct (detect_body json_loads float_of_str str_of resp) as [res|] eqn:E;
    cbn [from_option id]; [|intros H; apply elem_of_nil in H; contradiction].
  intros Hi. unfold detect_body in E.
  destruct resp as [| |data]; try discriminate.
  destruct (message_content data) as [content|]; [|discriminate].
  cbn [mbind option_bind] in E.
  destruct (parse_content json_loads content) as [parsed|]; [|discriminate].
  cbn [mbind option_bind] in E.
  destruct (dict_get parsed "items") as [its|]; [|discriminate].
  cbn [mbind option_bind] in E.
  destruct (py_iter (py_or its (JList []))) as [items|]; [|discriminate].
  cbn [mbind option_bind] in E.
  destruct (collect_from_steps items [] res E i Hi) as [Hin|(it & _ & Hs)].
  - apply elem_of_nil in Hin. contradiction.
  - exists it. exact Hs.
Qed.

(** X23. Every name in the returned list is trimmed: it neither starts nor
    ends with a whitespace character (tab, line feed, vertical tab, form
    feed, carriage return, the separators 28 to 31 or a space). *)
Theorem ai_detect_names_trimmed (api_key : option string) (resp : http_outcome) :
  Forall (fun i =>
            (forall c, first_char (food i) = Some c -> is_space c = false)
            /\ (forall c, last_char (food i) = Some c -> is_space c = false))
         (detect api_key resp).
Proof.
  apply Forall_forall. intros i Hi.
  destruct (detect_from_steps api_key resp i Hi) as (it & Hs).
  unfold item_step in Hs.
  destruct (dict_get it "food") as [f|]; [|discriminate].
  cbn [mbind option_bind] in Hs.
  destruct (dict_get it "grams") as [g|]; [|discriminate].
  cbn [mbind option_bind] in Hs.
  destruct (py_float float_of_str (py_or g (JInt 0))) as [gr|]; [|discriminate].
  cbn [mbind option_bind] in Hs.
  destruct (dict_get it "confidence") as [cf|]; [|discriminate].
  cbn [mbind option_bind] in Hs.
  destruct (py_float float_of_str (py_or cf (JInt 0))) as [cv|]; [|discriminate].
  cbn [mbind option_bind] in Hs.
  destruct (is_empty (strip (py_str str_of (py_or f (JStr ""))))); [discriminate|].
  injection Hs as <-. cbn [food]. apply strip_trimmed.
Qed.

End WithEnvironment.

End FoodAILoop.

Section FoodAIExamples.
Import PyNum FoodAI Exemplo.

Lemma ai_detect_all_or_nothing_example :
  let float_of_str (s : string) : option pyfloat := None in
  let str_of (v : json) : string := EmptyString in
  let result :=
    ai_detect_foods_from_image_openrouter loads float_of_str str_of
      (Some "chave"%string) (BodyJson resposta) in
  message_content resposta = Some conteudo
  /\ parse_content loads conteudo = Some (JDict objeto)
  /\ objeto !! "items"%string = Some (JList itens)
  /\ (Exists (fun it =>
                (forall d, it <> JDict d)
                \/ (exists d key,
                      it = JDict d /\ key ∈ ["grams"; "confidence"]%string
                      /\ match default JNull (d !! key) with
                         | JList l => l <> []
                         | JDict m => m <> ∅
                         | JInt z => (2 ^ 1024 - 2 ^ 970 <= Z.abs z)%Z
                         | JStr s => s <> EmptyString /\ float_of_str s = None
                         | _ => False
                         end)) itens ->
      result = [])
  /\ (forall entries : list (gmap string json * pyfloat * pyfloat),
        Forall2 (fun it '(d, g, cf) =>
                   it = JDict d
                   /\ numero (default JNull (d !! "grams"%string)) = Some g
                   /\ numero (default JNull (d !! "confidence"%string)) = Some cf)
                itens entries ->
        result
        = omap (fun '(d, g, cf) =>
                  let nome :=
                    strip (py_str str_of (py_or (default JNull (d !! "food"%string))
                                                (JStr ""))) in
                  if is_empty nome then None
                  else Some (mk_item nome (fmax (Fin 0) g)
                                     (fmax (Fin 0) (fmin cf (Fin 1)))))
               entries)
  /\ (length result <= length itens)%nat.
Proof.
  intros float_of_str str_of result.
  assert (message_content resposta = Some conteudo) as H1 by (vm_compute; reflexivity).
  assert (parse_content loads conteudo = Some (JDict objeto)) as H2
    by (vm_compute; reflexivity).
  assert (objeto !! "items"%string = Some (JList itens)) as H3
    by (vm_compute; reflexivity).
  split; [exact H1|]. split; [exact H2|]. split; [exact H3|].
  exact (ai_detect_all_or_nothing loads float_of_str str_of "have" "c"
           resposta conteudo objeto itens H1 H2 H3).
Defined.

(** The same answer with a fourth entry whose grams are a list: nothing is
    returned, the two good items before it included. *)
Lemma ai_detect_one_bad_entry :
  let itens' := itens ++ [JDict (<[ "food"%string := JStr "ovo" ]>
                                 (<[ "grams"%string := JList [JInt 50] ]> ∅))] in
  let loads' (s : string) : option json :=
    if String.eqb s "{...}" then Some (JDict (<[ "items"%string := JList itens' ]> ∅))
    else None in
  ai_detect_foods_from_image_openrouter loads (fun _ => None) (fun _ => EmptyString)
    (Some "chave"%string) (BodyJson resposta)
  = [ mk_item "arroz" (Fin 0) (Fin 1); mk_item "feijão" (Fin 120.5) (Fin 0) ]
  /\ ai_detect_foods_from_image_openrouter loads' (fun _ => None) (fun _ => EmptyString)
       (Some "chave"%string) (BodyJson resposta)
     = [].
Proof. split; vm_compute; reflexivity. Qed.

(** A name that is one no-break space (U+00A0, the bytes C2 A0) is blank
    for [str.strip()], and [float(2**53 + 1)] is 2^53. *)
Lemma strip_and_float_examples :
  strip (String (ascii_of_nat 194) (String (ascii_of_nat 160) EmptyString))
  = EmptyString
  /\ strip (" arroz" +:+ String (ascii_of_nat 226)
              (String (ascii_of_nat 128) (String (ascii_of_nat 137) " ")))
     = "arroz"%string
  /\ py_float (fun _ => None) (JInt (2 ^ 53 + 1)) = Some (Fin (inject_Z (2 ^ 53)))
  /\ py_float (fun _ => None) (JInt (2 ^ 1024 - 2 ^ 970)) = None
  /\ Binary64.to_Q (Binary64.of_int 3) = Some (Float64.of_int 3).
Proof. repeat split; vm_compute; reflexivity. Qed.

End FoodAIExamples.
